(** * The yum backend of avocado's software manager

    A shallow embedding of [avocado/utils/software_manager/backends/yum.py]:
    the [YumBackend] class, the part of Python's [configparser.ConfigParser]
    it drives, and the external services it calls (process runner, temporary
    files, random strings, the native yum handle).

    Python strings are modelled by [string] (sequences of ASCII characters),
    Python dicts by association lists that keep insertion order, exceptions by
    an explicit outcome type, and the mutable object [self] together with the
    outside world by explicit state passing. *)

From Stdlib Require Import String Ascii List Bool Arith ZArith Lia.
Import ListNotations.

Open Scope string_scope.
Open Scope list_scope.

(** Python's [+] on strings. *)
Infix "+++" := String.append (left associativity, at level 50).

(** ** Exceptions and results *)

(** The exception classes the module can meet.  [KeyboardInterrupt] stands for
    the classes that derive from [BaseException] but not from [Exception]. *)
Inductive exn : Type :=
| OSError
| CmdError
| ValueError
| KeyError
| NoSectionError
| DuplicateSectionError
| ParsingError
| InterpolationDepthError
| InterpolationSyntaxError
| InterpolationMissingOptionError
| StopIteration
| KeyboardInterrupt.

(** [isinstance(e, Exception)] *)
Definition is_Exception (e : exn) : bool :=
  match e with KeyboardInterrupt => false | _ => true end.

(** [isinstance(e, (OSError, process.CmdError))] *)
Definition is_OSError_or_CmdError (e : exn) : bool :=
  match e with OSError | CmdError => true | _ => false end.

(** Result of a pure library call that may raise. *)
Inductive Res (A : Type) : Type :=
| Ok (a : A)
| Err (e : exn).
Arguments Ok {A} a.
Arguments Err {A} e.

Definition rbind {A B} (r : Res A) (k : A -> Res B) : Res B :=
  match r with Ok a => k a | Err e => Err e end.

Declare Scope res_scope.
Delimit Scope res_scope with res.
Notation "x <- r ;; k" := (rbind r (fun x => k))
  (at level 100, r at next level, right associativity) : res_scope.

(** ** Strings *)

Definition percent : ascii := "%"%char.

(** ['%' in s] *)
Fixpoint has_percent (s : string) : bool :=
  match s with
  | EmptyString => false
  | String c r => Ascii.eqb c percent || has_percent r
  end.

Definition lower_ascii (c : ascii) : ascii :=
  let n := nat_of_ascii c in
  if (65 <=? n)%nat && (n <=? 90)%nat then ascii_of_nat (n + 32) else c.

(** [s.lower()] *)
Fixpoint lower (s : string) : string :=
  match s with
  | EmptyString => EmptyString
  | String c r => String (lower_ascii c) (lower r)
  end.

(** [s.startswith(p)] *)
Fixpoint startswith (p s : string) : bool :=
  match p, s with
  | EmptyString, _ => true
  | String a p', String b s' => Ascii.eqb a b && startswith p' s'
  | String _ _, EmptyString => false
  end.

(** [s.endswith(p)] *)
Fixpoint endswith (p s : string) : bool :=
  String.eqb p s
  || match s with
     | EmptyString => false
     | String _ s' => endswith p s'
     end.

(** [posixpath.join(a, b)] *)
Definition path_join (a b : string) : string :=
  if startswith "/" b then b
  else if String.eqb a "" || endswith "/" a then a +++ b
  else a +++ "/" +++ b.

(** ** Ordered dictionaries *)

Definition dict := list (string * string).

Fixpoint dict_get (k : string) (d : dict) : option string :=
  match d with
  | [] => None
  | (k', v) :: r => if String.eqb k k' then Some v else dict_get k r
  end.

(** [d[k] = v]: an existing key keeps its position, a new one goes last. *)
Fixpoint dict_set (k v : string) (d : dict) : dict :=
  match d with
  | [] => [(k, v)]
  | (k', v') :: r =>
      if String.eqb k k' then (k', v) :: r else (k', v') :: dict_set k v r
  end.

(** [d.update(o)] *)
Definition dict_update (d o : dict) : dict :=
  fold_left (fun acc kv => dict_set (fst kv) (snd kv) acc) o d.

(** ** The part of [configparser.ConfigParser] the backend uses *)

Module ConfigParser.

(** [_defaults] and [_sections] of a parser object. *)
Record t : Type := mk {
  defaults : dict;
  sects : list (string * dict)
}.

Definition empty : t := mk [] [].

Definition default_section : string := "DEFAULT".

(** 10, as in [configparser.MAX_INTERPOLATION_DEPTH] *)
Definition MAX_INTERPOLATION_DEPTH : nat := 10.

Fixpoint find_section (s : string) (l : list (string * dict)) : option dict :=
  match l with
  | [] => None
  | (s', d) :: r => if String.eqb s s' then Some d else find_section s r
  end.

(** [parser.sections()] *)
Definition sections (p : t) : list string := map fst (sects p).

(** [parser.has_section(s)]: the default section is not acknowledged. *)
Definition has_section (p : t) (s : string) : bool :=
  existsb (String.eqb s) (sections p).

(** [parser.add_section(s)] *)
Definition add_section (p : t) (s : string) : Res t :=
  if String.eqb s default_section then Err ValueError
  else if has_section p s then Err DuplicateSectionError
  else Ok (mk (defaults p) (sects p ++ [(s, [])])).

(** [parser.remove_section(s)] *)
Definition remove_section (p : t) (s : string) : bool * t :=
  (has_section p s,
   mk (defaults p) (filter (fun sd => negb (String.eqb s (fst sd))) (sects p))).

(** *** Basic interpolation *)

(** Reads [[^)]*] and the closing parenthesis: the characters before the
    first [")"] and what follows it. *)
Fixpoint key_body (s : string) : option (string * string) :=
  match s with
  | EmptyString => None
  | String c r =>
      if Ascii.eqb c ")" then Some (EmptyString, r)
      else match key_body r with
           | Some (k, rest) => Some (String c k, rest)
           | None => None
           end
  end.

(** [_KEYCRE.match(s)] for [_KEYCRE = re.compile(r"%\(([^)]+)\)s")]: the
    group and the text after the match. *)
Definition keycre_match (s : string) : option (string * string) :=
  match s with
  | String "%" (String "(" r) =>
      match key_body r with
      | Some (String c k, String "s" rest) => Some (String c k, rest)
      | _ => None
      end
  | _ => None
  end.

(** [value.replace('%%', '')] *)
Fixpoint strip_escaped (s : string) : string :=
  match s with
  | EmptyString => EmptyString
  | String c r =>
      match r with
      | String c' r' =>
          if Ascii.eqb c percent && Ascii.eqb c' percent then strip_escaped r'
          else String c (strip_escaped r)
      | EmptyString => String c EmptyString
      end
  end.

Fixpoint keycre_strip (fuel : nat) (s : string) : string :=
  match fuel with
  | O => s
  | S f =>
      match s with
      | EmptyString => EmptyString
      | String c r =>
          match keycre_match s with
          | Some (_, rest) => keycre_strip f rest
          | None => String c (keycre_strip f r)
          end
      end
  end.

(** [_KEYCRE.sub('', s)] *)
Definition keycre_sub (s : string) : string :=
  keycre_strip (String.length s) s.

(** [BasicInterpolation.before_set] *)
Definition before_set (value : string) : Res string :=
  let tmp_value := keycre_sub (strip_escaped value) in
  if has_percent tmp_value then Err ValueError else Ok value.

(** The [while rest:] loop of [BasicInterpolation._interpolate_some]; it
    consumes at least one character a turn, [n] bounds the turns, and
    [deeper] is the recursive call at [depth + 1]. *)
Fixpoint interpolate_loop (deeper : string -> Res string) (map : dict)
         (n : nat) (rest : string) : Res string :=
  match n with
  | O => Ok EmptyString
  | S n' =>
      match rest with
      | EmptyString => Ok EmptyString
      | String c r =>
          if Ascii.eqb c percent then
            match r with
            | String "%" r2 =>
                (out <- interpolate_loop deeper map n' r2 ;;
                 Ok (String percent out))%res
            | String "(" _ =>
                match keycre_match rest with
                | None => Err InterpolationSyntaxError
                | Some (var, rest') =>
                    match dict_get (lower var) map with
                    | None => Err InterpolationMissingOptionError
                    | Some v =>
                        (v' <- (if has_percent v then deeper v else Ok v) ;;
                         out <- interpolate_loop deeper map n' rest' ;;
                         Ok (v' +++ out))%res
                    end
                end
            | _ => Err InterpolationSyntaxError
            end
          else
            (out <- interpolate_loop deeper map n' r ;;
             Ok (String c out))%res
      end
  end.

(** [BasicInterpolation._interpolate_some]: [depth_left] is
    [MAX_INTERPOLATION_DEPTH + 1 - depth]. *)
Fixpoint interpolate_some (depth_left : nat) (map : dict) (rest : string)
  : Res string :=
  match depth_left with
  | O => Err InterpolationDepthError
  | S d =>
      interpolate_loop (interpolate_some d map) map
                       (S (String.length rest)) rest
  end.

(** [BasicInterpolation.before_get] *)
Definition before_get (map : dict) (value : string) : Res string :=
  interpolate_some MAX_INTERPOLATION_DEPTH map value.

(** The options a section sees, uninterpolated: the defaults updated with
    the section's own options. *)
Definition raw_items (p : t) (s : string) : Res dict :=
  match find_section s (sects p) with
  | Some d => Ok (dict_update (defaults p) d)
  | None =>
      if String.eqb s default_section then Ok (defaults p)
      else Err NoSectionError
  end.

Fixpoint interpolate_all (map : dict) (l : dict) : Res dict :=
  match l with
  | [] => Ok []
  | (o, v) :: r =>
      (v' <- before_get map v ;;
       r' <- interpolate_all map r ;;
       Ok ((o, v') :: r'))%res
  end.

(** [parser.items(s)] *)
Definition items (p : t) (s : string) : Res dict :=
  (d <- raw_items p s ;; interpolate_all d d)%res.

(** [parser.set(s, option, value)], for string options and values. *)
Definition set (p : t) (s option value : string) : Res t :=
  (value <- (if String.eqb value "" then Ok value else before_set value) ;;
   if String.eqb s "" || String.eqb s default_section
   then Ok (mk (dict_set (lower option) value (defaults p)) (sects p))
   else
     match find_section s (sects p) with
     | None => Err NoSectionError
     | Some _ =>
         Ok (mk (defaults p)
                (map (fun sd =>
                        if String.eqb s (fst sd)
                        then (fst sd, dict_set (lower option) value (snd sd))
                        else sd)
                     (sects p)))
     end)%res.

End ConfigParser.

Module CP := ConfigParser.

(** ** The outside world *)

(** A package object returned by the native yum handle; [str] is its string
    form. *)
Record Package : Type := { str : string }.

(** The object [yum.YumBase()] returns. *)
Inductive YumBase : Type := mkYumBase.

(** What [/etc/yum.repos.d/avocado-managed.repo] holds, as
    [ConfigParser.read] sees it: no readable file, a well-formed file, or a
    file the parser gives up on after having read [partial]. *)
Inductive FileContent : Type :=
| Missing
| Ini (c : CP.t)
| Malformed (partial : CP.t).

Record World : Type := mkWorld {
  now : nat;                        (* external calls made so far *)
  cmds : list string;               (* commands given to the process runner *)
  queries : list (list string);     (* [args] of the native handle's queries *)
  tmpdirs : list string;            (* directories made by [mkdtemp] *)
  tmpfiles : list (string * CP.t);  (* open temporary files and their content *)
  repo_file : FileContent
}.

(** The services the module consumes.  Every answer may depend on the moment
    of the call, counted in external calls. *)
Record Env : Type := mkEnv {
  exit_status : nat -> string -> Z;           (* the process runner *)
  os_fault : nat -> bool;                     (* does this OS call raise OSError *)
  tmp_name : nat -> string;                   (* name chosen by [tempfile] *)
  generate_random_string : nat -> nat -> string;
  HAS_YUM_MODULE : bool;
  searchPackageProvides : nat -> list string -> Res (list Package);
  check_installed : nat -> string -> bool;    (* base class *)
  rpm_install : nat -> string -> bool;        (* base class *)
  prepare_source : nat -> string -> string -> option string -> string;
  listdir : nat -> string -> list string;     (* file names [os.walk] reports *)
  environ_HOME : option string
}.

(** ** The backend object *)

Record YumBackend : Type := mkYumBackend {
  cmd : string;
  base_command : string;
  _cfgparser : option CP.t;
  _yum_base : option YumBase;
  transient_opts : string
}.

(** The state [__init__] leaves behind for the command [cmd] found at
    [tool] (the answer of [find_command]), [ostree] telling whether
    [/ostree] is a directory.  The attribute [pm_version], which no method
    below reads, is left out. *)
Definition initial_backend (cmd tool : string) (ostree : bool) : YumBackend :=
  {| cmd := cmd;
     base_command := tool +++ " -y ";
     _cfgparser := None;
     _yum_base := None;
     transient_opts := if ostree then "" +++ " --transient " else "" |}.

Definition REPO_FILE_PATH : string := "/etc/yum.repos.d/avocado-managed.repo".

Record State : Type := mkState { self : YumBackend; world : World }.

(** ** The monad of methods: state, exceptions and exhausted fuel *)

Inductive Outcome (A : Type) : Type :=
| Ret (a : A)
| Raise (e : exn)
| OutOfFuel.
Arguments Ret {A} a.
Arguments Raise {A} e.
Arguments OutOfFuel {A}.

Definition M (A : Type) : Type := State -> Outcome A * State.

Definition ret {A} (a : A) : M A := fun s => (Ret a, s).
Definition raise {A} (e : exn) : M A := fun s => (Raise e, s).
Definition out_of_fuel {A} : M A := fun s => (OutOfFuel, s).

Definition bind {A B} (m : M A) (k : A -> M B) : M B :=
  fun s =>
    match m s with
    | (Ret a, s') => k a s'
    | (Raise e, s') => (Raise e, s')
    | (OutOfFuel, s') => (OutOfFuel, s')
    end.

Declare Scope m_scope.
Delimit Scope m_scope with M.
Notation "x <- m ;; k" := (bind m (fun x => k))
  (at level 100, m at next level, right associativity) : m_scope.
Notation "m ;;; k" := (bind m (fun _ => k))
  (at level 100, right associativity) : m_scope.
Open Scope m_scope.

Definition lift {A} (r : Res A) : M A :=
  match r with Ok a => ret a | Err e => raise e end.

(** [try: m except <classes>: h], [catches] deciding the classes. *)
Definition try_except {A} (m : M A) (catches : exn -> bool) (h : exn -> M A)
  : M A :=
  fun s =>
    match m s with
    | (Raise e, s') => if catches e then h e s' else (Raise e, s')
    | r => r
    end.

(** [try: m finally: f] *)
Definition try_finally {A} (m : M A) (f : M unit) : M A :=
  fun s =>
    match m s with
    | (OutOfFuel, s') => (OutOfFuel, s')
    | (r, s') =>
        match f s' with
        | (Ret _, s'') => (r, s'')
        | (Raise e, s'') => (Raise e, s'')
        | (OutOfFuel, s'') => (OutOfFuel, s'')
        end
    end.

Definition get_world : M World := fun s => (Ret (world s), s).
Definition get_self : M YumBackend := fun s => (Ret (self s), s).
Definition put_self (b : YumBackend) : M unit :=
  fun s => (Ret tt, mkState b (world s)).

Definition tick (w : World) : World :=
  mkWorld (S (now w)) (cmds w) (queries w) (tmpdirs w) (tmpfiles w) (repo_file w).

(** [f"cp {tmp} {REPO_FILE_PATH}"] *)
Definition copy_command (tmp : string) : string :=
  "cp " +++ tmp +++ " " +++ REPO_FILE_PATH.

Section Methods.

Variable env : Env.

(** *** External calls *)

(** [process.system(command)] and [process.run(command)]: the command is
    run, a nonzero exit status raises [CmdError].  The command is taken to
    be one the system can execute: the [OSError] of an executable that
    cannot be run is not part of this runner. *)
Definition process_system (command : string) : M Z :=
  fun s =>
    let w := world s in
    let status := exit_status env (now w) command in
    let w' := mkWorld (S (now w)) (cmds w ++ [command]) (queries w)
                      (tmpdirs w) (tmpfiles w) (repo_file w) in
    (if Z.eqb status 0 then Ret status else Raise CmdError,
     mkState (self s) w').

(** An OS-level call: it fails with [OSError] when the environment says so,
    and otherwise changes the world by [effect]. *)
Definition os_call {A} (effect : World -> A * World) : M A :=
  fun s =>
    let w := world s in
    if os_fault env (now w) then (Raise OSError, mkState (self s) (tick w))
    else let (a, w') := effect w in (Ret a, mkState (self s) (tick w')).

(** [tempfile.NamedTemporaryFile("w", prefix=...)] *)
Definition NamedTemporaryFile : M string :=
  os_call (fun w =>
    let name := tmp_name env (now w) in
    (name, mkWorld (now w) (cmds w) (queries w) (tmpdirs w)
                   ((name, CP.empty) :: tmpfiles w) (repo_file w))).

(** [parser.write(tmp_file)] followed by [tmp_file.flush()] is two calls. *)
Definition file_write (name : string) (content : CP.t) : M unit :=
  os_call (fun w =>
    (tt, mkWorld (now w) (cmds w) (queries w) (tmpdirs w)
                 (map (fun f => if String.eqb name (fst f)
                                then (fst f, content) else f) (tmpfiles w))
                 (repo_file w))).

Definition file_flush (name : string) : M unit :=
  os_call (fun w => (tt, w)).

(** Leaving the [with] block closes the temporary file, which deletes it. *)
Definition file_close (name : string) : M unit :=
  os_call (fun w =>
    (tt, mkWorld (now w) (cmds w) (queries w) (tmpdirs w)
                 (filter (fun f => negb (String.eqb name (fst f))) (tmpfiles w))
                 (repo_file w))).

Definition with_NamedTemporaryFile {A} (body : string -> M A) : M A :=
  tmp_file <- NamedTemporaryFile ;;
  try_finally (body tmp_file) (file_close tmp_file).

Fixpoint find_file (name : string) (l : list (string * CP.t)) : option CP.t :=
  match l with
  | [] => None
  | (n, c) :: r => if String.eqb name n then Some c else find_file name r
  end.

(** [process.system(f"cp {tmp} {REPO_FILE_PATH}", sudo=True)]: when the
    copy exits with status zero the repository file has the content of the
    temporary file. *)
Definition copy_to_repo_file (tmp : string) : M unit :=
  process_system (copy_command tmp) ;;;
  fun s =>
    let w := world s in
    let content :=
      match find_file tmp (tmpfiles w) with
      | Some c => Ini c
      | None => repo_file w
      end in
    (Ret tt, mkState (self s)
               (mkWorld (now w) (cmds w) (queries w) (tmpdirs w)
                        (tmpfiles w) content)).

(** [tempfile.mkdtemp(prefix=...)] *)
Definition mkdtemp : M string :=
  os_call (fun w =>
    let name := tmp_name env (now w) in
    (name, mkWorld (now w) (cmds w) (queries w) (name :: tmpdirs w)
                   (tmpfiles w) (repo_file w))).

Definition is_dir (path : string) (w : World) : bool :=
  existsb (String.eqb path) (tmpdirs w).

(** [shutil.rmtree(path)] *)
Definition rmtree (path : string) : M unit :=
  fun s =>
    if is_dir path (world s) then
      os_call (fun w =>
        (tt, mkWorld (now w) (cmds w) (queries w)
                     (filter (fun d => negb (String.eqb path d)) (tmpdirs w))
                     (tmpfiles w) (repo_file w))) s
    else (Raise OSError, mkState (self s) (tick (world s))).

(** [next(os.walk(path))[2]] *)
Definition walk_files (path : string) : M (list string) :=
  fun s =>
    let w := world s in
    (if is_dir path w then Ret (listdir env (now w) path)
     else Raise StopIteration,
     mkState (self s) (tick w)).

(** [os.environ["HOME"]] *)
Definition environ_home : M string :=
  match environ_HOME env with
  | Some h => ret h
  | None => raise KeyError
  end.

(** [data_factory.generate_random_string(length)] *)
Definition random_string (length : nat) : M string :=
  fun s =>
    let w := world s in
    (Ret (generate_random_string env (now w) length),
     mkState (self s) (tick w)).

(** [self.yum_base.searchPackageProvides(args=args)] *)
Definition search_provides (args : list string) : M (list Package) :=
  fun s =>
    let w := world s in
    let w' := mkWorld (S (now w)) (cmds w) (queries w ++ [args])
                      (tmpdirs w) (tmpfiles w) (repo_file w) in
    (match searchPackageProvides env (now w) args with
     | Ok l => Ret l
     | Err e => Raise e
     end, mkState (self s) w').

(** The helpers inherited from the base class, which is not part of the
    sources: they are answers of the environment. *)
Definition self_check_installed (name : string) : M bool :=
  fun s =>
    let w := world s in
    (Ret (check_installed env (now w) name), mkState (self s) (tick w)).

Definition self_rpm_install (path : string) : M bool :=
  fun s =>
    let w := world s in
    (Ret (rpm_install env (now w) path), mkState (self s) (tick w)).

Definition self_prepare_source (spec_path dest_path : string)
           (build_option : option string) : M string :=
  fun s =>
    let w := world s in
    (Ret (prepare_source env (now w) spec_path dest_path build_option),
     mkState (self s) (tick w)).

(** *** Properties of the object *)

Definition set_cfgparser (p : CP.t) : M unit :=
  fun s =>
    let b := self s in
    (Ret tt,
     mkState (mkYumBackend (cmd b) (base_command b) (Some p) (_yum_base b)
                           (transient_opts b))
             (world s)).

(** [ConfigParser.read(REPO_FILE_PATH)] on a new parser. *)
Definition read_repo_file (f : FileContent) : CP.t * option exn :=
  match f with
  | Missing => (CP.empty, None)
  | Ini c => (c, None)
  | Malformed partial => (partial, Some ParsingError)
  end.

Definition repo_config_parser : M CP.t :=
  b <- get_self ;;
  match _cfgparser b with
  | Some p => ret p
  | None =>
      w <- get_world ;;
      let (p, error) := read_repo_file (repo_file w) in
      set_cfgparser p ;;;
      match error with
      | Some e => raise e
      | None => ret p
      end
  end.

Definition yum_base : M (option YumBase) :=
  b <- get_self ;;
  match _yum_base b with
  | Some h => ret (Some h)
  | None =>
      if HAS_YUM_MODULE env then
        put_self (mkYumBackend (cmd b) (base_command b) (_cfgparser b)
                               (Some mkYumBase) (transient_opts b)) ;;;
        ret (Some mkYumBase)
      else ret None
  end.

(** *** Command-backed operations *)

(** Modelled from the spec: [_run_cmd] is a method of the base class
    [RpmBackend], whose module is not part of the sources.  The command is
    handed to the process runner; the runner's [CmdError] on a nonzero exit
    is turned into the failure value [False] (sections 7 and 8 of the
    specification, and [get_source], which tests [not self.install(pkg)]
    outside of any handler for [CmdError]). *)
Definition _run_cmd (command : string) : M bool :=
  try_except (process_system command ;;; ret true)
             (fun e => match e with CmdError => true | _ => false end)
             (fun _ => ret false).

Definition install_command (b : YumBackend) (name : string) : string :=
  base_command b +++ "install" +++ " " +++ name +++ transient_opts b.

Definition install (name : string) : M bool :=
  b <- get_self ;;
  let i_cmd := install_command b name in
  _run_cmd i_cmd.

Definition remove_command (b : YumBackend) (name : string) : string :=
  base_command b +++ "erase" +++ " " +++ name +++ transient_opts b.

Definition remove (name : string) : M bool :=
  b <- get_self ;;
  let r_cmd := remove_command b name in
  _run_cmd r_cmd.

(** [not name] for an optional string *)
Definition not_name (name : option string) : bool :=
  match name with
  | None => true
  | Some n => String.eqb n ""
  end.

Definition upgrade_command (b : YumBackend) (name : option string) : string :=
  if not_name name then base_command b +++ "update" +++ transient_opts b
  else
    match name with
    | Some n => base_command b +++ "update" +++ " " +++ n +++ transient_opts b
    | None => base_command b +++ "update" +++ transient_opts b
    end.

Definition upgrade (name : option string) : M bool :=
  b <- get_self ;;
  let r_cmd := upgrade_command b name in
  _run_cmd r_cmd.

(** *** Repository management *)

(** [option == "baseurl" and value == url] for some item *)
Definition matches_url (url : string) (its : dict) : bool :=
  existsb (fun ov => String.eqb (fst ov) "baseurl" && String.eqb (snd ov) url)
          its.

(** The search for a section that already has the URL; [true] stands for
    the [return True] inside the loops. *)
Fixpoint scan_sections (url : string) (secs : list string) : M bool :=
  match secs with
  | [] => ret false
  | section :: rest =>
      p <- repo_config_parser ;;
      its <- lift (CP.items p section) ;;
      if matches_url url its then ret true else scan_sections url rest
  end.

(** The [while True] loop that draws section names. *)
Fixpoint new_section_name (fuel : nat) : M string :=
  match fuel with
  | O => out_of_fuel
  | S fuel' =>
      r <- random_string 4 ;;
      let section_name := "software_manager" +++ "_" +++ r in
      p <- repo_config_parser ;;
      if negb (CP.has_section p section_name) then ret section_name
      else new_section_name fuel'
  end.

Definition parser_add_section (section : string) : M unit :=
  p <- repo_config_parser ;;
  p' <- lift (CP.add_section p section) ;;
  set_cfgparser p'.

Definition parser_set (section option value : string) : M unit :=
  p <- repo_config_parser ;;
  p' <- lift (CP.set p section option value) ;;
  set_cfgparser p'.

Definition parser_remove_section (section : string) : M bool :=
  p <- repo_config_parser ;;
  let (existed, p') := CP.remove_section p section in
  set_cfgparser p' ;;;
  ret existed.

Fixpoint set_options (section : string) (options : dict) : M unit :=
  match options with
  | [] => ret tt
  | (opt_key, opt_value) :: rest =>
      parser_set section opt_key opt_value ;;;
      set_options section rest
  end.

(** [parser.write(tmp_file, ...)], [tmp_file.flush()] and the privileged
    copy. *)
Definition write_and_copy (tmp_file : string) : M unit :=
  p <- repo_config_parser ;;
  file_write tmp_file p ;;;
  file_flush tmp_file ;;;
  copy_to_repo_file tmp_file.

Definition add_repo (fuel : nat) (url : string) (opt_params : dict) : M bool :=
  let repo_options :=
    dict_update [("enabled", "1"); ("gpgcheck", "0")] opt_params in
  p <- repo_config_parser ;;
  found <- scan_sections url (CP.sections p) ;;
  if found then ret true
  else
    section_name <- new_section_name fuel ;;
    try_except
      (parser_add_section section_name ;;;
       parser_set section_name "name" "Avocado managed repository" ;;;
       parser_set section_name "baseurl" url ;;;
       set_options section_name repo_options ;;;
       with_NamedTemporaryFile write_and_copy ;;;
       ret true)
      is_OSError_or_CmdError
      (fun _ => ret false).

Fixpoint remove_if_match (url section : string) (its : dict) : M unit :=
  match its with
  | [] => ret tt
  | (option, value) :: rest =>
      (if String.eqb option "baseurl" && String.eqb value url
       then parser_remove_section section ;;; ret tt
       else ret tt) ;;;
      remove_if_match url section rest
  end.

Fixpoint remove_sections (url : string) (secs : list string) : M unit :=
  match secs with
  | [] => ret tt
  | section :: rest =>
      p <- repo_config_parser ;;
      its <- lift (CP.items p section) ;;
      remove_if_match url section its ;;;
      remove_sections url rest
  end.

Definition remove_repo (url : string) : M bool :=
  try_except
    (with_NamedTemporaryFile (fun tmp_file =>
       p <- repo_config_parser ;;
       remove_sections url (CP.sections p) ;;;
       write_and_copy tmp_file ;;;
       ret true))
    is_OSError_or_CmdError
    (fun _ => ret false).

(** *** Capability lookup *)

Definition provides (name : string) : M (option string) :=
  h <- yum_base ;;
  match h with
  | None => ret None
  | Some _ =>
      d_provides <-
        try_except (yum_base ;;; search_provides ["*/" +++ name])
                   is_Exception
                   (fun _ => ret []) ;;
      match d_provides with
      | first :: _ => ret (Some (str first))
      | [] => ret None
      end
  end.

(** *** Source package retrieval *)

(** [build_dep(name)], with [run] for [process.system]. *)
Definition build_dep_with (run : string -> M Z) (name : string) : M bool :=
  try_except
    (run ("yum-builddep -y --tolerant " +++ name) ;;; ret true)
    (fun e => match e with CmdError => true | _ => false end)
    (fun _ => ret false).

Definition build_dep (name : string) : M bool :=
  build_dep_with process_system name.

(** The loop over the helper packages; [false] stands for the
    [return ""] inside it. *)
Fixpoint install_helpers (pkgs : list string) : M bool :=
  match pkgs with
  | [] => ret true
  | pkg :: rest =>
      present <- self_check_installed pkg ;;
      if present then install_helpers rest
      else
        installed <- install pkg ;;
        if installed then install_helpers rest else ret false
  end.

Definition get_source (name : string) (dest_path build_option : option string)
  : M string :=
  path <- mkdtemp ;;
  try_finally
    (match dest_path with
     | None => ret ""
     | Some dest =>
         ready <- install_helpers ["rpm-build"; "yum-utils"] ;;
         if negb ready then ret ""
         else
           try_except
             (process_system
                ("yumdownloader --assumeyes --verbose " +++
                 "--source " +++ name +++ " --destdir " +++ path) ;;;
              files <- walk_files path ;;
              let src_rpms := filter (endswith ".src.rpm") files in
              if negb (Nat.eqb (List.length src_rpms) 1) then
                walk_files path ;;; ret ""
              else
                installed <-
                  self_rpm_install (path_join path (last src_rpms "")) ;;
                if installed then
                  home <- environ_home ;;
                  let spec_path :=
                    path_join (path_join (path_join home "rpmbuild") "SPECS")
                              (name +++ ".spec") in
                  deps <- build_dep spec_path ;;
                  if deps
                  then self_prepare_source spec_path dest build_option
                  else ret ""
                else ret "")
             (fun e => match e with CmdError => true | _ => false end)
             (fun _ => ret "")
     end)
    (rmtree path).

End Methods.

(** ** Notions used in the statements *)

(** The repository configuration the object works on: its parser when it has
    one, and otherwise what reading the file will give. *)
Definition config_of (s : State) : option CP.t :=
  match _cfgparser (self s) with
  | Some p => Some p
  | None =>
      match repo_file (world s) with
      | Missing => Some CP.empty
      | Ini c => Some c
      | Malformed _ => None
      end
  end.

(** What [__init__] establishes about the command line. *)
Definition initialised (tool : string) (ostree : bool) (b : YumBackend) : Prop :=
  base_command b = tool +++ " -y "
  /\ transient_opts b = (if ostree then " --transient " else "").

(** The template [<tool> -y <verb> <name> [<transient-flag>]]: the four words
    separated by one space, then the flag when there is one. *)
Definition command_template (tool verb name : string) (ostree : bool) : string :=
  String.concat " " [tool; "-y"; verb; name]
  +++ (if ostree then " --transient " else "").

(** No stored value holds a percent sign, so that interpolation has nothing
    to do. *)
Definition percent_free_dict (d : dict) : bool :=
  forallb (fun ov => negb (has_percent (snd ov))) d.

Definition percent_free (p : CP.t) : bool :=
  percent_free_dict (CP.defaults p)
  && forallb (fun sd => percent_free_dict (snd sd)) (CP.sects p).

(** Section [s] references [url]: its option [baseurl], as stored (its own or
    the default one), is [url]. *)
Definition references (p : CP.t) (url s : string) : bool :=
  match CP.raw_items p s with
  | Ok d => matches_url url d
  | Err _ => false
  end.

Definition referencing (p : CP.t) (url : string) : list string :=
  filter (references p url) (CP.sections p).

(** The section name drawn at moment [t]. *)
Definition candidate (env : Env) (t : nat) : string :=
  "software_manager" +++ "_" +++ generate_random_string env t 4.

(** Number of names the name loop rejects from moment [t] on before it
    draws one that is no section of [p], within [fuel] draws. *)
Fixpoint rejected (env : Env) (p : CP.t) (t fuel : nat) : option nat :=
  match fuel with
  | O => None
  | S fuel' =>
      if negb (CP.has_section p (candidate env t)) then Some 0
      else option_map S (rejected env p (S t) fuel')
  end.

(** The world [k] external calls later, nothing else having changed. *)
Definition advance (k : nat) (w : World) : World :=
  mkWorld (k + now w) (cmds w) (queries w) (tmpdirs w) (tmpfiles w)
          (repo_file w).

(** The five external calls that write the configuration from moment [t] on
    all succeed: creating the temporary file, writing, flushing, the copy,
    closing. *)
Definition write_succeeds (env : Env) (t : nat) : bool :=
  negb (os_fault env t)
  && negb (os_fault env (1 + t))
  && negb (os_fault env (2 + t))
  && Z.eqb (exit_status env (3 + t) (copy_command (tmp_name env t))) 0
  && negb (os_fault env (4 + t)).

(** The world after the configuration [p] has been written and copied into
    place, starting at moment [now w]. *)
Definition written (env : Env) (p : CP.t) (w : World) : World :=
  let tmp := tmp_name env (now w) in
  mkWorld (5 + now w) (cmds w ++ [copy_command tmp]) (queries w) (tmpdirs w)
          (filter (fun f => negb (String.eqb tmp (fst f))) (tmpfiles w))
          (Ini p).

(** The object [b] holding the parser [p], in the world [w]. *)
Definition st_of (b : YumBackend) (p : CP.t) (w : World) : State :=
  mkState (mkYumBackend (cmd b) (base_command b) (Some p) (_yum_base b)
                        (transient_opts b))
          w.

(** [p] without the sections whose name satisfies [f]. *)
Definition prune (f : string -> bool) (p : CP.t) : CP.t :=
  CP.mk (CP.defaults p) (filter (fun sd => negb (f (fst sd))) (CP.sects p)).

(** [p] with one more section, at the end. *)
Definition with_section (p : CP.t) (name : string) (d : dict) : CP.t :=
  CP.mk (CP.defaults p) (CP.sects p ++ [(name, d)]).

(** The options [add_repo] gives to the section it creates. *)
Definition new_section_options (url : string) (opt_params : dict) : dict :=
  fold_left (fun d ov => dict_set (lower (fst ov)) (snd ov) d)
            (dict_update [("enabled", "1"); ("gpgcheck", "0")] opt_params)
            [("name", "Avocado managed repository"); ("baseurl", url)].

(** No caller option is spelled [baseurl], in any case. *)
Definition keeps_baseurl (opt_params : dict) : bool :=
  forallb (fun ov => negb (String.eqb (lower (fst ov)) "baseurl")) opt_params.

(** What [scan_sections] computes on the parser [p]: whether a section among
    [secs] has the item [baseurl = url], or the error met on the way. *)
Fixpoint scan (p : CP.t) (url : string) (secs : list string) : Res bool :=
  match secs with
  | [] => Ok false
  | section :: rest =>
      match CP.items p section with
      | Err e => Err e
      | Ok its => if matches_url url its then Ok true else scan p url rest
      end
  end.

(** No name occurs twice, as with the keys of a Python dict. *)
Fixpoint distinct (l : list string) : bool :=
  match l with
  | [] => true
  | x :: r => negb (existsb (String.eqb x) r) && distinct r
  end.

(** The object holds a parser whose sections are [l], in this order. *)
Definition sections_are (l : list string) (s : State) : Prop :=
  exists p, _cfgparser (self s) = Some p /\ CP.sections p = l.

(** The computation [m] leaves the list of sections [l] as it is, whatever
    its outcome. *)
Definition keeps (l : list string) {A} (m : M A) : Prop :=
  forall s, sections_are l s -> sections_are l (snd (m s)).

(** Section [s] can be read and none of its items is [baseurl = url]. *)
Definition unmatched (p : CP.t) (url s : string) : Prop :=
  exists its, CP.items p s = Ok its /\ matches_url url its = false.

(** The state after [command] has been given to the process runner. *)
Definition after_command (command : string) (s : State) : State :=
  let w := world s in
  mkState (self s)
          (mkWorld (S (now w)) (cmds w ++ [command]) (queries w) (tmpdirs w)
                   (tmpfiles w) (repo_file w)).

(** The state after a query of the native handle with [args]. *)
Definition after_query (args : list string) (s : State) : State :=
  let w := world s in
  mkState (self s)
          (mkWorld (S (now w)) (cmds w) (queries w ++ [args]) (tmpdirs w)
                   (tmpfiles w) (repo_file w)).

(** *** Sample environments and states *)

Definition sample_names : list string := ["k3Fq"; "Zx09"; "mm4T"].

(** Every command exits with [status]; no OS call fails. *)
Definition sample_env (status : Z) (has_yum : bool) : Env :=
  {| exit_status := fun _ _ => status;
     os_fault := fun _ => false;
     tmp_name := fun t => "/tmp/avocado_software_manager" +++ nth t sample_names "w8";
     generate_random_string := fun t _ => nth t sample_names "w8Lp";
     HAS_YUM_MODULE := has_yum;
     searchPackageProvides := fun _ args =>
       match args with
       | ["*/bash"] => Ok [{| str := "bash-5.1.8-6.el9.x86_64" |}]
       | ["*/boom"] => Err StopIteration
       | _ => Ok []
       end;
     check_installed := fun _ _ => true;
     rpm_install := fun _ _ => true;
     prepare_source := fun _ _ dest _ => dest;
     listdir := fun _ _ => [];
     environ_HOME := Some "/root" |}.

(** As [sample_env 0 false], except that the OS call at moment [t] fails. *)
Definition faulty_env (t : nat) : Env :=
  {| exit_status := fun _ _ => 0%Z;
     os_fault := Nat.eqb t;
     tmp_name := tmp_name (sample_env 0 false);
     generate_random_string := generate_random_string (sample_env 0 false);
     HAS_YUM_MODULE := false;
     searchPackageProvides := searchPackageProvides (sample_env 0 false);
     check_installed := fun _ _ => true;
     rpm_install := fun _ _ => true;
     prepare_source := fun _ _ dest _ => dest;
     listdir := fun _ _ => [];
     environ_HOME := Some "/root" |}.

Definition sample_world (f : FileContent) : World :=
  mkWorld 0 [] [] [] [] f.

Definition sample_state (f : FileContent) : State :=
  mkState (initial_backend "yum" "/usr/bin/yum" false) (sample_world f).

(** An environment in which the download leaves one source package and a
    text file; the command of moment [failing] exits with status 1. *)
Definition source_env (failing : nat) (home : option string) : Env :=
  {| exit_status := fun t _ => if Nat.eqb t failing then 1%Z else 0%Z;
     os_fault := fun _ => false;
     tmp_name := tmp_name (sample_env 0 false);
     generate_random_string := generate_random_string (sample_env 0 false);
     HAS_YUM_MODULE := false;
     searchPackageProvides := searchPackageProvides (sample_env 0 false);
     check_installed := fun _ _ => true;
     rpm_install := fun _ _ => true;
     prepare_source := fun _ spec dest _ => dest +++ "/" +++ spec;
     listdir := fun _ _ => ["vim-9.0-1.src.rpm"; "repodata.txt"];
     environ_HOME := home |}.

(** A repository file with one section, for [http://mirror/os]. *)
Definition one_repo : CP.t :=
  CP.mk [] [("base", [("name", "Base"); ("baseurl", "http://mirror/os")])].

(** ** The remaining methods *)

(** [YumBackend._cleanup()]: [process.system("yum clean all", sudo=True)] *)
Definition _cleanup (env : Env) : M Z :=
  process_system env "yum clean all".

(** The commands of [get_source] and [build_dep], and the spec file that
    [get_source] looks for under [home]. *)
Definition downloader_command (name path : string) : string :=
  "yumdownloader --assumeyes --verbose " +++
  "--source " +++ name +++ " --destdir " +++ path.

Definition builddep_command (name : string) : string :=
  "yum-builddep -y --tolerant " +++ name.

Definition spec_path_of (home name : string) : string :=
  path_join (path_join (path_join home "rpmbuild") "SPECS") (name +++ ".spec").

(** *** Construction and the version probe *)

(** The exceptions that can leave [__init__]: [CmdNotFoundError] from
    [find_command], [IndexError] from [splitlines()[0]], and whatever else
    the constructor of the base class raises. *)
Inductive init_exn : Type :=
| CmdNotFoundError
| IndexError
| BaseError (e : exn).

(** [c.isdigit()], [c.isspace()] and the line boundaries of
    [str.splitlines], for ASCII characters. *)
Definition is_digit (c : ascii) : bool :=
  let n := nat_of_ascii c in (48 <=? n)%nat && (n <=? 57)%nat.

Definition is_space (c : ascii) : bool :=
  let n := nat_of_ascii c in
  (9 <=? n)%nat && (n <=? 13)%nat || (28 <=? n)%nat && (n <=? 32)%nat.

Definition is_linebreak (c : ascii) : bool :=
  let n := nat_of_ascii c in
  (10 <=? n)%nat && (n <=? 13)%nat || (28 <=? n)%nat && (n <=? 30)%nat.

Definition newline : ascii := "010"%char.

(** The text before the first line boundary. *)
Fixpoint first_line_of (s : string) : string :=
  match s with
  | EmptyString => EmptyString
  | String c r => if is_linebreak c then EmptyString else String c (first_line_of r)
  end.

(** [s.splitlines()[0]]: [None] stands for the [IndexError] on an empty
    list. *)
Definition splitlines_first (s : string) : option string :=
  match s with
  | EmptyString => None
  | String _ _ => Some (first_line_of s)
  end.

Fixpoint lstrip (s : string) : string :=
  match s with
  | EmptyString => EmptyString
  | String c r => if is_space c then lstrip r else s
  end.

Fixpoint rstrip (s : string) : string :=
  match s with
  | EmptyString => EmptyString
  | String c r =>
      match rstrip r with
      | EmptyString => if is_space c then EmptyString else String c EmptyString
      | r' => String c r'
      end
  end.

(** [s.strip()] *)
Definition strip (s : string) : string := rstrip (lstrip s).

(** The ways [\d*] can match at the head of [s], in the order a
    backtracking matcher tries them, longest first: what is matched and
    what is left. *)
Fixpoint digit_splits (s : string) : list (string * string) :=
  match s with
  | EmptyString => [(EmptyString, EmptyString)]
  | String c r =>
      if is_digit c
      then map (fun dr => (String c (fst dr), snd dr)) (digit_splits r)
           ++ [(EmptyString, s)]
      else [(EmptyString, s)]
  end.

Fixpoint first_some {A B} (f : A -> option B) (l : list A) : option B :=
  match l with
  | [] => None
  | x :: r => match f x with Some y => Some y | None => first_some f r end
  end.

(** [.] of a regular expression: one character that is no newline. *)
Definition any_char (s : string) : option (ascii * string) :=
  match s with
  | String c r => if Ascii.eqb c newline then None else Some (c, r)
  | EmptyString => None
  end.

(** [re.match(r"\d*.\d*.\d*", s)]: the text matched at the start of [s]. *)
Definition match_version (s : string) : option string :=
  first_some
    (fun dr1 =>
       match any_char (snd dr1) with
       | None => None
       | Some (c1, r2) =>
           first_some
             (fun dr2 =>
                match any_char (snd dr2) with
                | None => None
                | Some (c2, r4) =>
                    let d3 := fst (hd (EmptyString, r4) (digit_splits r4)) in
                    Some (fst dr1 +++ String c1 (fst dr2 +++ String c2 d3))
                end)
             (digit_splits r2)
       end)
    (digit_splits s).

(** [re.findall(r"\d*.\d*.\d*", s)[0]]: the first match, looked for from
    every position in turn; [None] stands for the [IndexError]. *)
Fixpoint findall_first (s : string) : option string :=
  match match_version s with
  | Some m => Some m
  | None =>
      match s with
      | EmptyString => None
      | String _ r => findall_first r
      end
  end.

(** What [_set_version] stores in [pm_version], from the output of
    [<base_command>--version]. *)
Definition set_version (stdout_text : string) : init_exn + string :=
  match splitlines_first stdout_text with
  | None => inl IndexError
  | Some line =>
      let first_line := strip line in
      match findall_first first_line with
      | Some ver => inr ver
      | None => inr first_line
      end
  end.

(** [YumBackend.__init__(cmd)].  [super_init] is [super().__init__()], the
    constructor of the base class [RpmBackend], whose module is not part of
    the sources: it is taken as a parameter, a call that changes the world
    and returns or raises.  [find_command] is [utils_path.find_command],
    [stdout_text] the output of a command run at a moment, [ostree] whether
    [/ostree] is a directory.  The result is the object and its
    [pm_version]; the exit status of the probe is ignored. *)
Definition YumBackend_init (super_init : World -> (init_exn + unit) * World)
           (find_command : string -> option string)
           (stdout_text : nat -> string -> string) (ostree : bool)
           (cmd : string) (w : World)
  : (init_exn + YumBackend * string) * World :=
  match super_init w with
  | (inl e, w0) => (inl e, w0)
  | (inr _, w0) =>
      match find_command cmd with
      | None => (inl CmdNotFoundError, w0)
      | Some tool =>
          let base_command := tool +++ " -y " in
          let command := base_command +++ "--version" in
          let w' := mkWorld (S (now w0)) (cmds w0 ++ [command]) (queries w0)
                            (tmpdirs w0) (tmpfiles w0) (repo_file w0) in
          match set_version (stdout_text (now w0) command) with
          | inl e => (inl e, w')
          | inr ver =>
              (inr (mkYumBackend cmd base_command None None
                                 (if ostree then "" +++ " --transient " else ""),
                    ver),
               w')
          end
      end
  end.

Fixpoint all_digits (s : string) : bool :=
  match s with
  | EmptyString => true
  | String c r => is_digit c && all_digits r
  end.

(** The characters of a dotted number. *)
Fixpoint numeric (s : string) : bool :=
  match s with
  | EmptyString => true
  | String c r => (is_digit c || Ascii.eqb c ".") && numeric r
  end.

(** A string that does not go on with a digit. *)
Definition stops_digits (r : string) : bool :=
  match r with
  | EmptyString => true
  | String c _ => negb (is_digit c)
  end.

(** No character of [s] is a newline. *)
Fixpoint no_newline (s : string) : bool :=
  match s with
  | EmptyString => true
  | String c r => negb (Ascii.eqb c newline) && no_newline r
  end.

(** [Q] holds after [m] whenever it holds before, whatever the outcome. *)
Definition invariant (Q : State -> Prop) {A} (m : M A) : Prop :=
  forall s, Q s -> Q (snd (m s)).

(** The calls up to and including the copy succeed from moment [t] on:
    creating the temporary file, writing, flushing, the copy. *)
Definition copied (env : Env) (t : nat) : bool :=
  negb (os_fault env t)
  && negb (os_fault env (1 + t))
  && negb (os_fault env (2 + t))
  && Z.eqb (exit_status env (3 + t) (copy_command (tmp_name env t))) 0.

(** The object holds [p] followed by one section called [name]. *)
Definition extended (p : CP.t) (name : string) (s : State) : Prop :=
  exists d, _cfgparser (self s) = Some (with_section p name d).

(** The value of the last entry of [l] whose key, in lower case, is
    [key]. *)
Fixpoint last_lower (key : string) (l : dict) : option string :=
  match l with
  | [] => None
  | ov :: r =>
      match last_lower key r with
      | Some v => Some v
      | None => if String.eqb (lower (fst ov)) key then Some (snd ov) else None
      end
  end.

(** The option names of [l] in lower case. *)
Definition lower_keys (l : dict) : list string :=
  map (fun ov => lower (fst ov)) l.

(** The computation [m] neither ends for lack of fuel nor creates or
    removes a temporary directory. *)
Definition keeps_dirs {A} (m : M A) : Prop :=
  forall s,
    fst (m s) <> OutOfFuel
    /\ tmpdirs (world (snd (m s))) = tmpdirs (world s).

(** * Properties *)

(** Closed statements are settled by evaluation. *)
Ltac closed :=
  intros; repeat match goal with |- _ /\ _ => split end;
  vm_compute; reflexivity.


Example interp_plain :
  CP.before_get [] "http://host/repo" = Ok "http://host/repo".
Proof. reflexivity. Qed.

Example interp_escaped : CP.before_get [] "a%%b" = Ok "a%b".
Proof. reflexivity. Qed.

Example interp_reference :
  CP.before_get [("name", "x y")] "u/%(NAME)s/v" = Ok "u/x y/v".
Proof. reflexivity. Qed.

Example interp_bad : CP.before_get [] "a%20b" = Err InterpolationSyntaxError.
Proof. reflexivity. Qed.

Example set_bad :
  CP.set (CP.mk [] [("s", [])]) "s" "baseurl" "http://h/a%20b" = Err ValueError.
Proof. reflexivity. Qed.

Example set_escaped :
  CP.set (CP.mk [] [("s", [])]) "s" "BaseURL" "a%%b"
  = Ok (CP.mk [] [("s", [("baseurl", "a%%b")])]).
Proof. reflexivity. Qed.


(** ** Strings *)

Lemma append_assoc (a b c : string) : a +++ b +++ c = a +++ (b +++ c).
Proof.
  induction a as [|x a IH]; simpl.
  - reflexivity.
  - now rewrite IH.
Qed.

Lemma append_nil_r (a : string) : a +++ "" = a.
Proof.
  induction a as [|x a IH]; simpl; [reflexivity | now rewrite IH].
Qed.

(** ** Command-backed operations *)

Section CommandOperations.

Variable env : Env.

Lemma run_cmd_outcome (command : string) (s : State) :
  _run_cmd env command s
  = (Ret (Z.eqb (exit_status env (now (world s)) command) 0),
     after_command command s).
Proof.
  unfold _run_cmd, try_except, bind, process_system, ret, after_command.
  destruct (Z.eqb (exit_status env (now (world s)) command) 0); reflexivity.
Qed.

Lemma install_outcome (name : string) (s : State) :
  install env name s
  = (Ret (Z.eqb (exit_status env (now (world s))
                             (install_command (self s) name)) 0),
     after_command (install_command (self s) name) s).
Proof.
  unfold install, bind, get_self. now rewrite run_cmd_outcome.
Qed.

Lemma remove_outcome (name : string) (s : State) :
  remove env name s
  = (Ret (Z.eqb (exit_status env (now (world s))
                             (remove_command (self s) name)) 0),
     after_command (remove_command (self s) name) s).
Proof.
  unfold remove, bind, get_self. now rewrite run_cmd_outcome.
Qed.

Lemma upgrade_outcome (name : option string) (s : State) :
  upgrade env name s
  = (Ret (Z.eqb (exit_status env (now (world s))
                             (upgrade_command (self s) name)) 0),
     after_command (upgrade_command (self s) name) s).
Proof.
  unfold upgrade, bind, get_self. now rewrite run_cmd_outcome.
Qed.

Lemma install_command_template tool ostree b name :
  initialised tool ostree b ->
  install_command b name = command_template tool "install" name ostree.
Proof.
  intros [Hb Ht]. unfold install_command, command_template.
  rewrite Hb, Ht. simpl String.concat.
  now rewrite !append_assoc.
Qed.

Lemma remove_command_template tool ostree b name :
  initialised tool ostree b ->
  remove_command b name = command_template tool "erase" name ostree.
Proof.
  intros [Hb Ht]. unfold remove_command, command_template.
  rewrite Hb, Ht. simpl String.concat.
  now rewrite !append_assoc.
Qed.

Lemma upgrade_command_template tool ostree b name :
  initialised tool ostree b ->
  name <> "" ->
  upgrade_command b (Some name) = command_template tool "update" name ostree.
Proof.
  intros [Hb Ht] Hname. unfold upgrade_command, command_template, not_name.
  apply String.eqb_neq in Hname. rewrite Hname, Hb, Ht.
  simpl String.concat. now rewrite !append_assoc.
Qed.

(** Without a name, [upgrade] leaves the name out of the command. *)
Lemma upgrade_command_all b (name : option string) :
  not_name name = true ->
  upgrade_command b name = base_command b +++ "update" +++ transient_opts b.
Proof.
  intros H. unfold upgrade_command. now rewrite H.
Qed.

(** C3: when the process runner fails on every command, [install],
    [remove] and [upgrade] return the failure value [False]; none of them
    raises. *)
Theorem failing_runner_returns_False (name : string) (s : State) :
  (forall t command, exit_status env t command <> 0%Z) ->
  fst (install env name s) = Ret false
  /\ fst (remove env name s) = Ret false
  /\ fst (upgrade env (Some name) s) = Ret false
  /\ fst (upgrade env None s) = Ret false.
Proof.
  intros Hfail.
  rewrite install_outcome, remove_outcome, !upgrade_outcome. simpl.
  repeat split; f_equal; apply Z.eqb_neq, Hfail.
Qed.

(** C4, as amended: [install], [remove] and [upgrade] succeed exactly when
    the delegated process exits with status zero; on a nonzero status they
    return [False], and the runner's exception does not reach the caller. *)
Theorem command_result_is_exit_status (name : string) (upgraded : option string)
        (s : State) :
  let t := now (world s) in
  fst (install env name s)
  = Ret (Z.eqb (exit_status env t (install_command (self s) name)) 0)
  /\ fst (remove env name s)
     = Ret (Z.eqb (exit_status env t (remove_command (self s) name)) 0)
  /\ fst (upgrade env upgraded s)
     = Ret (Z.eqb (exit_status env t (upgrade_command (self s) upgraded)) 0).
Proof.
  rewrite install_outcome, remove_outcome, upgrade_outcome. simpl. auto.
Qed.

(** C5: for a package name, [install], [remove] and [upgrade] build the
    command [<tool> -y <verb> <name>] followed by the transient flag when
    there is one, with the verbs [install], [erase] and [update], and hand
    exactly that command to the process runner. *)
Theorem commands_follow_template (tool : string) (ostree : bool)
        (name : string) (s : State) :
  initialised tool ostree (self s) ->
  name <> "" ->
  cmds (world (snd (install env name s)))
  = cmds (world s) ++ [command_template tool "install" name ostree]
  /\ cmds (world (snd (remove env name s)))
     = cmds (world s) ++ [command_template tool "erase" name ostree]
  /\ cmds (world (snd (upgrade env (Some name) s)))
     = cmds (world s) ++ [command_template tool "update" name ostree].
Proof.
  intros Hinit Hname.
  rewrite install_outcome, remove_outcome, upgrade_outcome. simpl.
  rewrite (install_command_template tool ostree), (remove_command_template tool ostree),
    (upgrade_command_template tool ostree) by assumption.
  auto.
Qed.

End CommandOperations.

Lemma initial_backend_initialised cmd tool ostree :
  initialised tool ostree (initial_backend cmd tool ostree).
Proof.
  split; [reflexivity | now destruct ostree].
Qed.

Lemma failing_runner_returns_False_witness :
  (forall t command, exit_status (sample_env 1 false) t command <> 0%Z)
  /\ fst (install (sample_env 1 false) "vim" (sample_state Missing)) = Ret false.
Proof.
  assert (H : forall t command,
             exit_status (sample_env 1 false) t command <> 0%Z)
    by (intros t command; simpl; discriminate).
  split; [exact H |].
  exact (proj1 (failing_runner_returns_False (sample_env 1 false) "vim"
                  (sample_state Missing) H)).
Defined.

(** The runner's failure is not passed on by [install]: the claim of C4
    fails where the process exits with status 1. *)
Lemma install_failure_not_propagated :
  exit_status (sample_env 1 false) 0
    (install_command (self (sample_state Missing)) "vim") <> 0%Z
  /\ fst (install (sample_env 1 false) "vim" (sample_state Missing))
     <> Raise CmdError
  /\ fst (install (sample_env 1 false) "vim" (sample_state Missing))
     = Ret false.
Proof.
  repeat split; vm_compute; discriminate.
Qed.

Lemma commands_follow_template_witness :
  initialised "/usr/bin/yum" false (self (sample_state Missing))
  /\ "vim" <> ""
  /\ cmds (world (snd (install (sample_env 0 false) "vim" (sample_state Missing))))
     = ["/usr/bin/yum -y install vim"].
Proof.
  assert (Hi : initialised "/usr/bin/yum" false (self (sample_state Missing)))
    by (split; reflexivity).
  assert (Hn : "vim" <> "") by discriminate.
  split; [exact Hi |]. split; [exact Hn |].
  exact (proj1 (commands_follow_template (sample_env 0 false) "/usr/bin/yum"
                  false "vim" (sample_state Missing) Hi Hn)).
Defined.

(** ** Capability lookup *)

Section Provides.

Variable env : Env.

Lemma yum_base_absent (s : State) :
  fst (yum_base env s) = Ret None -> yum_base env s = (Ret None, s).
Proof.
  unfold yum_base, bind, get_self, put_self, ret.
  destruct (_yum_base (self s)); simpl; [discriminate |].
  destruct (HAS_YUM_MODULE env); simpl; [discriminate | reflexivity].
Qed.

Lemma yum_base_present (s : State) (h : YumBase) :
  fst (yum_base env s) = Ret (Some h) ->
  exists s',
    yum_base env s = (Ret (Some h), s')
    /\ world s' = world s
    /\ yum_base env s' = (Ret (Some h), s').
Proof.
  unfold yum_base, bind, get_self, put_self, ret.
  destruct (_yum_base (self s)) as [h0|] eqn:E; simpl.
  - intros H. injection H as ->. exists s. rewrite E. simpl. auto.
  - destruct (HAS_YUM_MODULE env); simpl; [| discriminate].
    intros H. injection H as <-.
    eexists. split; [reflexivity |]. split; [reflexivity |].
    simpl. reflexivity.
Qed.

(** C7: when the native handle is unavailable ([yum_base] is [None]),
    [provides] returns [None] and queries nothing: the state, and with it
    the list of queries, is left as it was. *)
Theorem provides_disabled_without_handle (name : string) (s : State) :
  fst (yum_base env s) = Ret None ->
  provides env name s = (Ret None, s).
Proof.
  intros H. unfold provides, bind.
  now rewrite (yum_base_absent s H).
Qed.

(** C8: with the native handle available, [provides] asks it once, for the
    providers of ["*/" + name]; it returns the string form of the first
    match, and [None] when the result is empty or when the query raises an
    error. *)
Theorem provides_queries_handle (name : string) (s : State) (h : YumBase) :
  fst (yum_base env s) = Ret (Some h) ->
  let pattern := "*/" +++ name in
  let answer := searchPackageProvides env (now (world s)) [pattern] in
  queries (world (snd (provides env name s)))
  = queries (world s) ++ [[pattern]]
  /\ (forall first rest,
         answer = Ok (first :: rest) ->
         fst (provides env name s) = Ret (Some (str first)))
  /\ (answer = Ok [] -> fst (provides env name s) = Ret None)
  /\ (forall e,
         answer = Err e -> is_Exception e = true ->
         fst (provides env name s) = Ret None).
Proof.
  intros H pattern answer.
  destruct (yum_base_present s h H) as (s' & E1 & Ew & E2).
  assert (Hrun : provides env name s
                 = match answer with
                   | Ok (first :: _) =>
                       (Ret (Some (str first)), after_query [pattern] s')
                   | Ok [] => (Ret None, after_query [pattern] s')
                   | Err e =>
                       if is_Exception e
                       then (Ret None, after_query [pattern] s')
                       else (Raise e, after_query [pattern] s')
                   end).
  { unfold provides, bind at 1. rewrite E1.
    unfold bind, try_except. rewrite E2.
    unfold search_provides. rewrite Ew. fold pattern. fold answer.
    unfold after_query. rewrite Ew.
    destruct answer as [[|first rest]|e]; try reflexivity.
    destruct (is_Exception e); reflexivity. }
  rewrite Hrun. repeat split.
  - destruct answer as [[|first rest]|e]; [| | destruct (is_Exception e)];
      simpl; now rewrite Ew.
  - intros first rest ->. reflexivity.
  - intros ->. reflexivity.
  - intros e -> ->. reflexivity.
Qed.

End Provides.

Lemma provides_disabled_without_handle_witness :
  fst (yum_base (sample_env 0 false) (sample_state Missing)) = Ret None
  /\ provides (sample_env 0 false) "bash" (sample_state Missing)
     = (Ret None, sample_state Missing).
Proof.
  split; [reflexivity |].
  apply (provides_disabled_without_handle (sample_env 0 false) "bash"
           (sample_state Missing)).
  reflexivity.
Defined.

Lemma provides_queries_handle_witness :
  fst (yum_base (sample_env 0 true) (sample_state Missing)) = Ret (Some mkYumBase)
  /\ fst (provides (sample_env 0 true) "bash" (sample_state Missing))
     = Ret (Some "bash-5.1.8-6.el9.x86_64").
Proof.
  split; [reflexivity |].
  refine (proj1 (proj2 (provides_queries_handle (sample_env 0 true) "bash"
                          (sample_state Missing) mkYumBase _))
                 {| str := "bash-5.1.8-6.el9.x86_64" |} [] _);
    reflexivity.
Defined.

(** ** Source package retrieval *)

Section GetSource.

Variable env : Env.

Lemma is_dir_removed (path : string) (l : list string) :
  existsb (String.eqb path)
          (filter (fun d => negb (String.eqb path d)) l) = false.
Proof.
  induction l as [|d l IH]; simpl; [reflexivity |].
  destruct (String.eqb path d) eqn:E; simpl; [exact IH |].
  now rewrite E.
Qed.

(** C9: with [dest_path] equal to [None], and the temporary directory
    created and removed without an OS error, [get_source] returns the empty
    string instead of raising, runs no command, and the directory it made
    is gone when it returns. *)
Theorem get_source_without_destination (name : string)
        (build_option : option string) (s : State) :
  let t := now (world s) in
  let path := tmp_name env t in
  os_fault env t = false ->
  os_fault env (S t) = false ->
  let s' := snd (get_source env name None build_option s) in
  fst (get_source env name None build_option s) = Ret ""
  /\ is_dir path (world s') = false
  /\ tmpdirs (world s')
     = filter (fun d => negb (String.eqb path d)) (tmpdirs (world s))
  /\ cmds (world s') = cmds (world s).
Proof.
  intros t path H0 H1.
  unfold get_source, bind, mkdtemp, os_call. fold t. rewrite H0. simpl.
  unfold try_finally, ret, rmtree, is_dir. simpl. fold path.
  rewrite String.eqb_refl. simpl.
  unfold os_call. simpl. fold t. rewrite H1. simpl.
  rewrite String.eqb_refl. simpl.
  repeat split. apply is_dir_removed.
Qed.

End GetSource.

Lemma get_source_without_destination_witness :
  os_fault (sample_env 0 false) 0 = false
  /\ os_fault (sample_env 0 false) 1 = false
  /\ fst (get_source (sample_env 0 false) "vim" None None (sample_state Missing))
     = Ret "".
Proof.
  split; [reflexivity |]. split; [reflexivity |].
  exact (proj1 (get_source_without_destination (sample_env 0 false) "vim" None
                  (sample_state Missing) eq_refl eq_refl)).
Defined.

(** ** Dictionaries *)

#[local] Arguments String.eqb : simpl never.
#[local] Arguments copy_command : simpl never.

Section DictFacts.

Variable P : string * string -> Prop.

Lemma Forall_dict_set (k v : string) (d : dict) :
  Forall P d -> P (k, v) -> Forall P (dict_set k v d).
Proof.
  intros Hd Hkv. induction Hd as [|[k' v'] r Hx Hr IH]; simpl.
  - constructor; [assumption | constructor].
  - destruct (String.eqb k k') eqn:E.
    + apply String.eqb_eq in E. subst k'. constructor; assumption.
    + constructor; assumption.
Qed.

Lemma Forall_dict_update (d o : dict) :
  Forall P d -> Forall P o -> Forall P (dict_update d o).
Proof.
  unfold dict_update. intros Hd Ho. revert d Hd.
  induction Ho as [|[k v] r Hx Hr IH]; simpl; intros d Hd.
  - assumption.
  - apply IH. now apply Forall_dict_set.
Qed.

End DictFacts.

Lemma forallb_Forall {A} (f : A -> bool) (l : list A) :
  forallb f l = true <-> Forall (fun x => f x = true) l.
Proof.
  rewrite forallb_forall, Forall_forall. reflexivity.
Qed.

Lemma percent_free_dict_set (k v : string) (d : dict) :
  percent_free_dict d = true -> has_percent v = false ->
  percent_free_dict (dict_set k v d) = true.
Proof.
  unfold percent_free_dict. rewrite !forallb_Forall. intros Hd Hv.
  apply Forall_dict_set; [assumption |]. simpl. now rewrite Hv.
Qed.

Lemma percent_free_dict_update (d o : dict) :
  percent_free_dict d = true -> percent_free_dict o = true ->
  percent_free_dict (dict_update d o) = true.
Proof.
  unfold percent_free_dict. rewrite !forallb_Forall.
  apply Forall_dict_update.
Qed.

Lemma matches_url_set_baseurl (url : string) (d : dict) :
  matches_url url (dict_set "baseurl" url d) = true.
Proof.
  unfold matches_url. induction d as [|[k v] r IH]; simpl.
  - now rewrite String.eqb_refl.
  - destruct (String.eqb "baseurl" k) eqn:E; simpl.
    + rewrite String.eqb_sym, E, String.eqb_refl. reflexivity.
    + rewrite IH. apply orb_true_r.
Qed.

Lemma matches_url_set_other (url k v : string) (d : dict) :
  String.eqb k "baseurl" = false ->
  matches_url url (dict_set k v d) = matches_url url d.
Proof.
  intros Hk. unfold matches_url. induction d as [|[k' v'] r IH]; simpl.
  - now rewrite Hk.
  - destruct (String.eqb k k') eqn:E; simpl.
    + apply String.eqb_eq in E. subst k'. now rewrite Hk.
    + now rewrite IH.
Qed.

(** Updating with a dictionary whose [baseurl] entries all carry [url]. *)
Lemma matches_url_update (url : string) (o d : dict) :
  Forall (fun ov => String.eqb (fst ov) "baseurl" = true -> snd ov = url) o ->
  matches_url url d = true \/ matches_url url o = true ->
  matches_url url (dict_update d o) = true.
Proof.
  unfold dict_update. intros Ho. revert d.
  induction Ho as [|[k v] r Hx Hr IH]; simpl; intros d Hd.
  - destruct Hd as [Hd | Hd]; [assumption | discriminate].
  - simpl in Hx. apply IH.
    destruct (String.eqb k "baseurl") eqn:E.
    + left. apply String.eqb_eq in E. subst k. rewrite (Hx eq_refl).
      apply matches_url_set_baseurl.
    + rewrite matches_url_set_other by assumption.
      destruct Hd as [Hd | Hd]; [now left |].
      right. unfold matches_url in Hd. simpl in Hd. rewrite ?E in Hd.
      exact Hd.
Qed.

(** The options of the new section keep [baseurl = url] when the caller's
    options leave [baseurl] alone. *)
Lemma new_section_options_baseurl (url : string) (opt_params : dict) :
  keeps_baseurl opt_params = true ->
  Forall (fun ov => String.eqb (fst ov) "baseurl" = true -> snd ov = url)
         (new_section_options url opt_params)
  /\ matches_url url (new_section_options url opt_params) = true.
Proof.
  intros Hk. unfold new_section_options.
  assert (Ho : Forall (fun ov => String.eqb (lower (fst ov)) "baseurl" = false)
                      (dict_update [("enabled", "1"); ("gpgcheck", "0")]
                                   opt_params)).
  { apply Forall_dict_update.
    - repeat constructor.
    - unfold keeps_baseurl in Hk. rewrite forallb_Forall in Hk.
      eapply Forall_impl; [| exact Hk]. simpl. intros ov H.
      now apply negb_true_iff in H. }
  set (start := [("name", "Avocado managed repository"); ("baseurl", url)]).
  assert (Hs : Forall (fun ov => String.eqb (fst ov) "baseurl" = true ->
                                 snd ov = url) start
               /\ matches_url url start = true).
  { split.
    - repeat constructor; simpl; discriminate.
    - unfold start, matches_url. simpl. now rewrite String.eqb_refl. }
  revert Hs. generalize start.
  induction Ho as [|[k v] r Hx Hr IH]; simpl; intros d [Hd Hm].
  - now split.
  - simpl in Hx. apply IH. split.
    + apply Forall_dict_set; [assumption |]. simpl. rewrite Hx. discriminate.
    + now rewrite matches_url_set_other.
Qed.

Lemma new_section_options_percent_free (url : string) (opt_params : dict) :
  has_percent url = false ->
  percent_free_dict opt_params = true ->
  percent_free_dict (new_section_options url opt_params) = true.
Proof.
  intros Hu Ho. unfold new_section_options.
  assert (H : percent_free_dict
                (dict_update [("enabled", "1"); ("gpgcheck", "0")] opt_params)
              = true)
    by (apply percent_free_dict_update; [reflexivity | assumption]).
  assert (Hs : percent_free_dict
                 [("name", "Avocado managed repository"); ("baseurl", url)]
               = true)
    by (simpl; now rewrite Hu).
  revert Hs.
  generalize [("name", "Avocado managed repository"); ("baseurl", url)].
  revert H.
  generalize (dict_update [("enabled", "1"); ("gpgcheck", "0")] opt_params).
  intros o. induction o as [|[k v] r IH]; simpl; intros Ho' d Hd.
  - assumption.
  - apply andb_prop in Ho'. destruct Ho' as [Hv Hr].
    apply IH; [assumption |].
    apply percent_free_dict_set; [assumption |]. simpl in Hv.
    now apply negb_true_iff in Hv.
Qed.

(** ** Interpolation of values without a percent sign *)

Lemma keycre_match_percent (c : ascii) (r : string) :
  Ascii.eqb c percent = false -> CP.keycre_match (String c r) = None.
Proof.
  destruct c as [[] [] [] [] [] [] [] []]; intros H;
    solve [reflexivity | discriminate H].
Qed.

Lemma strip_escaped_plain (s : string) :
  has_percent s = false -> CP.strip_escaped s = s.
Proof.
  induction s as [|c r IH]; simpl; [reflexivity |].
  intros H. apply orb_false_elim in H. destruct H as [Hc Hr].
  destruct r as [|c' r'].
  - reflexivity.
  - rewrite Hc. simpl andb. cbv iota. now rewrite (IH Hr).
Qed.

Lemma keycre_strip_plain (fuel : nat) (s : string) :
  has_percent s = false -> CP.keycre_strip fuel s = s.
Proof.
  revert s. induction fuel as [|f IH]; intros s H; [reflexivity |].
  destruct s as [|c r]; [reflexivity |].
  simpl in H. apply orb_false_elim in H. destruct H as [Hc Hr].
  cbn [CP.keycre_strip]. rewrite (keycre_match_percent c r Hc).
  now rewrite (IH r Hr).
Qed.

Lemma before_set_plain (v : string) :
  has_percent v = false -> CP.before_set v = Ok v.
Proof.
  intros H. unfold CP.before_set, CP.keycre_sub.
  rewrite (strip_escaped_plain v H), (keycre_strip_plain _ v H), H.
  reflexivity.
Qed.

Lemma interpolate_loop_plain (deeper : string -> Res string) (map : dict)
      (v : string) (n : nat) :
  has_percent v = false -> String.length v < n ->
  CP.interpolate_loop deeper map n v = Ok v.
Proof.
  revert n. induction v as [|c r IH]; intros n H Hn.
  - destruct n; reflexivity.
  - destruct n as [|n']; [inversion Hn |].
    simpl in H. apply orb_false_elim in H. destruct H as [Hc Hr].
    cbn [CP.interpolate_loop]. rewrite Hc.
    rewrite (IH n' Hr) by (simpl in Hn; lia). reflexivity.
Qed.

Lemma before_get_plain (map : dict) (v : string) :
  has_percent v = false -> CP.before_get map v = Ok v.
Proof.
  intros H. unfold CP.before_get, CP.MAX_INTERPOLATION_DEPTH.
  cbn [CP.interpolate_some]. apply interpolate_loop_plain; [assumption | lia].
Qed.

Lemma interpolate_all_plain (map l : dict) :
  percent_free_dict l = true -> CP.interpolate_all map l = Ok l.
Proof.
  induction l as [|[o v] r IH]; simpl; intros H; [reflexivity |].
  apply andb_prop in H. destruct H as [Hv Hr].
  apply negb_true_iff in Hv.
  rewrite (before_get_plain map v Hv). simpl.
  rewrite (IH Hr). reflexivity.
Qed.

(** ** Parser operations *)

Lemma find_section_percent_free (s : string) (l : list (string * dict)) (d : dict) :
  forallb (fun sd => percent_free_dict (snd sd)) l = true ->
  CP.find_section s l = Some d ->
  percent_free_dict d = true.
Proof.
  induction l as [|[s' d'] r IH]; simpl; intros H Hf; [discriminate |].
  apply andb_prop in H. destruct H as [Hd Hr].
  destruct (String.eqb s s'); [now injection Hf as <- | now apply IH].
Qed.

Lemma raw_items_percent_free (p : CP.t) (s : string) (d : dict) :
  percent_free p = true -> CP.raw_items p s = Ok d ->
  percent_free_dict d = true.
Proof.
  unfold percent_free, CP.raw_items. intros H Hr.
  apply andb_prop in H. destruct H as [Hd Hs].
  destruct (CP.find_section s (CP.sects p)) as [d'|] eqn:E.
  - injection Hr as <-. apply percent_free_dict_update; [assumption |].
    eapply find_section_percent_free; eassumption.
  - destruct (String.eqb s CP.default_section); [| discriminate].
    now injection Hr as <-.
Qed.

(** Without percent signs, [items] returns the stored options. *)
Lemma items_plain (p : CP.t) (s : string) :
  percent_free p = true -> CP.items p s = CP.raw_items p s.
Proof.
  intros H. unfold CP.items.
  destruct (CP.raw_items p s) as [d|e] eqn:E; [| reflexivity].
  simpl. rewrite interpolate_all_plain; [reflexivity |].
  eapply raw_items_percent_free; eassumption.
Qed.

Lemma has_section_In (p : CP.t) (s : string) :
  CP.has_section p s = true <-> In s (CP.sections p).
Proof.
  unfold CP.has_section. rewrite existsb_exists. split.
  - intros (x & Hx & E). apply String.eqb_eq in E. now subst.
  - intros H. exists s. split; [assumption | apply String.eqb_refl].
Qed.

Lemma has_section_not_In (p : CP.t) (s : string) :
  CP.has_section p s = false <-> ~ In s (CP.sections p).
Proof.
  rewrite <- has_section_In.
  destruct (CP.has_section p s); split; intros H;
    solve [reflexivity | discriminate | now elim H].
Qed.

Lemma sections_with_section (p : CP.t) (name : string) (d : dict) :
  CP.sections (with_section p name d) = CP.sections p ++ [name].
Proof.
  unfold CP.sections, with_section. simpl. now rewrite map_app.
Qed.

Lemma find_section_app_old (s : string) (l l' : list (string * dict)) :
  In s (map fst l) ->
  CP.find_section s (l ++ l') = CP.find_section s l.
Proof.
  induction l as [|[s' d'] r IH]; simpl; intros H; [contradiction |].
  destruct (String.eqb s s') eqn:E; [reflexivity |].
  apply IH. destruct H as [H | H]; [| assumption].
  subst s'. now rewrite String.eqb_refl in E.
Qed.

Lemma find_section_app_new (s : string) (l : list (string * dict)) (d : dict) :
  ~ In s (map fst l) ->
  CP.find_section s (l ++ [(s, d)]) = Some d.
Proof.
  induction l as [|[s' d'] r IH]; simpl; intros H.
  - now rewrite String.eqb_refl.
  - destruct (String.eqb s s') eqn:E.
    + apply String.eqb_eq in E. subst s'. elim H. now left.
    + apply IH. intros H'. apply H. now right.
Qed.

Lemma raw_items_with_section_old (p : CP.t) (name s : string) (d : dict) :
  In s (CP.sections p) ->
  CP.raw_items (with_section p name d) s = CP.raw_items p s.
Proof.
  intros H. unfold CP.raw_items, with_section. simpl.
  now rewrite find_section_app_old.
Qed.

Lemma raw_items_with_section_new (p : CP.t) (name : string) (d : dict) :
  ~ In name (CP.sections p) ->
  CP.raw_items (with_section p name d) name
  = Ok (dict_update (CP.defaults p) d).
Proof.
  intros H. unfold CP.raw_items, with_section. simpl.
  now rewrite find_section_app_new.
Qed.

Lemma percent_free_with_section (p : CP.t) (name : string) (d : dict) :
  percent_free p = true -> percent_free_dict d = true ->
  percent_free (with_section p name d) = true.
Proof.
  unfold percent_free, with_section. simpl. intros H Hd.
  apply andb_prop in H. destruct H as [H1 H2].
  rewrite H1, forallb_app, H2. simpl. now rewrite Hd.
Qed.

Lemma add_section_fresh (p : CP.t) (name : string) :
  String.eqb name CP.default_section = false ->
  CP.has_section p name = false ->
  CP.add_section p name = Ok (with_section p name []).
Proof.
  intros H1 H2. unfold CP.add_section. now rewrite H1, H2.
Qed.

Lemma map_set_with_section (name k v : string) (l : list (string * dict))
      (d : dict) :
  ~ In name (map fst l) ->
  map (fun sd => if String.eqb name (fst sd)
                 then (fst sd, dict_set k v (snd sd)) else sd)
      (l ++ [(name, d)])
  = l ++ [(name, dict_set k v d)].
Proof.
  induction l as [|[s' d'] r IH]; simpl; intros H.
  - now rewrite String.eqb_refl.
  - destruct (String.eqb name s') eqn:E.
    + apply String.eqb_eq in E. subst s'. elim H. now left.
    + rewrite IH; [reflexivity |]. intros H'. apply H. now right.
Qed.

Lemma set_with_section (p : CP.t) (name k v : string) (d : dict) :
  String.eqb name "" = false ->
  String.eqb name CP.default_section = false ->
  ~ In name (CP.sections p) ->
  has_percent v = false ->
  CP.set (with_section p name d) name k v
  = Ok (with_section p name (dict_set (lower k) v d)).
Proof.
  intros H1 H2 H3 Hv. unfold CP.set.
  assert (Hb : (if String.eqb v "" then Ok v else CP.before_set v) = Ok v)
    by (destruct (String.eqb v ""); [reflexivity | now apply before_set_plain]).
  rewrite Hb. simpl. rewrite H1, H2. simpl.
  rewrite find_section_app_new by assumption.
  unfold with_section. simpl. now rewrite map_set_with_section.
Qed.

(** [set] never changes the list of sections. *)
Lemma set_sections (p p' : CP.t) (s k v : string) :
  CP.set p s k v = Ok p' -> CP.sections p' = CP.sections p.
Proof.
  unfold CP.set.
  destruct (if String.eqb v "" then Ok v else CP.before_set v) as [v'|e];
    simpl; [| discriminate].
  destruct (String.eqb s "" || String.eqb s CP.default_section).
  - intros H. injection H as <-. reflexivity.
  - destruct (CP.find_section s (CP.sects p)); [| discriminate].
    intros H. injection H as <-. unfold CP.sections. simpl.
    rewrite map_map. apply map_ext. intros [s' d']. simpl.
    now destruct (String.eqb s s').
Qed.

(** ** The methods on a loaded parser *)

Section ParserMethods.

Variable env : Env.

Lemma parser_of_st (b : YumBackend) (p : CP.t) (w : World) :
  repo_config_parser (st_of b p w) = (Ret p, st_of b p w).
Proof. reflexivity. Qed.

(** The first use of the parser reads the file. *)
Lemma parser_load (s : State) (p : CP.t) :
  config_of s = Some p ->
  repo_config_parser s = (Ret p, st_of (self s) p (world s)).
Proof.
  destruct s as [[c bc cfg yb tr] w]. unfold config_of. simpl.
  destruct cfg as [p0|].
  - intros H. injection H as ->. reflexivity.
  - destruct (repo_file w) as [| c0 | partial] eqn:E;
      intros H; try discriminate; injection H as <-;
      unfold repo_config_parser, bind, get_self, get_world; simpl;
      rewrite E; reflexivity.
Qed.

Lemma config_of_st (b : YumBackend) (p : CP.t) (w : World) :
  config_of (st_of b p w) = Some p.
Proof. reflexivity. Qed.

Lemma scan_sections_spec (url : string) (secs : list string)
      (b : YumBackend) (p : CP.t) (w : World) :
  scan_sections url secs (st_of b p w)
  = (match scan p url secs with Ok r => Ret r | Err e => Raise e end,
     st_of b p w).
Proof.
  induction secs as [|section rest IH]; [reflexivity |].
  cbn [scan_sections scan]. unfold bind at 1. rewrite parser_of_st.
  unfold bind at 1. destruct (CP.items p section) as [its|e]; simpl.
  - destruct (matches_url url its); [reflexivity | exact IH].
  - reflexivity.
Qed.

Lemma random_string_st (n : nat) (b : YumBackend) (p : CP.t) (w : World) :
  random_string env n (st_of b p w)
  = (Ret (generate_random_string env (now w) n), st_of b p (tick w)).
Proof. reflexivity. Qed.

Lemma advance_tick (k : nat) (w : World) :
  advance k (tick w) = advance (S k) w.
Proof.
  unfold advance, tick. simpl. now rewrite Nat.add_succ_r.
Qed.

Lemma new_section_name_spec (fuel : nat) (b : YumBackend) (p : CP.t)
      (w : World) :
  new_section_name env fuel (st_of b p w)
  = match rejected env p (now w) fuel with
    | Some j => (Ret (candidate env (j + now w)), st_of b p (advance (S j) w))
    | None => (OutOfFuel, st_of b p (advance fuel w))
    end.
Proof.
  revert w. induction fuel as [|fuel IH]; intros w.
  - destruct w. reflexivity.
  - cbn [new_section_name rejected]. unfold bind at 1.
    rewrite random_string_st. unfold bind at 1.
    rewrite parser_of_st. fold (candidate env (now w)).
    destruct (negb (CP.has_section p (candidate env (now w)))).
    + destruct w. reflexivity.
    + rewrite IH. cbn [now tick].
      destruct (rejected env p (S (now w)) fuel) as [j|]; simpl.
      * now rewrite advance_tick, Nat.add_succ_r.
      * now rewrite advance_tick.
Qed.

Lemma parser_add_section_spec (name : string) (b : YumBackend) (p : CP.t)
      (w : World) :
  parser_add_section name (st_of b p w)
  = match CP.add_section p name with
    | Ok p' => (Ret tt, st_of b p' w)
    | Err e => (Raise e, st_of b p w)
    end.
Proof.
  unfold parser_add_section, bind. rewrite parser_of_st.
  destruct (CP.add_section p name); reflexivity.
Qed.

Lemma parser_set_spec (section k v : string) (b : YumBackend) (p : CP.t)
      (w : World) :
  parser_set section k v (st_of b p w)
  = match CP.set p section k v with
    | Ok p' => (Ret tt, st_of b p' w)
    | Err e => (Raise e, st_of b p w)
    end.
Proof.
  unfold parser_set, bind. rewrite parser_of_st.
  destruct (CP.set p section k v); reflexivity.
Qed.

(** Setting options without percent signs on the section just added. *)
Lemma set_options_spec (name : string) (options d : dict) (b : YumBackend)
      (p : CP.t) (w : World) :
  String.eqb name "" = false ->
  String.eqb name CP.default_section = false ->
  ~ In name (CP.sections p) ->
  percent_free_dict options = true ->
  set_options name options (st_of b (with_section p name d) w)
  = (Ret tt,
     st_of b (with_section p name
                (fold_left (fun d ov => dict_set (lower (fst ov)) (snd ov) d)
                           options d))
           w).
Proof.
  intros H1 H2 H3. revert d.
  induction options as [|[k v] rest IH]; intros d Ho; [reflexivity |].
  simpl in Ho. apply andb_prop in Ho. destruct Ho as [Hv Hr].
  apply negb_true_iff in Hv.
  cbn [set_options]. unfold bind at 1. rewrite parser_set_spec.
  rewrite set_with_section by assumption.
  rewrite IH by assumption. reflexivity.
Qed.

End ParserMethods.

(** ** Writing the configuration *)

Section Writing.

Variable env : Env.

Lemma filter_updated (tmp : string) (content : CP.t)
      (l : list (string * CP.t)) :
  filter (fun f => negb (String.eqb tmp (fst f)))
         (map (fun f => if String.eqb tmp (fst f) then (fst f, content) else f)
              l)
  = filter (fun f => negb (String.eqb tmp (fst f))) l.
Proof.
  induction l as [|[n c] r IH]; simpl; [reflexivity |].
  destruct (String.eqb tmp n) eqn:E; simpl; rewrite E; simpl;
    now rewrite IH.
Qed.

(** A [with] block whose body ends by writing the parser [p'] and
    copying it: it gives [x] when the five external calls succeed, and
    raises [OSError] or [CmdError] otherwise; the body is not entered
    when the temporary file cannot be created. *)
Lemma with_tmpfile_write_from {A} (body : string -> M A) (x : A)
      (s0 : State) (b : YumBackend) (p' : CP.t) :
  (forall tmp w1,
      repo_file w1 = repo_file (world s0) ->
      body tmp (mkState (self s0) w1)
      = match write_and_copy env tmp (st_of b p' w1) with
        | (Ret _, s') => (Ret x, s')
        | (Raise e, s') => (Raise e, s')
        | (OutOfFuel, s') => (OutOfFuel, s')
        end) ->
  exists out s',
    with_NamedTemporaryFile env body s0 = (out, s')
    /\ (if os_fault env (now (world s0))
        then s' = mkState (self s0) (tick (world s0))
        else exists w', s' = st_of b p' w'
                        /\ (write_succeeds env (now (world s0)) = true ->
                            w' = written env p' (world s0)))
    /\ (write_succeeds env (now (world s0)) = true -> out = Ret x)
    /\ (write_succeeds env (now (world s0)) = false ->
        out = Raise OSError \/ out = Raise CmdError).
Proof.
  intros Hbody. set (w := world s0).
  unfold with_NamedTemporaryFile, bind, NamedTemporaryFile, os_call,
    write_succeeds.
  fold w. destruct (os_fault env (now w)) eqn:F0.
  - do 2 eexists. split; [reflexivity |]. split; [reflexivity |].
    split; [intros H; discriminate H | intros _; auto].
  - cbn [negb andb]. unfold try_finally. rewrite Hbody by reflexivity.
    unfold write_and_copy, file_write, file_flush, copy_to_repo_file,
      process_system, file_close, os_call, bind.
    rewrite parser_of_st. simpl.
    rewrite !String.eqb_refl.
    destruct (os_fault env (S (now w))) eqn:F1; simpl.
    { destruct (os_fault env (S (S (now w)))); do 2 eexists;
        (split; [reflexivity |]);
        (split; [eexists; split;
                 [reflexivity | intros H; discriminate H] |]);
        (split; [intros H; discriminate H | intros _; auto]). }
    destruct (os_fault env (S (S (now w)))) eqn:F2; simpl.
    { destruct (os_fault env (S (S (S (now w))))); do 2 eexists;
        (split; [reflexivity |]);
        (split; [eexists; split;
                 [reflexivity | intros H; discriminate H] |]);
        (split; [intros H; discriminate H | intros _; auto]). }
    destruct (Z.eqb (exit_status env (S (S (S (now w))))
                       (copy_command (tmp_name env (now w)))) 0) eqn:F3;
      simpl.
    + rewrite ?String.eqb_refl.
      destruct (os_fault env (S (S (S (S (now w)))))) eqn:F4; simpl.
      * do 2 eexists. split; [reflexivity |].
        split; [eexists; split; [reflexivity | intros H; discriminate H] |].
        split; [intros H; discriminate H | intros _; auto].
      * do 2 eexists. split; [reflexivity |].
        split; [eexists; split; [reflexivity |] |].
        { intros _. unfold written. simpl. now rewrite filter_updated. }
        split; [reflexivity | intros H; discriminate H].
    + destruct (os_fault env (S (S (S (S (now w))))));
        do 2 eexists; (split; [reflexivity |]);
        (split; [eexists; split;
                 [reflexivity | intros H; discriminate H] |]);
        (split; [intros H; discriminate H | intros _; auto]).
Qed.

Lemma with_tmpfile_write {A} (body : string -> M A) (x : A)
      (b : YumBackend) (p p' : CP.t) (w : World) :
  (forall tmp w1,
      body tmp (st_of b p w1)
      = match write_and_copy env tmp (st_of b p' w1) with
        | (Ret _, s') => (Ret x, s')
        | (Raise e, s') => (Raise e, s')
        | (OutOfFuel, s') => (OutOfFuel, s')
        end) ->
  exists out w',
    with_NamedTemporaryFile env body (st_of b p w)
    = (out, st_of b (if os_fault env (now w) then p else p') w')
    /\ (write_succeeds env (now w) = true ->
        out = Ret x /\ w' = written env p' w)
    /\ (write_succeeds env (now w) = false ->
        out = Raise OSError \/ out = Raise CmdError).
Proof.
  intros Hbody.
  destruct (with_tmpfile_write_from body x (st_of b p w) b p')
    as (out & s' & E & Hs & Hok & Hfail).
  { intros tmp w1 _. apply Hbody. }
  cbn [world st_of] in Hs, Hok, Hfail. rewrite E. exists out.
  destruct (os_fault env (now w)) eqn:F0.
  - exists (tick w). subst s'. split; [reflexivity |]. split; [| assumption].
    intros H. unfold write_succeeds in H. rewrite F0 in H. discriminate H.
  - destruct Hs as (w' & -> & Hw). exists w'. split; [reflexivity |].
    split; [| assumption]. intros H. split; [now apply Hok | now apply Hw].
Qed.

End Writing.

(** ** Adding a repository *)

Section AddRepo.

Variable env : Env.

Lemma raw_items_section (p : CP.t) (s : string) :
  In s (CP.sections p) -> exists d, CP.raw_items p s = Ok d.
Proof.
  unfold CP.raw_items, CP.sections. intros H.
  destruct (CP.find_section s (CP.sects p)) as [d|] eqn:E; [eauto |].
  exfalso. induction (CP.sects p) as [|[s' d'] r IH]; simpl in *; [assumption |].
  destruct (String.eqb s s') eqn:E'; [discriminate |].
  destruct H as [H | H]; [| auto].
  subst s'. now rewrite String.eqb_refl in E'.
Qed.

(** Without percent signs the search looks at the stored options. *)
Lemma scan_plain (p : CP.t) (url : string) (secs : list string) :
  percent_free p = true ->
  incl secs (CP.sections p) ->
  scan p url secs = Ok (existsb (references p url) secs).
Proof.
  intros Hp. induction secs as [|s rest IH]; intros Hin; [reflexivity |].
  cbn [scan existsb]. rewrite (items_plain p s Hp). unfold references at 1.
  destruct (raw_items_section p s (Hin s (or_introl eq_refl))) as [d ->].
  destruct (matches_url url d); [reflexivity |].
  apply IH. intros x Hx. apply Hin. now right.
Qed.

Lemma referencing_nil (p : CP.t) (url : string) :
  referencing p url = [] <-> existsb (references p url) (CP.sections p) = false.
Proof.
  unfold referencing. induction (CP.sections p) as [|s r IH]; simpl.
  - split; reflexivity.
  - destruct (references p url s); simpl.
    + split; discriminate.
    + exact IH.
Qed.

Lemma rejected_fresh (p : CP.t) (t fuel j : nat) :
  rejected env p t fuel = Some j ->
  CP.has_section p (candidate env (j + t)) = false.
Proof.
  revert t j. induction fuel as [|fuel IH]; intros t j; simpl; [discriminate |].
  destruct (CP.has_section p (candidate env t)) eqn:E; simpl.
  - destruct (rejected env p (S t) fuel) as [j'|] eqn:R; simpl; [| discriminate].
    intros H. injection H as <-.
    replace (S j' + t) with (j' + S t) by lia. now apply IH.
  - intros H. injection H as <-. exact E.
Qed.

Lemma candidate_not_empty (t : nat) : String.eqb (candidate env t) "" = false.
Proof. reflexivity. Qed.

Lemma candidate_not_default (t : nat) :
  String.eqb (candidate env t) CP.default_section = false.
Proof. reflexivity. Qed.

Lemma add_repo_load (fuel : nat) (url : string) (opt_params : dict)
      (s : State) (p : CP.t) :
  config_of s = Some p ->
  add_repo env fuel url opt_params s
  = add_repo env fuel url opt_params (st_of (self s) p (world s)).
Proof.
  intros H. unfold add_repo, bind at 1.
  rewrite (parser_load s p H). symmetry. unfold bind at 1.
  now rewrite parser_of_st.
Qed.

(** The URL is found: nothing is drawn, written or run. *)
Lemma add_repo_found (fuel : nat) (url : string) (opt_params : dict)
      (b : YumBackend) (p : CP.t) (w : World) :
  scan p url (CP.sections p) = Ok true ->
  add_repo env fuel url opt_params (st_of b p w) = (Ret true, st_of b p w).
Proof.
  intros H. unfold add_repo, bind at 1. rewrite parser_of_st.
  unfold bind at 1. rewrite scan_sections_spec, H. reflexivity.
Qed.

(** The URL is not found, and nothing holds a percent sign: a section is
    added under the first free name, and the result tells whether the
    configuration could be written. *)
Lemma add_repo_new (fuel j : nat) (url : string) (opt_params : dict)
      (b : YumBackend) (p : CP.t) (w : World) :
  percent_free_dict opt_params = true ->
  has_percent url = false ->
  scan p url (CP.sections p) = Ok false ->
  rejected env p (now w) fuel = Some j ->
  let p1 := with_section p (candidate env (j + now w))
                         (new_section_options url opt_params) in
  exists w',
    add_repo env fuel url opt_params (st_of b p w)
    = (Ret (write_succeeds env (S j + now w)), st_of b p1 w')
    /\ (write_succeeds env (S j + now w) = true ->
        w' = written env p1 (advance (S j) w)).
Proof.
  intros Ho Hu Hscan Hrej p1.
  pose proof (rejected_fresh p (now w) fuel j Hrej) as Hfresh.
  assert (Hnot : ~ In (candidate env (j + now w)) (CP.sections p))
    by now apply has_section_not_In.
  unfold add_repo, bind at 1. rewrite parser_of_st.
  unfold bind at 1. rewrite scan_sections_spec, Hscan.
  unfold bind at 1. rewrite new_section_name_spec, Hrej.
  unfold try_except, bind at 1.
  rewrite parser_add_section_spec.
  rewrite add_section_fresh by (assumption || apply candidate_not_default).
  unfold bind at 1. rewrite parser_set_spec.
  rewrite set_with_section
    by (assumption || reflexivity || apply candidate_not_default).
  unfold bind at 1. rewrite parser_set_spec.
  rewrite set_with_section
    by (assumption || reflexivity || apply candidate_not_default).
  unfold bind at 1.
  rewrite set_options_spec;
    [| reflexivity | apply candidate_not_default | assumption
     | apply percent_free_dict_update; [reflexivity | assumption]].
  change (with_section p (candidate env (j + now w)) _) with p1.
  destruct (with_tmpfile_write env (write_and_copy env) tt b p1 p1
              (advance (S j) w)) as (out & w' & E & Hok & Hfail).
  { intros tmp w1.
    destruct (write_and_copy env tmp (st_of b p1 w1)) as [[[]|e|] s'];
      reflexivity. }
  assert (E' : with_NamedTemporaryFile env (write_and_copy env)
                 (st_of b p1 (advance (S j) w)) = (out, st_of b p1 w'))
    by (rewrite E; now destruct (os_fault env (now (advance (S j) w)))).
  unfold bind at 1. rewrite E'. exists w'.
  change (now (advance (S j) w)) with (S j + now w) in Hok, Hfail.
  destruct (write_succeeds env (S j + now w)).
  - destruct (Hok eq_refl) as [-> ->]. split; [reflexivity | auto].
  - split; [| discriminate].
    destruct (Hfail eq_refl) as [-> | ->]; reflexivity.
Qed.

End AddRepo.

Section AddRepoTwice.

Variable env : Env.

Lemma references_new_section (p : CP.t) (url name : string)
      (opt_params : dict) :
  keeps_baseurl opt_params = true ->
  ~ In name (CP.sections p) ->
  references (with_section p name (new_section_options url opt_params))
             url name = true.
Proof.
  intros Hk Hnot. unfold references.
  rewrite raw_items_with_section_new by assumption.
  destruct (new_section_options_baseurl url opt_params Hk) as [Hall Hm].
  apply matches_url_update; [assumption | now right].
Qed.

Lemma referencing_with_section (p : CP.t) (url name : string) (d : dict) :
  referencing (with_section p name d) url
  = referencing p url
    ++ (if references (with_section p name d) url name then [name] else []).
Proof.
  unfold referencing. rewrite sections_with_section, filter_app. f_equal.
  apply filter_ext_in. intros s Hs. unfold references.
  now rewrite raw_items_with_section_old.
Qed.

(** X22: for a URL that no section references yet, with no
    percent sign in the URL, the options or the configuration, and with
    options that leave [baseurl] alone, the first [add_repo] adds exactly
    one section, under a name that was free, and that section is the only
    one referencing the URL; the second [add_repo] returns [True] from the
    existing-baseurl check and changes nothing, neither the configuration
    nor the outside world. *)
Theorem add_repo_twice (fuel j : nat) (url : string) (opt_params : dict)
        (s : State) (p : CP.t) :
  config_of s = Some p ->
  percent_free p = true ->
  has_percent url = false ->
  percent_free_dict opt_params = true ->
  keeps_baseurl opt_params = true ->
  referencing p url = [] ->
  rejected env p (now (world s)) fuel = Some j ->
  let name := candidate env (j + now (world s)) in
  exists s1 p1,
    add_repo env fuel url opt_params s
    = (Ret (write_succeeds env (S j + now (world s))), s1)
    /\ config_of s1 = Some p1
    /\ ~ In name (CP.sections p)
    /\ CP.sections p1 = CP.sections p ++ [name]
    /\ referencing p1 url = [name]
    /\ add_repo env fuel url opt_params s1 = (Ret true, s1).
Proof.
  intros Hcfg Hp Hu Ho Hk Hnone Hrej name.
  assert (Hscan : scan p url (CP.sections p) = Ok false).
  { rewrite scan_plain by (assumption || apply incl_refl).
    f_equal. now apply referencing_nil. }
  assert (Hnot : ~ In name (CP.sections p))
    by (apply has_section_not_In; eapply rejected_fresh; eassumption).
  destruct (add_repo_new env fuel j url opt_params (self s) p (world s)
              Ho Hu Hscan Hrej) as (w' & E & _).
  fold name in E.
  set (p1 := with_section p name (new_section_options url opt_params)) in *.
  exists (st_of (self s) p1 w'), p1.
  rewrite (add_repo_load env fuel url opt_params s p Hcfg), E.
  assert (Href : references p1 url name = true)
    by now apply references_new_section.
  repeat split.
  - assumption.
  - apply sections_with_section.
  - unfold p1. rewrite referencing_with_section. fold p1.
    now rewrite Hnone, Href.
  - apply add_repo_found.
    rewrite scan_plain.
    + f_equal. apply existsb_exists. exists name. split; [| assumption].
      unfold p1. rewrite sections_with_section. apply in_or_app.
      right. now left.
    + apply percent_free_with_section; [assumption |].
      now apply new_section_options_percent_free.
    + apply incl_refl.
Qed.

(** A URL that is referenced already: [add_repo] returns [True] and adds
    nothing. *)
Lemma add_repo_already_present (fuel : nat) (url : string)
      (opt_params : dict) (s : State) (p : CP.t) :
  config_of s = Some p ->
  percent_free p = true ->
  referencing p url <> [] ->
  add_repo env fuel url opt_params s
  = (Ret true, st_of (self s) p (world s)).
Proof.
  intros Hcfg Hp Hsome.
  rewrite (add_repo_load env fuel url opt_params s p Hcfg).
  apply add_repo_found. rewrite scan_plain by (assumption || apply incl_refl).
  f_equal. destruct (existsb (references p url) (CP.sections p)) eqn:E;
    [reflexivity |].
  elim Hsome. now apply referencing_nil.
Qed.

End AddRepoTwice.

Lemma add_repo_twice_witness :
  let env := sample_env 0 false in
  let s := sample_state (Ini one_repo) in
  let url := "http://mirror/extras" in
  let opt_params := [("priority", "1")] in
  (config_of s = Some one_repo
   /\ percent_free one_repo = true
   /\ has_percent url = false
   /\ percent_free_dict opt_params = true
   /\ keeps_baseurl opt_params = true
   /\ referencing one_repo url = []
   /\ rejected env one_repo (now (world s)) 3 = Some 0)
  /\ exists s1 p1,
      add_repo env 3 url opt_params s = (Ret true, s1)
      /\ config_of s1 = Some p1
      /\ CP.sections p1 = ["base"; "software_manager_k3Fq"]
      /\ referencing p1 url = ["software_manager_k3Fq"]
      /\ add_repo env 3 url opt_params s1 = (Ret true, s1).
Proof.
  intros env s url opt_params.
  split; [repeat split |].
  destruct (add_repo_twice env 3 0 url opt_params s one_repo
              eq_refl eq_refl eq_refl eq_refl eq_refl eq_refl eq_refl)
    as (s1 & p1 & H1 & H2 & _ & H4 & H5 & H6).
  exists s1, p1. repeat split; assumption.
Defined.

(** A URL that the configuration lists already: both calls return [True]
    and the configuration gains no section. *)
Lemma add_repo_twice_existing_url :
  let env := sample_env 0 false in
  let s := sample_state (Ini one_repo) in
  let url := "http://mirror/os" in
  let first := add_repo env 3 url [] s in
  let second := add_repo env 3 url [] (snd first) in
  config_of s = Some one_repo
  /\ referencing one_repo url = ["base"]
  /\ fst first = Ret true
  /\ fst second = Ret true
  /\ config_of (snd second) = Some one_repo
  /\ world (snd second) = world s.
Proof.
  repeat split.
Qed.

(** ** Names of new sections *)

Section SectionNames.

Variable env : Env.
Variable l : list string.

Lemma keeps_ret {A} (a : A) : keeps l (ret a).
Proof. intros s H. exact H. Qed.

Lemma keeps_bind {A B} (m : M A) (k : A -> M B) :
  keeps l m -> (forall a, keeps l (k a)) -> keeps l (bind m k).
Proof.
  intros Hm Hk s H. unfold bind. specialize (Hm s H).
  destruct (m s) as [[a|e|] s']; simpl in Hm; try assumption.
  now apply Hk.
Qed.

Lemma keeps_try_except {A} (m : M A) (c : exn -> bool) (h : exn -> M A) :
  keeps l m -> (forall e, keeps l (h e)) -> keeps l (try_except m c h).
Proof.
  intros Hm Hh s H. unfold try_except. specialize (Hm s H).
  destruct (m s) as [[a|e|] s']; simpl in Hm; try assumption.
  destruct (c e); [now apply Hh | assumption].
Qed.

Lemma keeps_try_finally {A} (m : M A) (f : M unit) :
  keeps l m -> keeps l f -> keeps l (try_finally m f).
Proof.
  intros Hm Hf s H. unfold try_finally. specialize (Hm s H).
  destruct (m s) as [[a|e|] s']; simpl in Hm; try assumption;
    specialize (Hf s' Hm); destruct (f s') as [[u|e'|] s'']; assumption.
Qed.

(** A call that does not touch the object. *)
Lemma keeps_outside {A} (m : M A) :
  (forall s, self (snd (m s)) = self s) -> keeps l m.
Proof.
  intros Hm s (p & Hp & Hl). exists p. now rewrite Hm.
Qed.

Lemma keeps_os_call {A} (effect : World -> A * World) :
  keeps l (os_call env effect).
Proof.
  apply keeps_outside. intros s. unfold os_call.
  destruct (os_fault env (now (world s))); [reflexivity |].
  now destruct (effect (world s)).
Qed.

Lemma keeps_process_system (command : string) :
  keeps l (process_system env command).
Proof. now apply keeps_outside. Qed.

Lemma keeps_parser : keeps l repo_config_parser.
Proof.
  intros s (p & Hp & Hl). unfold repo_config_parser, bind, get_self.
  rewrite Hp. exists p. auto.
Qed.

Lemma parser_loaded (s : State) (p : CP.t) :
  _cfgparser (self s) = Some p -> repo_config_parser s = (Ret p, s).
Proof.
  intros Hp. unfold repo_config_parser, bind, get_self. now rewrite Hp.
Qed.

Lemma keeps_parser_set (section k v : string) :
  keeps l (parser_set section k v).
Proof.
  intros s (p & Hp & Hl). unfold parser_set, bind.
  rewrite (parser_loaded s p Hp).
  destruct (CP.set p section k v) as [p'|e] eqn:E; simpl.
  - exists p'. split; [reflexivity |].
    now rewrite (set_sections p p' section k v E).
  - exists p. auto.
Qed.

Lemma keeps_set_options (section : string) (options : dict) :
  keeps l (set_options section options).
Proof.
  induction options as [|[k v] rest IH]; simpl.
  - apply keeps_ret.
  - apply keeps_bind; [apply keeps_parser_set | intros _; exact IH].
Qed.

Lemma keeps_write_and_copy (tmp : string) : keeps l (write_and_copy env tmp).
Proof.
  unfold write_and_copy, file_write, file_flush, copy_to_repo_file.
  apply keeps_bind; [apply keeps_parser | intros p].
  apply keeps_bind; [apply keeps_os_call | intros _].
  apply keeps_bind; [apply keeps_os_call | intros _].
  apply keeps_bind; [apply keeps_process_system | intros _].
  now apply keeps_outside.
Qed.

Lemma keeps_with_NamedTemporaryFile {A} (body : string -> M A) :
  (forall tmp, keeps l (body tmp)) ->
  keeps l (with_NamedTemporaryFile env body).
Proof.
  intros Hb. unfold with_NamedTemporaryFile, NamedTemporaryFile, file_close.
  apply keeps_bind; [apply keeps_os_call |]. intros tmp.
  apply keeps_try_finally; [apply Hb | apply keeps_os_call].
Qed.

End SectionNames.

Section FreshNames.

Variable env : Env.

Lemma try_except_bind_ret {A B} (m : M A) (k : A -> M B) (c : exn -> bool)
      (h : exn -> M B) (s s' : State) (a : A) :
  m s = (Ret a, s') ->
  try_except (bind m k) c h s = try_except (k a) c h s'.
Proof.
  intros E. unfold try_except, bind. now rewrite E.
Qed.

(** Enough fuel: when one of the first [fuel] names drawn is free, the
    name loop stops. *)
Lemma rejected_some (p : CP.t) (t fuel k : nat) :
  k < fuel ->
  CP.has_section p (candidate env (k + t)) = false ->
  exists j, rejected env p t fuel = Some j /\ j <= k.
Proof.
  revert t k. induction fuel as [|fuel IH]; intros t k Hk Hfree; [lia |].
  simpl. destruct (CP.has_section p (candidate env t)) eqn:E; simpl.
  - destruct k as [|k]; [simpl in Hfree; congruence |].
    destruct (IH (S t) k) as (j & -> & Hj); [lia | |].
    + now replace (k + S t) with (S k + t) by lia.
    + exists (S j). split; [reflexivity | lia].
  - exists 0. split; [reflexivity | lia].
Qed.

Lemma rejected_taken (p : CP.t) (t fuel j : nat) :
  rejected env p t fuel = Some j ->
  j < fuel
  /\ forall i, i < j -> CP.has_section p (candidate env (i + t)) = true.
Proof.
  revert t j. induction fuel as [|fuel IH]; intros t j; simpl; [discriminate |].
  destruct (CP.has_section p (candidate env t)) eqn:E; simpl.
  - destruct (rejected env p (S t) fuel) as [j'|] eqn:R; simpl; [| discriminate].
    intros H. injection H as <-. destruct (IH (S t) j' R) as [Hlt Hall].
    split; [lia |]. intros [|i] Hi; [exact E |].
    replace (S i + t) with (i + S t) by lia. apply Hall. lia.
  - intros H. injection H as <-. split; [lia |]. intros i Hi. lia.
Qed.

(** The first free name within the fuel is where the count stops. *)
Lemma rejected_first (p : CP.t) (t fuel j : nat) :
  j < fuel ->
  CP.has_section p (candidate env (j + t)) = false ->
  (forall i, i < j -> CP.has_section p (candidate env (i + t)) = true) ->
  rejected env p t fuel = Some j.
Proof.
  intros Hj Hfree Htaken.
  destruct (rejected_some p t fuel j Hj Hfree) as (j' & R & Hle).
  rewrite R. f_equal.
  destruct (Nat.eq_dec j' j) as [E | N]; [exact E |].
  pose proof (rejected_fresh env p t fuel j' R) as F.
  rewrite (Htaken j') in F by lia. discriminate F.
Qed.

Lemma rejected_none (p : CP.t) (t fuel : nat) :
  (forall i, i < fuel -> CP.has_section p (candidate env (i + t)) = true) ->
  rejected env p t fuel = None.
Proof.
  intros Htaken. destruct (rejected env p t fuel) as [j|] eqn:R; [| reflexivity].
  pose proof (rejected_fresh env p t fuel j R) as F.
  destruct (rejected_taken p t fuel j R) as [Hlt _].
  rewrite (Htaken j Hlt) in F. discriminate F.
Qed.

(** Once the search has found nothing and the loop has given a name, the
    sections are the old ones followed by that name, however the rest of
    [add_repo] goes. *)
Lemma add_repo_appends (fuel j : nat) (url : string) (opt_params : dict)
      (b : YumBackend) (p : CP.t) (w : World) :
  scan p url (CP.sections p) = Ok false ->
  rejected env p (now w) fuel = Some j ->
  sections_are (CP.sections p ++ [candidate env (j + now w)])
               (snd (add_repo env fuel url opt_params (st_of b p w))).
Proof.
  intros Hscan Hrej.
  unfold add_repo, bind at 1. rewrite parser_of_st.
  unfold bind at 1. rewrite scan_sections_spec, Hscan.
  unfold bind at 1. rewrite new_section_name_spec, Hrej.
  pose proof (rejected_fresh env p (now w) fuel j Hrej) as Hfresh.
  set (name := candidate env (j + now w)) in *.
  erewrite try_except_bind_ret;
    [| rewrite parser_add_section_spec, add_section_fresh;
       [reflexivity | apply candidate_not_default | assumption]].
  apply keeps_try_except.
  - apply keeps_bind; [apply keeps_parser_set | intros _].
    apply keeps_bind; [apply keeps_parser_set | intros _].
    apply keeps_bind; [apply keeps_set_options | intros _].
    apply keeps_bind; [| intros _; apply keeps_ret].
    apply keeps_with_NamedTemporaryFile. intros tmp.
    apply keeps_write_and_copy.
  - intros e. apply keeps_ret.
  - exists (with_section p name []). split; [reflexivity |].
    apply sections_with_section.
Qed.

(** C6: the name loop of [add_repo] ends only on a name that is no section
    of the configuration, and it does end, on the first such name among
    those drawn: when the [j]-th name drawn is free and the ones before it
    are taken, the loop gives that name, and an [add_repo] that has not
    found the URL leaves the old sections followed by one section of that
    name, however the rest of the call goes.  While every name drawn is
    taken the loop goes on.  Whatever the URL and the options, the
    sections [add_repo] leaves are the old ones, or the old ones followed
    by one generated name that was none of them. *)
Theorem add_repo_section_name_is_new (fuel : nat) (url : string)
        (opt_params : dict) (s : State) (p : CP.t) :
  config_of s = Some p ->
  let t0 := now (world s) in
  let loop := new_section_name env fuel (st_of (self s) p (world s)) in
  let r := add_repo env fuel url opt_params s in
  (forall name,
      fst loop = Ret name ->
      CP.has_section p name = false /\ ~ In name (CP.sections p))
  /\ (forall j,
        j < fuel ->
        CP.has_section p (candidate env (j + t0)) = false ->
        (forall i, i < j ->
                   CP.has_section p (candidate env (i + t0)) = true) ->
        fst loop = Ret (candidate env (j + t0))
        /\ (scan p url (CP.sections p) = Ok false ->
            exists p',
              config_of (snd r) = Some p'
              /\ CP.sections p' = CP.sections p ++ [candidate env (j + t0)]))
  /\ ((forall i, i < fuel ->
                 CP.has_section p (candidate env (i + t0)) = true) ->
      fst loop = OutOfFuel)
  /\ exists p',
      config_of (snd r) = Some p'
      /\ (CP.sections p' = CP.sections p
          \/ exists t,
               t0 <= t
               /\ CP.has_section p (candidate env t) = false
               /\ ~ In (candidate env t) (CP.sections p)
               /\ CP.sections p' = CP.sections p ++ [candidate env t]).
Proof.
  intros Hcfg t0 loop r. unfold loop, r, t0.
  rewrite (add_repo_load env fuel url opt_params s p Hcfg).
  generalize (self s) (world s). intros b w.
  rewrite new_section_name_spec.
  split; [| split; [| split]].
  - intros name.
    destruct (rejected env p (now w) fuel) as [j|] eqn:Hrej;
      [| discriminate].
    intros H. injection H as <-.
    pose proof (rejected_fresh env p (now w) fuel j Hrej) as Hfresh.
    split; [exact Hfresh | now apply has_section_not_In].
  - intros j Hj Hfree Htaken.
    pose proof (rejected_first p (now w) fuel j Hj Hfree Htaken) as Hrej.
    rewrite Hrej. split; [reflexivity |]. intros Hscan.
    destruct (add_repo_appends fuel j url opt_params b p w Hscan Hrej)
      as (p' & Hp' & Hl).
    exists p'. split; [| exact Hl]. unfold config_of. now rewrite Hp'.
  - intros Htaken. now rewrite (rejected_none p (now w) fuel Htaken).
  - destruct (scan p url (CP.sections p)) as [[|]|e] eqn:Hscan.
    + exists p. split; [| now left].
      now rewrite (add_repo_found env fuel url opt_params b p w Hscan).
    + destruct (rejected env p (now w) fuel) as [j|] eqn:Hrej.
      * destruct (add_repo_appends fuel j url opt_params b p w Hscan Hrej)
          as (p' & Hp' & Hl).
        exists p'. split; [unfold config_of; now rewrite Hp' |].
        right. exists (j + now w).
        pose proof (rejected_fresh env p (now w) fuel j Hrej) as Hfresh.
        repeat split; try assumption; try lia.
        now apply has_section_not_In.
      * exists p. split; [| now left].
        unfold add_repo, bind at 1. rewrite parser_of_st.
        unfold bind at 1. rewrite scan_sections_spec, Hscan.
        unfold bind at 1. now rewrite new_section_name_spec, Hrej.
    + exists p. split; [| now left].
      unfold add_repo, bind at 1. rewrite parser_of_st.
      unfold bind at 1. now rewrite scan_sections_spec, Hscan.
Qed.

End FreshNames.

(** ** Removing a repository *)

Section RemoveRepo.

Variable env : Env.

Lemma parser_remove_section_spec (section : string) (b : YumBackend)
      (p : CP.t) (w : World) :
  parser_remove_section section (st_of b p w)
  = (Ret (CP.has_section p section), st_of b (prune (String.eqb section) p) w).
Proof. reflexivity. Qed.

Lemma prune_ext (f g : string -> bool) (p : CP.t) :
  (forall x, g x = f x) -> prune g p = prune f p.
Proof.
  intros H. unfold prune. f_equal. apply filter_ext. intros [n d]. simpl.
  now rewrite H.
Qed.

Lemma prune_prune (f g : string -> bool) (p : CP.t) :
  prune g (prune f p) = prune (fun x => f x || g x) p.
Proof.
  unfold prune. simpl. f_equal.
  induction (CP.sects p) as [|[n d] r IH]; simpl; [reflexivity |].
  destruct (f n); simpl; [exact IH |].
  destruct (g n); simpl; now rewrite IH.
Qed.

Lemma prune_none (p : CP.t) : prune (fun _ => false) p = p.
Proof.
  destruct p as [df sc]. unfold prune. simpl. f_equal.
  induction sc as [|sd r IH]; simpl; [reflexivity | now rewrite IH].
Qed.

Lemma remove_if_match_spec (url section : string) (its : dict)
      (b : YumBackend) (p : CP.t) (w : World) :
  remove_if_match url section its (st_of b p w)
  = (Ret tt,
     st_of b (if matches_url url its then prune (String.eqb section) p else p)
           w).
Proof.
  revert p. induction its as [|[o v] rest IH]; intros p; [reflexivity |].
  cbn [remove_if_match]. unfold matches_url. cbn [existsb fst snd].
  fold (matches_url url rest).
  destruct (String.eqb o "baseurl" && String.eqb v url).
  - unfold bind at 1. unfold bind at 1.
    rewrite parser_remove_section_spec. unfold ret at 1.
    rewrite IH. cbn [orb].
    destruct (matches_url url rest); [| reflexivity].
    rewrite prune_prune. f_equal. f_equal. apply prune_ext.
    intros x. now destruct (String.eqb section x).
  - unfold bind at 1. unfold ret at 1. rewrite IH. reflexivity.
Qed.

(** No section matches: the loop changes nothing. *)
Lemma remove_sections_unmatched (url : string) (secs : list string)
      (b : YumBackend) (p : CP.t) (w : World) :
  (forall s, In s secs -> unmatched p url s) ->
  remove_sections url secs (st_of b p w) = (Ret tt, st_of b p w).
Proof.
  induction secs as [|s rest IH]; intros H; [reflexivity |].
  cbn [remove_sections]. unfold bind at 1. rewrite parser_of_st.
  destruct (H s (or_introl eq_refl)) as (its & Hits & Hm).
  unfold bind at 1. rewrite Hits. unfold lift, ret at 1.
  unfold bind at 1. rewrite remove_if_match_spec, Hm.
  apply IH. intros x Hx. apply H. now right.
Qed.

Lemma find_section_filter (f : string -> bool) (s : string)
      (l : list (string * dict)) :
  f s = false ->
  CP.find_section s (filter (fun sd => negb (f (fst sd))) l)
  = CP.find_section s l.
Proof.
  intros Hf. induction l as [|[n d] r IH]; simpl; [reflexivity |].
  destruct (String.eqb s n) eqn:E.
  - apply String.eqb_eq in E. subst n. rewrite Hf. simpl.
    now rewrite String.eqb_refl.
  - destruct (f n); simpl; [exact IH | now rewrite E, IH].
Qed.

Lemma raw_items_prune (f : string -> bool) (p : CP.t) (s : string) :
  f s = false -> CP.raw_items (prune f p) s = CP.raw_items p s.
Proof.
  intros Hf. unfold CP.raw_items, prune. simpl.
  now rewrite find_section_filter.
Qed.

Lemma percent_free_prune (f : string -> bool) (p : CP.t) :
  percent_free p = true -> percent_free (prune f p) = true.
Proof.
  unfold percent_free, prune. simpl. intros H.
  apply andb_prop in H. destruct H as [H1 H2]. rewrite H1. simpl.
  induction (CP.sects p) as [|[n d] r IH]; simpl in *; [reflexivity |].
  apply andb_prop in H2. destruct H2 as [Hd Hr].
  destruct (f n); simpl; [now apply IH | rewrite Hd; now apply IH].
Qed.

(** The loop removes, among [secs], the sections that reference the
    URL; [f] tells the sections removed before. *)
Lemma remove_sections_spec (url : string) (secs : list string)
      (b : YumBackend) (p : CP.t) (w : World) (f g : string -> bool) :
  percent_free p = true ->
  distinct secs = true ->
  incl secs (CP.sections p) ->
  (forall s, In s secs -> f s = false) ->
  (forall x, g x = f x || (existsb (String.eqb x) secs && references p url x)) ->
  remove_sections url secs (st_of b (prune f p) w)
  = (Ret tt, st_of b (prune g p) w).
Proof.
  intros Hp. revert f g.
  induction secs as [|s rest IH]; intros f g Hd Hin Hf Hg.
  - cbn [remove_sections]. unfold ret.
    rewrite (prune_ext f g p); [reflexivity |].
    intros x. rewrite Hg. simpl. apply orb_false_r.
  - cbn [remove_sections]. unfold bind at 1. rewrite parser_of_st.
    unfold bind at 1.
    rewrite (items_plain _ s (percent_free_prune f p Hp)).
    rewrite raw_items_prune by (apply Hf; now left).
    destruct (raw_items_section p s (Hin s (or_introl eq_refl))) as [d Hraw].
    rewrite Hraw. unfold lift, ret at 1.
    unfold bind at 1. rewrite remove_if_match_spec.
    simpl in Hd. apply andb_prop in Hd. destruct Hd as [Hs Hd].
    apply negb_true_iff in Hs.
    assert (Hrest : forall x, In x rest -> String.eqb s x = false).
    { intros x Hx. destruct (String.eqb s x) eqn:E; [| reflexivity].
      rewrite <- Hs. symmetry. apply existsb_exists. eauto. }
    assert (Href : references p url s = matches_url url d)
      by (unfold references; now rewrite Hraw).
    set (f' := fun x => f x || (String.eqb s x && references p url s)).
    assert (Hp' : (if matches_url url d
                   then prune (String.eqb s) (prune f p) else prune f p)
                  = prune f' p).
    { rewrite <- Href. unfold f'. destruct (references p url s).
      - rewrite prune_prune. apply prune_ext. intros x.
        now rewrite andb_true_r.
      - apply prune_ext. intros x. now rewrite andb_false_r, orb_false_r. }
    rewrite Hp'. apply (IH f' g); try assumption.
    + intros x Hx. apply Hin. now right.
    + intros x Hx. unfold f'. rewrite (Hf x) by now right.
      now rewrite (Hrest x Hx).
    + intros x. rewrite Hg. unfold f'. cbn [existsb].
      rewrite (String.eqb_sym x s).
      destruct (String.eqb_spec s x) as [<- | Hne]; simpl.
      * destruct (f s), (references p url s); simpl; try reflexivity.
        now rewrite andb_false_r.
      * now rewrite orb_false_r.
Qed.

Lemma sections_prune (f : string -> bool) (p : CP.t) :
  CP.sections (prune f p) = filter (fun s => negb (f s)) (CP.sections p).
Proof.
  unfold CP.sections, prune. simpl.
  induction (CP.sects p) as [|[n d] r IH]; simpl; [reflexivity |].
  destruct (f n); simpl; now rewrite IH.
Qed.

(** Once the referencing sections are removed, none is left. *)
Lemma referencing_prune (p : CP.t) (url : string) (g : string -> bool) :
  (forall x, In x (CP.sections p) -> g x = references p url x) ->
  referencing (prune g p) url = [].
Proof.
  intros Hg. unfold referencing. rewrite sections_prune.
  induction (CP.sections p) as [|s r IH]; simpl; [reflexivity |].
  destruct (g s) eqn:E; simpl.
  - apply IH. intros x Hx. apply Hg. now right.
  - unfold references at 1. rewrite raw_items_prune by assumption.
    fold (references p url s). rewrite <- (Hg s) by now left.
    rewrite E. apply IH. intros x Hx. apply Hg. now right.
Qed.

End RemoveRepo.

Section RemoveRepoOutcome.

Variable env : Env.

Lemma config_of_world (b : YumBackend) (w w' : World) :
  repo_file w' = repo_file w ->
  config_of (mkState b w') = config_of (mkState b w).
Proof.
  intros H. unfold config_of. simpl. now rewrite H.
Qed.

Lemma write_succeeds_false (t : nat) :
  write_succeeds env t = false ->
  os_fault env t = true
  \/ os_fault env (1 + t) = true
  \/ os_fault env (2 + t) = true
  \/ exit_status env (3 + t) (copy_command (tmp_name env t)) <> 0%Z
  \/ os_fault env (4 + t) = true.
Proof.
  unfold write_succeeds.
  destruct (os_fault env t); [auto |].
  destruct (os_fault env (1 + t)); [auto |].
  destruct (os_fault env (2 + t)); [auto |].
  destruct (os_fault env (4 + t)); [auto 6 |].
  simpl. rewrite andb_true_r. intros H. apply Z.eqb_neq in H. auto 6.
Qed.

(** [remove_repo] around a loop that turns the parser [p] into [p']. *)
Lemma remove_repo_with (url : string) (s : State) (p p' : CP.t) :
  config_of s = Some p ->
  (forall b w,
      remove_sections url (CP.sections p) (st_of b p w)
      = (Ret tt, st_of b p' w)) ->
  let t := now (world s) in
  exists s',
    remove_repo env url s = (Ret (write_succeeds env t), s')
    /\ config_of s' = Some (if os_fault env t then p else p')
    /\ (write_succeeds env t = true -> world s' = written env p' (world s)).
Proof.
  intros Hcfg Hloop t. unfold remove_repo, try_except.
  match goal with
  | |- context [with_NamedTemporaryFile env ?body s] =>
      destruct (with_tmpfile_write_from env body true s (self s) p')
        as (out & s' & E & Hs & Hok & Hfail)
  end.
  { intros tmp w1 Hw. unfold bind at 1.
    rewrite (parser_load (mkState (self s) w1) p)
      by (rewrite (config_of_world (self s) (world s) w1 Hw);
          now destruct s).
    cbn [self world]. unfold bind at 1. rewrite Hloop.
    unfold bind.
    destruct (write_and_copy env tmp (st_of (self s) p' w1)) as [[u|e|] s''];
      reflexivity. }
  rewrite E. fold t in Hs, Hok, Hfail.
  assert (Hc : config_of s' = Some (if os_fault env t then p else p')).
  { destruct (os_fault env t).
    - subst s'. rewrite (config_of_world (self s) (world s)) by reflexivity.
      now destruct s.
    - now destruct Hs as (w' & -> & _). }
  destruct (write_succeeds env t) eqn:W.
  - rewrite (Hok eq_refl). exists s'. split; [reflexivity |].
    split; [assumption |]. intros _.
    assert (F : os_fault env t = false).
    { unfold write_succeeds in W. now destruct (os_fault env t). }
    rewrite F in Hs. destruct Hs as (w' & -> & Hw). now apply Hw.
  - exists s'. split; [| split; [assumption | discriminate]].
    destruct (Hfail eq_refl) as [-> | ->]; reflexivity.
Qed.

(** C10: when no section of a readable configuration references the URL,
    [remove_repo] still writes the configuration, unchanged, and copies
    it into place, and it returns [True]; it returns [False] only if one
    of the external calls fails with an OS error or a nonzero exit
    status. *)
Theorem remove_repo_without_match (url : string) (s : State) (p : CP.t) :
  config_of s = Some p ->
  (forall section, In section (CP.sections p) -> unmatched p url section) ->
  let t := now (world s) in
  exists s',
    remove_repo env url s = (Ret (write_succeeds env t), s')
    /\ config_of s' = Some p
    /\ (write_succeeds env t = true ->
        cmds (world s') = cmds (world s) ++ [copy_command (tmp_name env t)]
        /\ repo_file (world s') = Ini p)
    /\ (write_succeeds env t = false ->
        os_fault env t = true
        \/ os_fault env (1 + t) = true
        \/ os_fault env (2 + t) = true
        \/ exit_status env (3 + t) (copy_command (tmp_name env t)) <> 0%Z
        \/ os_fault env (4 + t) = true).
Proof.
  intros Hcfg Hnone t.
  destruct (remove_repo_with url s p p Hcfg) as (s' & E & Hc & Hw).
  { intros b w. now apply remove_sections_unmatched. }
  exists s'. split; [exact E |]. split; [| split].
  - rewrite Hc. now destruct (os_fault env (now (world s))).
  - intros H. rewrite (Hw H). split; reflexivity.
  - apply write_succeeds_false.
Qed.

Lemma distinct_app_new (l : list string) (x : string) :
  distinct l = true -> ~ In x l -> distinct (l ++ [x]) = true.
Proof.
  induction l as [|y r IH]; simpl; intros Hd Hx; [reflexivity |].
  apply andb_prop in Hd. destruct Hd as [Hy Hr].
  rewrite IH by tauto. rewrite andb_true_r.
  rewrite existsb_app. simpl. rewrite orb_false_r.
  apply negb_true_iff in Hy. rewrite Hy. simpl.
  destruct (String.eqb_spec y x) as [-> | Hne]; [| reflexivity].
  elim Hx. now left.
Qed.

Lemma add_repo_timeout (fuel : nat) (url : string) (opt_params : dict)
      (b : YumBackend) (p : CP.t) (w : World) :
  scan p url (CP.sections p) = Ok false ->
  rejected env p (now w) fuel = None ->
  add_repo env fuel url opt_params (st_of b p w)
  = (OutOfFuel, st_of b p (advance fuel w)).
Proof.
  intros Hscan Hrej. unfold add_repo, bind at 1. rewrite parser_of_st.
  unfold bind at 1. rewrite scan_sections_spec, Hscan.
  unfold bind at 1. now rewrite new_section_name_spec, Hrej.
Qed.

(** What a returning [add_repo] leaves, when nothing holds a percent
    sign. *)
Lemma add_repo_returns_plain (fuel : nat) (url : string) (opt_params : dict)
      (s s1 : State) (p : CP.t) (r1 : bool) :
  config_of s = Some p ->
  percent_free p = true ->
  distinct (CP.sections p) = true ->
  has_percent url = false ->
  percent_free_dict opt_params = true ->
  add_repo env fuel url opt_params s = (Ret r1, s1) ->
  exists p1,
    config_of s1 = Some p1
    /\ percent_free p1 = true
    /\ distinct (CP.sections p1) = true.
Proof.
  intros Hcfg Hp Hd Hu Ho.
  rewrite (add_repo_load env fuel url opt_params s p Hcfg).
  pose proof (scan_plain p url (CP.sections p) Hp (incl_refl _)) as Hscan.
  destruct (existsb (references p url) (CP.sections p)).
  - rewrite add_repo_found by assumption. intros H. injection H as _ <-.
    exists p. auto.
  - destruct (rejected env p (now (world s)) fuel) as [j|] eqn:Hrej.
    + destruct (add_repo_new env fuel j url opt_params (self s) p (world s)
                  Ho Hu Hscan Hrej) as (w' & E & _).
      rewrite E. intros H. injection H as _ <-.
      eexists. split; [reflexivity |]. split.
      * apply percent_free_with_section; [assumption |].
        now apply new_section_options_percent_free.
      * rewrite sections_with_section. apply distinct_app_new; [assumption |].
        apply has_section_not_In. eapply rejected_fresh; eassumption.
    + rewrite add_repo_timeout by assumption. discriminate.
Qed.

(** X23: with no percent sign in the URL, the options or the
    configuration, once [add_repo] has returned, [remove_repo] for the
    same URL, when it can create its temporary file, leaves no section
    whose [baseurl] is the URL; it returns [True] exactly when the
    configuration could be written and copied, and the repository file
    then holds that configuration. *)
Theorem remove_repo_after_add_repo (fuel : nat) (url : string)
        (opt_params : dict) (s s1 : State) (p : CP.t) (r1 : bool) :
  config_of s = Some p ->
  percent_free p = true ->
  distinct (CP.sections p) = true ->
  has_percent url = false ->
  percent_free_dict opt_params = true ->
  add_repo env fuel url opt_params s = (Ret r1, s1) ->
  os_fault env (now (world s1)) = false ->
  exists s2 p2,
    remove_repo env url s1 = (Ret (write_succeeds env (now (world s1))), s2)
    /\ config_of s2 = Some p2
    /\ referencing p2 url = []
    /\ (write_succeeds env (now (world s1)) = true ->
        repo_file (world s2) = Ini p2).
Proof.
  intros Hcfg Hp Hd Hu Ho Hadd Hos.
  destruct (add_repo_returns_plain fuel url opt_params s s1 p r1
              Hcfg Hp Hd Hu Ho Hadd) as (p1 & Hcfg1 & Hp1 & Hd1).
  set (g := fun x => existsb (String.eqb x) (CP.sections p1)
                     && references p1 url x).
  destruct (remove_repo_with url s1 p1 (prune g p1) Hcfg1)
    as (s2 & E & Hc & Hw).
  { intros b w. rewrite <- (prune_none p1) at 2.
    apply remove_sections_spec; try assumption.
    - apply incl_refl.
    - reflexivity.
    - intros x. reflexivity. }
  exists s2, (prune g p1). rewrite Hos in Hc.
  split; [exact E |]. split; [exact Hc |]. split.
  - apply referencing_prune. intros x Hx. unfold g.
    assert (Hin : existsb (String.eqb x) (CP.sections p1) = true)
      by (apply existsb_exists; exists x; split;
          [assumption | apply String.eqb_refl]).
    now rewrite Hin.
  - intros H. now rewrite (Hw H).
Qed.

End RemoveRepoOutcome.

(** ** Instances *)

Lemma add_repo_section_name_is_new_witness :
  let env := sample_env 0 false in
  let p := CP.mk [] [("software_manager_k3Fq", [("name", "Taken")])] in
  let s := sample_state (Ini p) in
  let url := "http://mirror/extras" in
  (config_of s = Some p
   /\ 1 < 3
   /\ CP.has_section p (candidate env (1 + now (world s))) = false
   /\ (forall i, i < 1 ->
                 CP.has_section p (candidate env (i + now (world s))) = true)
   /\ scan p url (CP.sections p) = Ok false)
  /\ fst (new_section_name env 3 (st_of (self s) p (world s)))
     = Ret "software_manager_Zx09"
  /\ exists p',
      config_of (snd (add_repo env 3 url [] s)) = Some p'
      /\ CP.sections p' = CP.sections p ++ ["software_manager_Zx09"].
Proof.
  intros env p s url.
  assert (H1 : 1 < 3) by lia.
  assert (H2 : CP.has_section p (candidate env (1 + now (world s))) = false)
    by (vm_compute; reflexivity).
  assert (H3 : forall i, i < 1 ->
               CP.has_section p (candidate env (i + now (world s))) = true).
  { intros i Hi. replace i with 0 by lia. vm_compute. reflexivity. }
  assert (H4 : scan p url (CP.sections p) = Ok false)
    by (vm_compute; reflexivity).
  split; [split; [reflexivity | repeat split; assumption] |].
  destruct (proj1 (proj2 (add_repo_section_name_is_new env 3 url [] s p
                            eq_refl)) 1 H1 H2 H3) as [Hloop Hadd].
  split; [exact Hloop | exact (Hadd H4)].
Defined.

Lemma remove_repo_without_match_witness :
  let env := sample_env 0 false in
  let s := sample_state (Ini one_repo) in
  let url := "http://mirror/extras" in
  (config_of s = Some one_repo
   /\ forall section,
       In section (CP.sections one_repo) -> unmatched one_repo url section)
  /\ exists s',
      remove_repo env url s = (Ret true, s')
      /\ config_of s' = Some one_repo
      /\ cmds (world s')
         = ["cp /tmp/avocado_software_managerk3Fq "
            +++ "/etc/yum.repos.d/avocado-managed.repo"]
      /\ repo_file (world s') = Ini one_repo.
Proof.
  intros env s url.
  assert (Hnone : forall section,
             In section (CP.sections one_repo) ->
             unmatched one_repo url section).
  { intros section [<- | []]. eexists. split; reflexivity. }
  split; [split; [reflexivity | exact Hnone] |].
  destruct (remove_repo_without_match env url s one_repo eq_refl Hnone)
    as (s' & E & Hc & Hw & _).
  assert (W : write_succeeds env (now (world s)) = true) by reflexivity.
  rewrite W in E. destruct (Hw W) as [Hcmd Hfile].
  exists s'. split; [exact E |]. split; [exact Hc |].
  split; [exact Hcmd | exact Hfile].
Defined.

Lemma remove_repo_after_add_repo_witness :
  let env := sample_env 0 false in
  let s := sample_state (Ini one_repo) in
  let url := "http://mirror/extras" in
  let s1 := snd (add_repo env 3 url [] s) in
  (config_of s = Some one_repo
   /\ percent_free one_repo = true
   /\ distinct (CP.sections one_repo) = true
   /\ has_percent url = false
   /\ add_repo env 3 url [] s = (Ret true, s1)
   /\ os_fault env (now (world s1)) = false)
  /\ exists s2 p2,
      remove_repo env url s1 = (Ret true, s2)
      /\ config_of s2 = Some p2
      /\ referencing p2 url = []
      /\ repo_file (world s2) = Ini p2.
Proof.
  intros env s url s1.
  assert (Hadd : add_repo env 3 url [] s = (Ret true, s1))
    by (vm_compute; reflexivity).
  assert (Hos : os_fault env (now (world s1)) = false) by reflexivity.
  split.
  { split; [reflexivity |]. split; [reflexivity |]. split; [reflexivity |].
    split; [reflexivity |]. split; [exact Hadd | exact Hos]. }
  destruct (remove_repo_after_add_repo env 3 url [] s s1 one_repo true
              eq_refl eq_refl eq_refl eq_refl eq_refl Hadd Hos)
    as (s2 & p2 & E & Hc & Hr & Hw).
  assert (W : write_succeeds env (now (world s1)) = true) by reflexivity.
  rewrite W in E. exists s2, p2.
  split; [exact E |]. split; [exact Hc |]. split; [exact Hr | exact (Hw W)].
Defined.

(** When the temporary file cannot be created, [remove_repo] returns
    [False] and removes nothing: the section that [add_repo] made for the
    URL is still there. *)
Lemma remove_repo_keeps_section_without_tmpfile :
  let env := faulty_env 6 in
  let s := sample_state Missing in
  let url := "http://mirror/extras" in
  let added := add_repo env 3 url [] s in
  let removed := remove_repo env url (snd added) in
  fst added = Ret true
  /\ fst removed = Ret false
  /\ option_map (fun p2 => referencing p2 url) (config_of (snd removed))
     = Some ["software_manager_k3Fq"].
Proof. closed. Qed.

(** *** Percent signs *)

(** A URL with a percent-encoded character is refused by [parser.set]: the
    [ValueError] leaves [add_repo], and a section without [baseurl] stays
    behind in the parser. *)
Example add_repo_percent_encoded_url :
  let r := add_repo (sample_env 0 false) 3 "http://mirror/my%20repo" []
                    (sample_state Missing) in
  fst r = Raise ValueError
  /\ config_of (snd r)
     = Some (CP.mk [] [("software_manager_k3Fq",
                        [("name", "Avocado managed repository")])]).
Proof. closed. Qed.

(** A URL with an escaped percent sign is stored as it is and read back
    interpolated, so that neither [add_repo] nor [remove_repo] recognises
    it afterwards. *)
Example add_repo_escaped_percent_url :
  let env := sample_env 0 false in
  let url := "http://mirror/a%%b" in
  let first := add_repo env 3 url [] (sample_state Missing) in
  let second := add_repo env 3 url [] (snd first) in
  let removed := remove_repo env url (snd second) in
  fst first = Ret true
  /\ fst second = Ret true
  /\ fst removed = Ret true
  /\ option_map (fun p => referencing p url) (config_of (snd removed))
     = Some ["software_manager_k3Fq"; "software_manager_w8Lp"].
Proof. closed. Qed.

(** C1: [add_repo] twice with a URL that holds a percent sign.  The parser
    is made with the default interpolation, so that [set] keeps
    [http://mirror/a%%b] as it is while [items] gives [http://mirror/a%b]:
    the search of the second call does not recognise the section of the
    first, and a second section with the same [baseurl] is added and
    written.  The percent-encoded [http://mirror/my%20repo] is refused by
    [set]: both calls raise [ValueError], each leaves a section without
    [baseurl] in the parser, and nothing is written. *)
Theorem add_repo_twice_percent_url :
  let env := sample_env 0 false in
  let s := sample_state (Ini one_repo) in
  let url := "http://mirror/a%%b" in
  let first := add_repo env 3 url [] s in
  let second := add_repo env 3 url [] (snd first) in
  let made := [("name", "Avocado managed repository"); ("baseurl", url);
               ("enabled", "1"); ("gpgcheck", "0")] in
  let twice := CP.mk [] (CP.sects one_repo
                         ++ [("software_manager_k3Fq", made);
                             ("software_manager_w8Lp", made)]) in
  let encoded := "http://mirror/my%20repo" in
  let first' := add_repo env 3 encoded [] s in
  let second' := add_repo env 3 encoded [] (snd first') in
  (fst first = Ret true
   /\ fst second = Ret true
   /\ config_of (snd second) = Some twice
   /\ repo_file (world (snd second)) = Ini twice)
  /\ (fst first' = Raise ValueError
      /\ fst second' = Raise ValueError
      /\ option_map (fun p => (CP.sections p, referencing p encoded))
                    (config_of (snd second'))
         = Some (["base"; "software_manager_k3Fq"; "software_manager_Zx09"],
                 [])
      /\ repo_file (world (snd second')) = Ini one_repo).
Proof. closed. Qed.

(** C2: [remove_repo] after [add_repo] with a URL that holds a percent
    sign.  [add_repo] stores and writes [baseurl=http://mirror/a%%b];
    [remove_repo] compares the URL with what [items] gives, which is
    [http://mirror/a%b], removes nothing and writes the section back: the
    configuration and the repository file still hold the section with the
    URL as its [baseurl]. *)
Theorem remove_repo_after_add_repo_percent_url :
  let env := sample_env 0 false in
  let s := sample_state (Ini one_repo) in
  let url := "http://mirror/a%%b" in
  let added := add_repo env 3 url [] s in
  let removed := remove_repo env url (snd added) in
  let made := [("name", "Avocado managed repository"); ("baseurl", url);
               ("enabled", "1"); ("gpgcheck", "0")] in
  let kept := with_section one_repo "software_manager_k3Fq" made in
  fst added = Ret true
  /\ fst removed = Ret true
  /\ config_of (snd removed) = Some kept
  /\ repo_file (world (snd removed)) = Ini kept
  /\ CP.find_section "software_manager_k3Fq" (CP.sects kept) = Some made
  /\ option_map (dict_get "baseurl")
                (match CP.items kept "software_manager_k3Fq" with
                 | Ok its => Some its
                 | Err _ => None
                 end)
     = Some (Some "http://mirror/a%b").
Proof. closed. Qed.

(** A caller option named [baseurl] replaces the URL of the new section. *)
Example add_repo_baseurl_option :
  let r := add_repo (sample_env 0 false) 3 "http://mirror/extras"
                    [("baseurl", "http://other")] (sample_state Missing) in
  fst r = Ret true
  /\ option_map (fun p => referencing p "http://mirror/extras")
                (config_of (snd r)) = Some []
  /\ option_map (fun p => referencing p "http://other") (config_of (snd r))
     = Some ["software_manager_k3Fq"].
Proof. closed. Qed.

(** * Further properties *)

#[local] Arguments String.append : simpl never.

(** ** Source package retrieval, all paths *)

Section GetSourcePaths.

Variable env : Env.

Lemma keeps_dirs_ret {A} (a : A) : keeps_dirs (ret a).
Proof. intros s. split; [discriminate | reflexivity]. Qed.

Lemma keeps_dirs_raise {A} (e : exn) : keeps_dirs (@raise A e).
Proof. intros s. split; [discriminate | reflexivity]. Qed.

Lemma keeps_dirs_bind {A B} (m : M A) (k : A -> M B) :
  keeps_dirs m -> (forall a, keeps_dirs (k a)) -> keeps_dirs (bind m k).
Proof.
  intros Hm Hk s. unfold bind. destruct (Hm s) as [Hf Hd].
  destruct (m s) as [[a|e|] s1]; simpl in *.
  - destruct (Hk a s1) as [Hf' Hd']. split; [assumption | congruence].
  - split; [discriminate | assumption].
  - now elim Hf.
Qed.

Lemma keeps_dirs_try_except {A} (m : M A) (c : exn -> bool) (h : exn -> M A) :
  keeps_dirs m -> (forall e, keeps_dirs (h e)) -> keeps_dirs (try_except m c h).
Proof.
  intros Hm Hh s. unfold try_except. destruct (Hm s) as [Hf Hd].
  destruct (m s) as [[a|e|] s1]; simpl in *.
  - split; [discriminate | assumption].
  - destruct (c e).
    + destruct (Hh e s1) as [Hf' Hd']. split; [assumption | congruence].
    + split; [discriminate | assumption].
  - now elim Hf.
Qed.

Lemma keeps_dirs_process_system (command : string) :
  keeps_dirs (process_system env command).
Proof.
  intros s. unfold process_system. simpl.
  split; [| reflexivity].
  destruct (Z.eqb (exit_status env (now (world s)) command) 0); discriminate.
Qed.

Lemma keeps_dirs_run_cmd (command : string) : keeps_dirs (_run_cmd env command).
Proof.
  apply keeps_dirs_try_except.
  - apply keeps_dirs_bind; [apply keeps_dirs_process_system |].
    intros _. apply keeps_dirs_ret.
  - intros _. apply keeps_dirs_ret.
Qed.

Lemma keeps_dirs_install (name : string) : keeps_dirs (install env name).
Proof.
  apply keeps_dirs_bind.
  - intros s. split; [discriminate | reflexivity].
  - intros b. apply keeps_dirs_run_cmd.
Qed.

Lemma keeps_dirs_build_dep (name : string) : keeps_dirs (build_dep env name).
Proof.
  unfold build_dep, build_dep_with. apply keeps_dirs_try_except.
  - apply keeps_dirs_bind; [apply keeps_dirs_process_system |].
    intros _. apply keeps_dirs_ret.
  - intros _. apply keeps_dirs_ret.
Qed.

Lemma keeps_dirs_walk (path : string) : keeps_dirs (walk_files env path).
Proof.
  intros s. unfold walk_files. simpl. split; [| reflexivity].
  destruct (is_dir path (world s)); discriminate.
Qed.

Lemma keeps_dirs_install_helpers (pkgs : list string) :
  keeps_dirs (install_helpers env pkgs).
Proof.
  induction pkgs as [|pkg rest IH]; simpl.
  - apply keeps_dirs_ret.
  - apply keeps_dirs_bind.
    + intros s. split; [discriminate | reflexivity].
    + intros present. destruct present; [exact IH |].
      apply keeps_dirs_bind; [apply keeps_dirs_install |].
      intros installed. destruct installed; [exact IH | apply keeps_dirs_ret].
Qed.

Lemma keeps_dirs_outside {A} (m : M A) :
  (forall s, fst (m s) <> OutOfFuel /\ world (snd (m s)) = tick (world s)) ->
  keeps_dirs m.
Proof.
  intros H s. destruct (H s) as [Hf Hw]. split; [assumption |].
  now rewrite Hw.
Qed.

(** The part of [get_source] that runs once a destination is given. *)
Lemma keeps_dirs_get_source_body (name path dest : string)
      (build_option : option string) (m : M string) :
  m = (ready <- install_helpers env ["rpm-build"; "yum-utils"] ;;
       if negb ready then ret ""
       else
         try_except
           (process_system env
              ("yumdownloader --assumeyes --verbose " +++
               "--source " +++ name +++ " --destdir " +++ path) ;;;
            files <- walk_files env path ;;
            let src_rpms := filter (endswith ".src.rpm") files in
            if negb (Nat.eqb (List.length src_rpms) 1) then
              walk_files env path ;;; ret ""
            else
              installed <-
                self_rpm_install env (path_join path (last src_rpms "")) ;;
              if installed then
                home <- environ_home env ;;
                let spec_path :=
                  path_join (path_join (path_join home "rpmbuild") "SPECS")
                            (name +++ ".spec") in
                deps <- build_dep env spec_path ;;
                if deps
                then self_prepare_source env spec_path dest build_option
                else ret ""
              else ret "")
           (fun e => match e with CmdError => true | _ => false end)
           (fun _ => ret "")) ->
  keeps_dirs m.
Proof.
  intros ->.
  apply keeps_dirs_bind; [apply keeps_dirs_install_helpers |].
  intros ready. destruct ready; simpl; [| apply keeps_dirs_ret].
  apply keeps_dirs_try_except; [| intros _; apply keeps_dirs_ret].
  apply keeps_dirs_bind; [apply keeps_dirs_process_system | intros _].
  apply keeps_dirs_bind; [apply keeps_dirs_walk | intros files].
  cbv zeta.
  destruct (negb (Nat.eqb (List.length (filter (endswith ".src.rpm") files)) 1)).
  - apply keeps_dirs_bind; [apply keeps_dirs_walk |].
    intros _. apply keeps_dirs_ret.
  - apply keeps_dirs_bind.
    + apply keeps_dirs_outside. intros s. split; [discriminate | reflexivity].
    + intros installed. destruct installed; [| apply keeps_dirs_ret].
      apply keeps_dirs_bind.
      * unfold environ_home. destruct (environ_HOME env);
          [apply keeps_dirs_ret | apply keeps_dirs_raise].
      * intros home. apply keeps_dirs_bind; [apply keeps_dirs_build_dep |].
        intros deps. destruct deps; [| apply keeps_dirs_ret].
        apply keeps_dirs_outside. intros s.
        split; [discriminate | reflexivity].
Qed.

Lemma rmtree_removes (path : string) (l : list string) (s : State) :
  tmpdirs (world s) = path :: l ->
  os_fault env (now (world s)) = false ->
  exists s',
    rmtree env path s = (Ret tt, s')
    /\ tmpdirs (world s') = filter (fun d => negb (String.eqb path d)) l.
Proof.
  intros Hd Hos. unfold rmtree, is_dir. rewrite Hd. cbn [existsb].
  rewrite String.eqb_refl. cbn [orb]. unfold os_call. rewrite Hos.
  eexists. split; [reflexivity |].
  cbn [snd world tick tmpdirs]. rewrite Hd. cbn [filter].
  rewrite String.eqb_refl. reflexivity.
Qed.

(** X1: when no OS call fails, [get_source] removes the temporary directory
    it made on every way out, whether it returns a directory, returns the
    empty string or lets an exception through, and it leaves the other
    temporary directories alone. *)
Theorem get_source_always_cleans_up (name : string)
        (dest_path build_option : option string) (s : State) :
  (forall t, os_fault env t = false) ->
  let path := tmp_name env (now (world s)) in
  let r := get_source env name dest_path build_option s in
  fst r <> OutOfFuel
  /\ is_dir path (world (snd r)) = false
  /\ tmpdirs (world (snd r))
     = filter (fun d => negb (String.eqb path d)) (tmpdirs (world s)).
Proof.
  intros Hos path r.
  assert (G : exists out s3,
             r = (out, s3)
             /\ out <> OutOfFuel
             /\ tmpdirs (world s3)
                = filter (fun d => negb (String.eqb path d))
                         (tmpdirs (world s))).
  { unfold r, get_source, bind at 1, mkdtemp, os_call.
    rewrite Hos. fold path.
    match goal with
    | |- context [try_finally ?m _ ?s1] =>
        assert (K : keeps_dirs m);
        [| destruct (K s1) as [Hf Hd]; unfold try_finally;
           destruct (m s1) as [[a|e|] s2] eqn:E]
    end.
    - destruct dest_path as [dest|]; [| apply keeps_dirs_ret].
      eapply keeps_dirs_get_source_body. reflexivity.
    - cbn [fst snd world tick tmpdirs] in Hd.
      destruct (rmtree_removes path _ s2 Hd (Hos _)) as (s3 & -> & Hd3).
      exists (Ret a), s3. split; [reflexivity |].
      split; [discriminate | exact Hd3].
    - cbn [fst snd world tick tmpdirs] in Hd.
      destruct (rmtree_removes path _ s2 Hd (Hos _)) as (s3 & -> & Hd3).
      exists (Raise e), s3. split; [reflexivity |].
      split; [discriminate | exact Hd3].
    - now elim Hf. }
  destruct G as (out & s3 & -> & Hout & Hd3). cbn [fst snd].
  split; [exact Hout |]. split; [| exact Hd3].
  unfold is_dir. rewrite Hd3. apply is_dir_removed.
Qed.

Ltac run_get_source :=
  unfold get_source, mkdtemp, try_finally, install_helpers,
    self_check_installed, try_except, walk_files, self_rpm_install,
    environ_home, build_dep, build_dep_with, self_prepare_source, rmtree,
    is_dir,
    install, try_except, process_system, os_call, bind, ret.

(** X2: with both helper packages present, a download that leaves exactly
    one source package, a successful installation of it, [HOME] set and
    build dependencies installed, [get_source] returns what
    [prepare_source] gives for [$HOME/rpmbuild/SPECS/<name>.spec]; the
    commands it runs are the download into the temporary directory and
    [yum-builddep] on that spec file, in this order. *)
Theorem get_source_prepares (name dest home rpm : string)
        (build_option : option string) (s : State) :
  let t := now (world s) in
  let path := tmp_name env t in
  let spec_path := spec_path_of home name in
  (forall t', os_fault env t' = false) ->
  check_installed env (1 + t) "rpm-build" = true ->
  check_installed env (2 + t) "yum-utils" = true ->
  exit_status env (3 + t) (downloader_command name path) = 0%Z ->
  filter (endswith ".src.rpm") (listdir env (4 + t) path) = [rpm] ->
  rpm_install env (5 + t) (path_join path rpm) = true ->
  environ_HOME env = Some home ->
  exit_status env (6 + t) (builddep_command spec_path) = 0%Z ->
  let r := get_source env name (Some dest) build_option s in
  fst r = Ret (prepare_source env (7 + t) spec_path dest build_option)
  /\ cmds (world (snd r))
     = cmds (world s)
       ++ [downloader_command name path; builddep_command spec_path].
Proof.
  intros t path spec_path Hos H1 H2 H3 H4 H5 H6 H7 r.
  cbn [Nat.add] in H1, H2, H3, H4, H5, H7.
  unfold downloader_command in H3.
  unfold builddep_command, spec_path, spec_path_of in H7.
  unfold r. run_get_source. fold t. fold path.
  rewrite Hos. simpl. rewrite H1. simpl. rewrite H2. simpl.
  rewrite H3. simpl. rewrite String.eqb_refl. simpl. rewrite H4. simpl.
  rewrite H5, H6. simpl. rewrite H7. simpl.
  rewrite ?String.eqb_refl. simpl. rewrite Hos. simpl.
  rewrite <- app_assoc. split; reflexivity.
Qed.

(** X3: with both helper packages present, [get_source] returns the empty
    string when the download fails, when the download leaves no or several
    source packages, when the source package cannot be installed, or when
    the build dependencies cannot be installed. *)
Theorem get_source_gives_up (name dest : string)
        (build_option : option string) (s : State) :
  let t := now (world s) in
  let path := tmp_name env t in
  let src_rpms := filter (endswith ".src.rpm") (listdir env (4 + t) path) in
  (forall t', os_fault env t' = false) ->
  check_installed env (1 + t) "rpm-build" = true ->
  check_installed env (2 + t) "yum-utils" = true ->
  exit_status env (3 + t) (downloader_command name path) <> 0%Z
  \/ (exit_status env (3 + t) (downloader_command name path) = 0%Z
      /\ (List.length src_rpms <> 1
          \/ (List.length src_rpms = 1
              /\ (rpm_install env (5 + t) (path_join path (last src_rpms ""))
                  = false
                  \/ (rpm_install env (5 + t)
                                  (path_join path (last src_rpms "")) = true
                      /\ exists home,
                          environ_HOME env = Some home
                          /\ exit_status env (6 + t)
                               (builddep_command (spec_path_of home name))
                             <> 0%Z))))) ->
  fst (get_source env name (Some dest) build_option s) = Ret "".
Proof.
  intros t path src_rpms Hos H1 H2 Hcase.
  cbn [Nat.add] in H1, H2, Hcase, src_rpms.
  unfold downloader_command, builddep_command, spec_path_of in Hcase.
  run_get_source. fold t. fold path.
  rewrite Hos. simpl. rewrite H1. simpl. rewrite H2. simpl.
  assert (Hos' := Hos).
  destruct Hcase as [H3 | [H3 Hcase]].
  - apply Z.eqb_neq in H3. rewrite H3.
    repeat (progress (rewrite ?String.eqb_refl, ?Hos'; simpl)). reflexivity.
  - rewrite H3. simpl. rewrite String.eqb_refl. simpl. fold src_rpms.
    destruct Hcase as [H4 | [H4 Hcase]].
    + apply Nat.eqb_neq in H4. rewrite H4.
      repeat (progress (rewrite ?String.eqb_refl, ?Hos'; simpl)). reflexivity.
    + rewrite H4. simpl.
      destruct Hcase as [H5 | [H5 (home & H6 & H7)]].
      * rewrite H5.
        repeat (progress (rewrite ?String.eqb_refl, ?Hos'; simpl)).
        reflexivity.
      * rewrite H5, H6. simpl. apply Z.eqb_neq in H7. rewrite H7.
        repeat (progress (rewrite ?String.eqb_refl, ?Hos'; simpl)).
        reflexivity.
Qed.

(** X4: when the source package has been installed and [HOME] is not in the
    environment, the [KeyError] of [os.environ["HOME"]] leaves [get_source]:
    only [CmdError] is handled there.  The temporary directory is removed
    all the same. *)
Theorem get_source_without_home (name dest : string)
        (build_option : option string) (s : State) :
  let t := now (world s) in
  let path := tmp_name env t in
  let src_rpms := filter (endswith ".src.rpm") (listdir env (4 + t) path) in
  (forall t', os_fault env t' = false) ->
  check_installed env (1 + t) "rpm-build" = true ->
  check_installed env (2 + t) "yum-utils" = true ->
  exit_status env (3 + t) (downloader_command name path) = 0%Z ->
  List.length src_rpms = 1 ->
  rpm_install env (5 + t) (path_join path (last src_rpms "")) = true ->
  environ_HOME env = None ->
  let r := get_source env name (Some dest) build_option s in
  fst r = Raise KeyError
  /\ is_dir path (world (snd r)) = false.
Proof.
  intros t path src_rpms Hos H1 H2 H3 H4 H5 H6 r.
  cbn [Nat.add] in H1, H2, H3, H4, H5, src_rpms.
  unfold downloader_command in H3.
  unfold r. run_get_source. fold t. fold path.
  rewrite Hos. simpl. rewrite H1. simpl. rewrite H2. simpl.
  rewrite H3. simpl. rewrite String.eqb_refl. simpl. fold src_rpms.
  rewrite H4. simpl. rewrite H5, H6. simpl.
  rewrite ?String.eqb_refl. simpl. rewrite Hos. simpl.
  rewrite ?String.eqb_refl. simpl.
  split; [reflexivity | apply is_dir_removed].
Qed.

(** X5: [build_dep] hands [yum-builddep -y --tolerant <name>] to the
    process runner, whatever command the backend was built for.  It
    returns [True] when the runner returns and [False] when the runner
    raises [CmdError]; any other exception of the runner, such as the
    [OSError] of a command that cannot be executed, leaves [build_dep].
    With the runner of this development, which records the command and
    answers by its exit status, the command is run once and the result is
    [True] exactly when the status is zero. *)
Theorem build_dep_outcome (run : string -> M Z) (name : string) (s : State) :
  let command := builddep_command name in
  build_dep_with run name s
  = match run command s with
    | (Ret _, s') => (Ret true, s')
    | (Raise CmdError, s') => (Ret false, s')
    | (Raise e, s') => (Raise e, s')
    | (OutOfFuel, s') => (OutOfFuel, s')
    end
  /\ build_dep env name s = build_dep_with (process_system env) name s
  /\ cmds (world (snd (build_dep env name s))) = cmds (world s) ++ [command]
  /\ (fst (build_dep env name s) = Ret true
      <-> exit_status env (now (world s)) command = 0%Z).
Proof.
  intros command. split; [| split; [reflexivity |]].
  - unfold build_dep_with, try_except, bind, ret.
    fold (builddep_command name). fold command.
    destruct (run command s) as [[st|e|] s']; try reflexivity.
    destruct e; reflexivity.
  - unfold build_dep, build_dep_with, try_except, bind, process_system, ret.
    fold (builddep_command name). fold command.
    destruct (Z.eqb (exit_status env (now (world s)) command) 0) eqn:E;
      cbn [fst snd world cmds].
    + split; [reflexivity |]. split; [intros _; now apply Z.eqb_eq |].
      reflexivity.
    + split; [reflexivity |]. split; [intros H; discriminate H |].
      intros H. apply Z.eqb_eq in H. congruence.
Qed.

End GetSourcePaths.

(** A runner that cannot execute the command: its [OSError] is not
    handled by [build_dep]. *)
Example build_dep_not_executable :
  build_dep_with (fun _ => raise OSError) "vim.spec" (sample_state Missing)
  = (Raise OSError, sample_state Missing).
Proof. reflexivity. Qed.

(** ** The version probe *)

Lemma append_cons (c : ascii) (a b : string) :
  String c a +++ b = String c (a +++ b).
Proof. reflexivity. Qed.

Lemma length_append (a b : string) :
  String.length (a +++ b) = String.length a + String.length b.
Proof.
  induction a as [|c a IH]; [reflexivity |].
  rewrite append_cons. simpl. now rewrite IH.
Qed.

Lemma digit_not_space (c : ascii) :
  is_digit c = true ->
  is_space c = false /\ is_linebreak c = false /\ Ascii.eqb c newline = false.
Proof.
  destruct c as [[] [] [] [] [] [] [] []]; intros H;
    solve [discriminate H | repeat split].
Qed.

Lemma numeric_char (c : ascii) :
  is_digit c || Ascii.eqb c "." = true ->
  is_space c = false /\ is_linebreak c = false.
Proof.
  intros H. apply orb_true_iff in H. destruct H as [H | H].
  - destruct (digit_not_space c H) as (H1 & H2 & _). now split.
  - apply Ascii.eqb_eq in H. subst c. now split.
Qed.

Lemma first_line_of_numeric (x more : string) (nl : ascii) :
  numeric x = true -> is_linebreak nl = true ->
  first_line_of x = x /\ first_line_of (x +++ String nl more) = x.
Proof.
  intros Hx Hnl. induction x as [|c r IH].
  - simpl. now rewrite Hnl.
  - simpl in Hx. apply andb_prop in Hx. destruct Hx as [Hc Hr].
    destruct (numeric_char c Hc) as [_ Hl]. destruct (IH Hr) as [IH1 IH2].
    rewrite append_cons. simpl. rewrite Hl. now rewrite IH1, IH2.
Qed.

Lemma rstrip_numeric (x : string) : numeric x = true -> rstrip x = x.
Proof.
  induction x as [|c r IH]; intros Hx; [reflexivity |].
  simpl in Hx. apply andb_prop in Hx. destruct Hx as [Hc Hr].
  destruct (numeric_char c Hc) as [Hs _].
  simpl. rewrite (IH Hr), Hs. now destruct r.
Qed.

Lemma strip_numeric (x : string) : numeric x = true -> strip x = x.
Proof.
  intros Hx. unfold strip.
  assert (Hl : lstrip x = x).
  { destruct x as [|c r]; [reflexivity |].
    simpl in Hx. apply andb_prop in Hx. destruct Hx as [Hc _].
    destruct (numeric_char c Hc) as [Hs _]. simpl. now rewrite Hs. }
  rewrite Hl. now apply rstrip_numeric.
Qed.

Lemma numeric_digits (a : string) : all_digits a = true -> numeric a = true.
Proof.
  induction a as [|c r IH]; simpl; intros H; [reflexivity |].
  apply andb_prop in H. destruct H as [Hc Hr]. now rewrite Hc, IH.
Qed.

Lemma numeric_append (a b : string) :
  numeric a = true -> numeric b = true -> numeric (a +++ b) = true.
Proof.
  induction a as [|c r IH]; intros Ha Hb; [exact Hb |].
  rewrite append_cons. simpl in *. apply andb_prop in Ha.
  destruct Ha as [Hc Hr]. now rewrite Hc, IH.
Qed.

Lemma digit_splits_longest (a r : string) :
  all_digits a = true -> stops_digits r = true ->
  exists others, digit_splits (a +++ r) = (a, r) :: others.
Proof.
  intros Ha Hr. induction a as [|c a IH].
  - destruct r as [|c r]; simpl.
    + now exists [].
    + simpl in Hr. apply negb_true_iff in Hr. rewrite Hr. now exists [].
  - simpl in Ha. apply andb_prop in Ha. destruct Ha as [Hc Ha].
    destruct (IH Ha) as [others E]. rewrite append_cons. simpl.
    rewrite Hc, E. simpl. eexists. reflexivity.
Qed.

Lemma match_version_dotted (a b c : string) :
  all_digits a = true -> all_digits b = true -> all_digits c = true ->
  match_version (a +++ String "." (b +++ String "." c))
  = Some (a +++ String "." (b +++ String "." c)).
Proof.
  intros Ha Hb Hc. unfold match_version.
  destruct (digit_splits_longest a (String "." (b +++ String "." c)) Ha eq_refl)
    as [o1 ->].
  destruct (digit_splits_longest b (String "." c) Hb eq_refl) as [o2 E2].
  destruct (digit_splits_longest c "" Hc eq_refl) as [o3 E3].
  rewrite append_nil_r in E3.
  cbn [first_some snd fst any_char]. cbn [Ascii.eqb Bool.eqb newline].
  rewrite E2. cbn [first_some snd fst any_char]. cbn [Ascii.eqb Bool.eqb newline].
  rewrite E3. reflexivity.
Qed.

Lemma findall_first_match (s m : string) :
  match_version s = Some m -> findall_first s = Some m.
Proof.
  intros H. destruct s; cbn [findall_first]; now rewrite H.
Qed.

(** X6: when the output of the probe starts with a line that is just a
    dotted number [a.b.c], this number is the version, whether or not more
    lines follow. *)
Theorem set_version_dotted (a b c more : string) (nl : ascii) :
  all_digits a = true -> all_digits b = true -> all_digits c = true ->
  is_linebreak nl = true ->
  let version := a +++ "." +++ b +++ "." +++ c in
  set_version version = inr version
  /\ set_version (version +++ String nl more) = inr version.
Proof.
  intros Ha Hb Hc Hnl version.
  assert (Ev : version = a +++ String "." (b +++ String "." c)).
  { unfold version. now rewrite !append_assoc. }
  assert (Hnum : numeric version = true).
  { rewrite Ev. apply numeric_append; [now apply numeric_digits |].
    simpl. apply numeric_append; [now apply numeric_digits |].
    simpl. now apply numeric_digits. }
  destruct (first_line_of_numeric version more nl Hnum Hnl) as [L1 L2].
  assert (Hm : findall_first version = Some version).
  { apply findall_first_match. rewrite Ev. now apply match_version_dotted. }
  assert (Hne : exists x y, version = String x y).
  { rewrite Ev. destruct a; do 2 eexists; reflexivity. }
  destruct Hne as (x & y & Hxy).
  assert (S1 : splitlines_first version = Some (first_line_of version))
    by (rewrite Hxy; reflexivity).
  assert (S2 : splitlines_first (version +++ String nl more)
               = Some (first_line_of (version +++ String nl more)))
    by (rewrite Hxy; reflexivity).
  unfold set_version. rewrite S1, S2, L1, L2.
  rewrite (strip_numeric version Hnum), Hm. split; reflexivity.
Qed.

Lemma findall_first_short (s : string) :
  String.length s < 2 -> findall_first s = None.
Proof.
  destruct s as [|c [|c' r]]; simpl String.length; intros H; try lia.
  - reflexivity.
  - unfold findall_first, match_version. simpl.
    destruct (is_digit c); simpl; destruct (Ascii.eqb c newline); reflexivity.
Qed.

(** X7: the version probe on little output.  Empty output makes
    [splitlines()[0]] raise [IndexError], which [_set_version] does not
    handle; a first line that, once stripped, has fewer than two characters
    is taken as the version as it is. *)
Theorem set_version_short_output (stdout_text line : string) :
  set_version "" = inl IndexError
  /\ (splitlines_first stdout_text = Some line ->
      String.length (strip line) < 2 ->
      set_version stdout_text = inr (strip line)).
Proof.
  split; [reflexivity |]. intros Hl Hs. unfold set_version.
  now rewrite Hl, (findall_first_short _ Hs).
Qed.

Lemma digit_splits_sound (s d r : string) :
  In (d, r) (digit_splits s) -> s = d +++ r.
Proof.
  revert d r. induction s as [|c s IH]; intros d r H.
  - simpl in H. destruct H as [H | []]. now injection H as <- <-.
  - simpl in H. destruct (is_digit c).
    + apply in_app_or in H. destruct H as [H | [H | []]].
      * apply in_map_iff in H. destruct H as ([d' r'] & E & Hin).
        simpl in E. injection E as <- <-.
        rewrite append_cons. f_equal. now apply IH.
      * now injection H as <- <-.
    + destruct H as [H | []]. now injection H as <- <-.
Qed.

Lemma digit_splits_shortest (s : string) : In (EmptyString, s) (digit_splits s).
Proof.
  destruct s as [|c s]; simpl; [now left |].
  destruct (is_digit c); [apply in_or_app; right |]; now left.
Qed.

Lemma digit_splits_hd (s : string) :
  In (hd (EmptyString, s) (digit_splits s)) (digit_splits s).
Proof.
  destruct (digit_splits s) as [|x l] eqn:E.
  - pose proof (digit_splits_shortest s) as H. now rewrite E in H.
  - now left.
Qed.

Lemma first_some_In {A B} (f : A -> option B) (l : list A) (y : B) :
  first_some f l = Some y -> exists x, In x l /\ f x = Some y.
Proof.
  induction l as [|x l IH]; simpl; [discriminate |].
  destruct (f x) as [y'|] eqn:E.
  - intros H. injection H as <-. exists x. auto.
  - intros H. destruct (IH H) as (x' & Hin & Hx). exists x'. auto.
Qed.

Lemma first_some_exists {A B} (f : A -> option B) (l : list A) (x : A) (y : B) :
  In x l -> f x = Some y -> exists z, first_some f l = Some z.
Proof.
  induction l as [|x' l IH]; simpl; [contradiction |].
  intros Hin Hx. destruct (f x') as [y'|] eqn:E; [eauto |].
  destruct Hin as [-> | Hin]; [congruence | now apply IH].
Qed.

Lemma any_char_cons (s : string) (c : ascii) (r : string) :
  any_char s = Some (c, r) -> s = String c r.
Proof.
  destruct s as [|c' r']; simpl; [discriminate |].
  destruct (Ascii.eqb c' newline); [discriminate |].
  intros H. now injection H as <- <-.
Qed.

(** Whatever [match_version] finds is the beginning of the text. *)
Lemma match_version_prefix (s m : string) :
  match_version s = Some m ->
  exists rest, s = m +++ rest /\ 2 <= String.length m.
Proof.
  unfold match_version. intros H.
  destruct (first_some_In _ _ _ H) as ([d1 r1] & Hin1 & H1). simpl in H1.
  destruct (any_char r1) as [[c1 r2]|] eqn:E1; [| discriminate].
  destruct (first_some_In _ _ _ H1) as ([d2 r3] & Hin2 & H2). simpl in H2.
  destruct (any_char r3) as [[c2 r4]|] eqn:E2; [| discriminate].
  injection H2 as <-.
  pose proof (digit_splits_hd r4) as Hin3.
  destruct (hd (EmptyString, r4) (digit_splits r4)) as [d3 r5].
  apply digit_splits_sound in Hin1, Hin2, Hin3.
  apply any_char_cons in E1, E2. subst.
  exists r5. split.
  - simpl fst. repeat (rewrite append_assoc || rewrite append_cons).
    reflexivity.
  - simpl fst. repeat (rewrite length_append || simpl String.length). lia.
Qed.


Lemma linebreak_newline (c : ascii) :
  is_linebreak c = false -> Ascii.eqb c newline = false.
Proof.
  intros H. destruct (Ascii.eqb_spec c newline) as [-> | Hne];
    [discriminate H | reflexivity].
Qed.

Lemma first_line_of_no_newline (s : string) :
  no_newline (first_line_of s) = true.
Proof.
  induction s as [|c r IH]; simpl; [reflexivity |].
  destruct (is_linebreak c) eqn:E; [reflexivity |].
  simpl. now rewrite (linebreak_newline c E), IH.
Qed.

Lemma lstrip_no_newline (s : string) :
  no_newline s = true -> no_newline (lstrip s) = true.
Proof.
  induction s as [|c r IH]; simpl; intros H; [reflexivity |].
  destruct (is_space c); [| exact H].
  apply andb_prop in H. now apply IH.
Qed.

Lemma rstrip_no_newline (s : string) :
  no_newline s = true -> no_newline (rstrip s) = true.
Proof.
  induction s as [|c r IH]; simpl; intros H; [reflexivity |].
  apply andb_prop in H. destruct H as [Hc Hr]. specialize (IH Hr).
  destruct (rstrip r) as [|c' r'].
  - destruct (is_space c); simpl; [reflexivity | now rewrite Hc].
  - simpl in *. now rewrite Hc.
Qed.

Lemma match_version_succeeds (s : string) :
  2 <= String.length s -> no_newline s = true ->
  exists m, match_version s = Some m.
Proof.
  destruct s as [|c1 [|c2 r]]; simpl String.length; intros Hl Hn; try lia.
  simpl in Hn. apply andb_prop in Hn. destruct Hn as [H1 Hn].
  apply andb_prop in Hn. destruct Hn as [H2 _].
  apply negb_true_iff in H1, H2.
  unfold match_version.
  set (inner := fun (d1 : string) (dr2 : string * string) =>
                  match any_char (snd dr2) with
                  | Some (c3, r4) =>
                      Some (d1 +++ String c1
                              (fst dr2 +++
                               String c3 (fst (hd (EmptyString, r4)
                                                  (digit_splits r4)))))
                  | None => None
                  end).
  destruct (first_some_exists (inner EmptyString) (digit_splits (String c2 r))
              (EmptyString, String c2 r)
              (EmptyString +++ String c1
                 (EmptyString +++ String c2
                    (fst (hd (EmptyString, r) (digit_splits r))))))
    as [z Hz].
  { apply digit_splits_shortest. }
  { unfold inner. cbn [snd any_char fst]. now rewrite H2. }
  eapply (first_some_exists _ _ (EmptyString, String c1 (String c2 r)) z).
  - apply digit_splits_shortest.
  - cbn [snd any_char fst]. rewrite H1. exact Hz.
Qed.

(** X8: when the stripped first line of the probe's output has two
    characters or more, the version is a beginning of that line, of two
    characters at least: the pattern is matched where the line starts, its
    dots stand for any character, and text in front of the number is not
    skipped. *)
Theorem set_version_prefix (stdout_text line : string) :
  splitlines_first stdout_text = Some line ->
  2 <= String.length (strip line) ->
  exists ver rest,
    set_version stdout_text = inr ver
    /\ strip line = ver +++ rest
    /\ 2 <= String.length ver.
Proof.
  intros Hl Hlen.
  assert (Hn : no_newline (strip line) = true).
  { unfold strip. apply rstrip_no_newline, lstrip_no_newline.
    unfold splitlines_first in Hl.
    destruct stdout_text as [|a st]; [discriminate |].
    injection Hl as <-. exact (first_line_of_no_newline (String a st)). }
  destruct (match_version_succeeds _ Hlen Hn) as [m Hm].
  destruct (match_version_prefix _ _ Hm) as (rest & E & Hm2).
  exists m, rest. unfold set_version.
  rewrite Hl, (findall_first_match _ _ Hm). auto.
Qed.

(** ** Construction *)

(** X9: [__init__] runs the constructor of the base class first; when
    that one raises, [__init__] raises the same and does nothing of its
    own.  After it, [__init__] fails with [CmdNotFoundError] before running
    anything when the command is not found.  When [__init__] returns an
    object, the base constructor has returned, the command was found at
    some [tool], the only command run after the base constructor is the
    version probe [<tool> -y --version], the repository file is as the
    base constructor left it, no parser and no native handle are made yet,
    and the object builds its install commands as
    [<tool> -y install <name>] followed by the transient flag on an ostree
    system. *)
Theorem YumBackend_init_establishes
        (super_init : World -> (init_exn + unit) * World)
        (find_command : string -> option string)
        (stdout_text : nat -> string -> string) (ostree : bool)
        (cmd : string) (w : World) :
  let r := YumBackend_init super_init find_command stdout_text ostree cmd w in
  let w0 := snd (super_init w) in
  (forall e, fst (super_init w) = inl e -> r = (inl e, w0))
  /\ (forall u, fst (super_init w) = inr u ->
                find_command cmd = None -> r = (inl CmdNotFoundError, w0))
  /\ forall b ver,
      fst r = inr (b, ver) ->
      (exists u, fst (super_init w) = inr u)
      /\ exists tool,
          find_command cmd = Some tool
          /\ initialised tool ostree b
          /\ _cfgparser b = None
          /\ _yum_base b = None
          /\ cmds (snd r) = cmds w0 ++ [tool +++ " -y " +++ "--version"]
          /\ repo_file (snd r) = repo_file w0
          /\ set_version
               (stdout_text (now w0) (tool +++ " -y " +++ "--version"))
             = inr ver
          /\ forall name,
              install_command b name
              = command_template tool "install" name ostree.
Proof.
  intros r w0. unfold r, w0, YumBackend_init.
  destruct (super_init w) as [[e0|u0] w1]. all: cbn [fst snd].
  - split; [intros e H; now injection H as <- |].
    split; [intros u H; discriminate H |]. intros b ver H. discriminate H.
  - split; [intros e H; discriminate H |].
    split; [intros u _ H; now rewrite H |].
    intros b ver. destruct (find_command cmd) as [tool|]; [| discriminate].
    destruct (set_version
                (stdout_text (now w1) (tool +++ " -y " +++ "--version")))
      as [e|v] eqn:E; [discriminate |].
    cbn [fst snd]. intros H. injection H as <- <-.
    assert (Hi : initialised tool ostree
                   (mkYumBackend cmd (tool +++ " -y ") None None
                      (if ostree then "" +++ " --transient " else "")))
      by (split; [reflexivity | now destruct ostree]).
    split; [now exists u0 |].
    exists tool. split; [reflexivity |]. split; [exact Hi |].
    split; [reflexivity |]. split; [reflexivity |]. split; [reflexivity |].
    split; [reflexivity |]. split; [exact E |].
    intros name. now apply install_command_template.
Qed.

(** ** The lazy attributes *)

Section LazyAttributes.

Variable env : Env.

(** X10: the repository file is read once.  After a first successful use of
    [repo_config_parser], every later use gives the same parser and leaves
    the state alone, whatever has happened to the file in between. *)
Theorem repo_config_parser_cached (s s1 : State) (p : CP.t) :
  repo_config_parser s = (Ret p, s1) ->
  forall w', repo_config_parser (mkState (self s1) w')
             = (Ret p, mkState (self s1) w').
Proof.
  intros H w'.
  assert (Hp : _cfgparser (self s1) = Some p).
  { unfold repo_config_parser, bind, get_self, get_world in H.
    cbn [fst snd] in H.
    destruct (_cfgparser (self s)) as [p0|] eqn:E.
    - unfold ret in H. injection H as <- <-. exact E.
    - destruct (read_repo_file (repo_file (world s))) as [p0 [e|]];
        unfold set_cfgparser, raise, ret in H; cbn in H.
      + discriminate H.
      + injection H as <- <-. reflexivity. }
  apply parser_loaded. exact Hp.
Qed.

(** X11: a repository file the parser gives up on raises its error at the
    first use only: the parser object is stored before the file is read,
    so that the second use returns, without any error, the parser with
    what had been read before the failure. *)
Theorem repo_config_parser_error_once (s : State) (partial : CP.t) :
  _cfgparser (self s) = None ->
  repo_file (world s) = Malformed partial ->
  let first := repo_config_parser s in
  fst first = Raise ParsingError
  /\ repo_config_parser (snd first) = (Ret partial, snd first)
  /\ config_of s = None
  /\ config_of (snd first) = Some partial.
Proof.
  intros Hn Hf first. unfold first, repo_config_parser, bind, get_self,
    get_world, config_of.
  rewrite Hn, Hf. cbn. repeat split.
Qed.

(** X12: [provides] runs no command, makes and removes no temporary file or
    directory, and neither reads, changes nor writes the repository
    configuration; it puts at most one query to the native handle. *)
Theorem provides_only_queries (name : string) (s : State) :
  let s' := snd (provides env name s) in
  cmds (world s') = cmds (world s)
  /\ tmpdirs (world s') = tmpdirs (world s)
  /\ tmpfiles (world s') = tmpfiles (world s)
  /\ repo_file (world s') = repo_file (world s)
  /\ _cfgparser (self s') = _cfgparser (self s)
  /\ (queries (world s') = queries (world s)
      \/ queries (world s') = queries (world s) ++ [["*/" +++ name]]).
Proof.
  unfold provides, yum_base, bind, get_self, put_self, ret, try_except,
    search_provides.
  destruct (_yum_base (self s)) as [h|] eqn:E; cbn [fst snd self world].
  - rewrite E. cbn [fst snd self world].
    destruct (searchPackageProvides env (now (world s)) ["*/" +++ name])
      as [[|first rest]|e]; [| | destruct (is_Exception e)];
      cbn; repeat split; auto.
  - destruct (HAS_YUM_MODULE env); cbn [fst snd self world _yum_base].
    + destruct (searchPackageProvides env (now (world s)) ["*/" +++ name])
        as [[|first rest]|e]; [| | destruct (is_Exception e)];
        cbn; repeat split; auto.
    + cbn. repeat split; auto.
Qed.

(** X13: [upgrade] without a name, be it [None] or the empty string,
    builds [<tool> -y update] followed by the transient flag when there is
    one: no name and no space for it. *)
Theorem upgrade_without_name (tool : string) (ostree : bool) (b : YumBackend) :
  initialised tool ostree b ->
  upgrade_command b None = upgrade_command b (Some "")
  /\ upgrade_command b None
     = String.concat " " [tool; "-y"; "update"]
       +++ (if ostree then " --transient " else "").
Proof.
  intros [Hb Ht]. unfold upgrade_command, not_name.
  rewrite String.eqb_refl, Hb, Ht. split; [reflexivity |].
  cbn [String.concat]. now rewrite !append_assoc.
Qed.

End LazyAttributes.

(** ** Adding a repository, further *)

Section Invariants.

Variable env : Env.
Variable Q : State -> Prop.
Hypothesis Q_self : forall s s', self s' = self s -> Q s -> Q s'.

Lemma invariant_ret {A} (a : A) : invariant Q (ret a).
Proof. intros s H. exact H. Qed.

Lemma invariant_bind {A B} (m : M A) (k : A -> M B) :
  invariant Q m -> (forall a, invariant Q (k a)) -> invariant Q (bind m k).
Proof.
  intros Hm Hk s H. unfold bind. specialize (Hm s H).
  destruct (m s) as [[a|e|] s']; simpl in Hm; try assumption.
  now apply Hk.
Qed.

Lemma invariant_try_except {A} (m : M A) (c : exn -> bool) (h : exn -> M A) :
  invariant Q m -> (forall e, invariant Q (h e)) ->
  invariant Q (try_except m c h).
Proof.
  intros Hm Hh s H. unfold try_except. specialize (Hm s H).
  destruct (m s) as [[a|e|] s']; simpl in Hm; try assumption.
  destruct (c e); [now apply Hh | assumption].
Qed.

Lemma invariant_try_finally {A} (m : M A) (f : M unit) :
  invariant Q m -> invariant Q f -> invariant Q (try_finally m f).
Proof.
  intros Hm Hf s H. unfold try_finally. specialize (Hm s H).
  destruct (m s) as [[a|e|] s']; simpl in Hm; try assumption;
    specialize (Hf s' Hm); destruct (f s') as [[u|e'|] s'']; assumption.
Qed.

Lemma invariant_outside {A} (m : M A) :
  (forall s, self (snd (m s)) = self s) -> invariant Q m.
Proof.
  intros Hm s H. now apply (Q_self s).
Qed.

Lemma invariant_os_call {A} (effect : World -> A * World) :
  invariant Q (os_call env effect).
Proof.
  apply invariant_outside. intros s. unfold os_call.
  destruct (os_fault env (now (world s))); [reflexivity |].
  now destruct (effect (world s)).
Qed.

Lemma invariant_with_tmpfile {A} (body : string -> M A) :
  (forall tmp, invariant Q (body tmp)) ->
  invariant Q (with_NamedTemporaryFile env body).
Proof.
  intros Hb. unfold with_NamedTemporaryFile, NamedTemporaryFile, file_close.
  apply invariant_bind; [apply invariant_os_call |]. intros tmp.
  apply invariant_try_finally; [apply Hb | apply invariant_os_call].
Qed.

End Invariants.

Section AddRepoFurther.

Variable env : Env.

Lemma st_of_self (s : State) (p : CP.t) :
  _cfgparser (self s) = Some p -> s = st_of (self s) p (world s).
Proof.
  destruct s as [[c bc cfg yb tr] w]. simpl. now intros ->.
Qed.

(** [set] on the section added last, whatever the value. *)
Lemma set_last_section (p : CP.t) (name k v : string) (d : dict) :
  String.eqb name "" = false ->
  String.eqb name CP.default_section = false ->
  ~ In name (CP.sections p) ->
  CP.set (with_section p name d) name k v
  = match (if String.eqb v "" then Ok v else CP.before_set v) with
    | Ok v' => Ok (with_section p name (dict_set (lower k) v' d))
    | Err e => Err e
    end.
Proof.
  intros H1 H2 H3. unfold CP.set.
  destruct (if String.eqb v "" then Ok v else CP.before_set v) as [v'|e];
    [| reflexivity].
  simpl. rewrite H1, H2. simpl.
  rewrite find_section_app_new by assumption.
  unfold with_section. simpl. now rewrite map_set_with_section.
Qed.

Lemma extended_self (p : CP.t) (name : string) (s s' : State) :
  self s' = self s -> extended p name s -> extended p name s'.
Proof.
  intros E [d H]. exists d. now rewrite E.
Qed.

Lemma invariant_parser_set (p : CP.t) (name k v : string) :
  String.eqb name "" = false ->
  String.eqb name CP.default_section = false ->
  ~ In name (CP.sections p) ->
  invariant (extended p name) (parser_set name k v).
Proof.
  intros H1 H2 H3 s [d Hd]. unfold parser_set, bind.
  rewrite (parser_loaded s _ Hd), set_last_section by assumption.
  destruct (if String.eqb v "" then Ok v else CP.before_set v) as [v'|e];
    simpl.
  - eexists. reflexivity.
  - now exists d.
Qed.

Lemma invariant_set_options (p : CP.t) (name : string) (options : dict) :
  String.eqb name "" = false ->
  String.eqb name CP.default_section = false ->
  ~ In name (CP.sections p) ->
  invariant (extended p name) (set_options name options).
Proof.
  intros H1 H2 H3. induction options as [|[k v] rest IH]; simpl.
  - apply invariant_ret.
  - apply invariant_bind; [now apply invariant_parser_set | intros _; exact IH].
Qed.

Lemma invariant_write_and_copy (p : CP.t) (name tmp : string) :
  invariant (extended p name) (write_and_copy env tmp).
Proof.
  pose proof (extended_self p name) as HQ.
  unfold write_and_copy, file_write, file_flush, copy_to_repo_file.
  apply invariant_bind.
  - intros s [d Hd]. rewrite (parser_loaded s _ Hd). now exists d.
  - intros p0.
    apply invariant_bind; [now apply invariant_os_call | intros _].
    apply invariant_bind; [now apply invariant_os_call | intros _].
    apply invariant_bind; [now apply invariant_outside | intros _].
    now apply invariant_outside.
Qed.

(** X14: whatever the URL and the options, and however it ends, [add_repo]
    leaves the defaults and every existing section, with its options and
    its place, as they were: the configuration is either unchanged or has
    one more section at the end, under a name that was not in use. *)
Theorem add_repo_keeps_existing (fuel : nat) (url : string)
        (opt_params : dict) (s : State) (p : CP.t) :
  config_of s = Some p ->
  exists p',
    config_of (snd (add_repo env fuel url opt_params s)) = Some p'
    /\ CP.defaults p' = CP.defaults p
    /\ (CP.sects p' = CP.sects p
        \/ exists name d,
             ~ In name (CP.sections p)
             /\ CP.sects p' = CP.sects p ++ [(name, d)]).
Proof.
  intros Hcfg. rewrite (add_repo_load env fuel url opt_params s p Hcfg).
  generalize (self s) (world s). intros b w.
  unfold add_repo, bind at 1. rewrite parser_of_st.
  unfold bind at 1. rewrite scan_sections_spec.
  destruct (scan p url (CP.sections p)) as [[|]|e];
    try (exists p; split; [reflexivity | split; [reflexivity | now left]]).
  unfold bind at 1. rewrite new_section_name_spec.
  destruct (rejected env p (now w) fuel) as [j|] eqn:Hrej;
    [| exists p; split; [reflexivity | split; [reflexivity | now left]]].
  pose proof (rejected_fresh env p (now w) fuel j Hrej) as Hfresh.
  set (name := candidate env (j + now w)) in *.
  assert (Hnot : ~ In name (CP.sections p)) by now apply has_section_not_In.
  erewrite try_except_bind_ret;
    [| rewrite parser_add_section_spec, add_section_fresh;
       [reflexivity | apply candidate_not_default | assumption]].
  pose proof (extended_self p name) as HQ.
  match goal with
  | |- context [snd (try_except ?m ?c ?h ?s0)] =>
      assert (K : extended p name (snd (try_except m c h s0)))
  end.
  { apply invariant_try_except.
    - apply invariant_bind;
        [apply invariant_parser_set; (assumption || reflexivity) | intros _].
      apply invariant_bind;
        [apply invariant_parser_set; (assumption || reflexivity) | intros _].
      apply invariant_bind;
        [apply invariant_set_options; (assumption || reflexivity) | intros _].
      apply invariant_bind; [| intros _; apply invariant_ret].
      apply invariant_with_tmpfile; [assumption |]. intros tmp.
      apply invariant_write_and_copy.
    - intros e. apply invariant_ret.
    - exists []. reflexivity. }
  destruct K as (d & Hd). exists (with_section p name d). split.
  - unfold config_of. now rewrite Hd.
  - split; [reflexivity |]. right. exists name, d. auto.
Qed.

(** X15: a URL that [parser.set] refuses, such as one with a
    percent-encoded character, makes [add_repo] raise [ValueError], which
    its handler for [OSError] and [CmdError] lets through.  By then the new
    section exists in the parser with its [name] option only; nothing has
    been written or run. *)
Theorem add_repo_refused_url (fuel j : nat) (url : string)
        (opt_params : dict) (s : State) (p : CP.t) :
  config_of s = Some p ->
  scan p url (CP.sections p) = Ok false ->
  rejected env p (now (world s)) fuel = Some j ->
  CP.before_set url = Err ValueError ->
  let r := add_repo env fuel url opt_params s in
  fst r = Raise ValueError
  /\ config_of (snd r)
     = Some (with_section p (candidate env (j + now (world s)))
                          [("name", "Avocado managed repository")])
  /\ cmds (world (snd r)) = cmds (world s)
  /\ repo_file (world (snd r)) = repo_file (world s).
Proof.
  intros Hcfg Hscan Hrej Hurl r. unfold r.
  rewrite (add_repo_load env fuel url opt_params s p Hcfg).
  pose proof (rejected_fresh env p _ fuel j Hrej) as Hfresh.
  assert (Hnot : ~ In (candidate env (j + now (world s))) (CP.sections p))
    by now apply has_section_not_In.
  assert (Hne : String.eqb url "" = false).
  { destruct (String.eqb_spec url "") as [-> | Hne]; [discriminate Hurl |].
    reflexivity. }
  assert (G : add_repo env fuel url opt_params (st_of (self s) p (world s))
              = (Raise ValueError,
                 st_of (self s)
                       (with_section p (candidate env (j + now (world s)))
                                     [("name", "Avocado managed repository")])
                       (advance (S j) (world s)))).
  { unfold add_repo, bind at 1. rewrite parser_of_st.
    unfold bind at 1. rewrite scan_sections_spec, Hscan.
    unfold bind at 1. rewrite new_section_name_spec, Hrej.
    unfold try_except, bind at 1.
    rewrite parser_add_section_spec.
    rewrite add_section_fresh by (assumption || apply candidate_not_default).
    unfold bind at 1. rewrite parser_set_spec.
    rewrite set_with_section
      by (assumption || reflexivity || apply candidate_not_default).
    unfold bind at 1. rewrite parser_set_spec.
    rewrite set_last_section
      by (assumption || reflexivity || apply candidate_not_default).
    rewrite Hne, Hurl. reflexivity. }
  rewrite G. repeat split.
Qed.

(** X16: the name loop returns the first name drawn that is not a
    section.  When the [j]-th name drawn is free, the names drawn before
    it are all taken and [j] draws are within the fuel, the loop returns
    that name, after one draw per name examined and with the parser left
    alone; and whenever the loop returns a name, it is such a first free
    name. *)
Theorem new_section_name_first_free (fuel j : nat) (s : State) (p : CP.t) :
  _cfgparser (self s) = Some p ->
  j < fuel ->
  CP.has_section p (candidate env (j + now (world s))) = false ->
  (forall i, i < j ->
             CP.has_section p (candidate env (i + now (world s))) = true) ->
  new_section_name env fuel s
  = (Ret (candidate env (j + now (world s))),
     st_of (self s) p (advance (S j) (world s)))
  /\ forall name s',
      new_section_name env fuel s = (Ret name, s') ->
      exists k,
        k < fuel
        /\ name = candidate env (k + now (world s))
        /\ CP.has_section p name = false
        /\ (forall i, i < k ->
            CP.has_section p (candidate env (i + now (world s))) = true)
        /\ s' = st_of (self s) p (advance (S k) (world s)).
Proof.
  intros Hp Hj Hfree Htaken.
  assert (G : new_section_name env fuel s
              = (Ret (candidate env (j + now (world s))),
                 st_of (self s) p (advance (S j) (world s)))).
  { rewrite (st_of_self s p Hp) at 1. rewrite new_section_name_spec.
    now rewrite (rejected_first env p (now (world s)) fuel j Hj Hfree Htaken). }
  split; [exact G |].
  intros name s' H. rewrite G in H. injection H as <- <-.
  exists j. repeat split; assumption.
Qed.

Lemma copied_write_succeeds (t : nat) :
  write_succeeds env t = copied env t && negb (os_fault env (4 + t)).
Proof. reflexivity. Qed.

(** The repository file after a [with] block that ends by writing [p'] and
    copying it. *)
Lemma with_tmpfile_repo_file {A} (body : string -> M A) (x : A)
      (s0 : State) (b : YumBackend) (p' : CP.t) :
  (forall tmp w1,
      repo_file w1 = repo_file (world s0) ->
      body tmp (mkState (self s0) w1)
      = match write_and_copy env tmp (st_of b p' w1) with
        | (Ret _, s') => (Ret x, s')
        | (Raise e, s') => (Raise e, s')
        | (OutOfFuel, s') => (OutOfFuel, s')
        end) ->
  repo_file (world (snd (with_NamedTemporaryFile env body s0)))
  = if copied env (now (world s0)) then Ini p' else repo_file (world s0).
Proof.
  intros Hbody. set (w := world s0).
  unfold with_NamedTemporaryFile, bind, NamedTemporaryFile, os_call, copied.
  fold w. destruct (os_fault env (now w)) eqn:F0; [reflexivity |].
  cbn [negb andb]. unfold try_finally. rewrite Hbody by reflexivity.
  unfold write_and_copy, file_write, file_flush, copy_to_repo_file,
    process_system, file_close, os_call, bind.
  rewrite parser_of_st. simpl.
  rewrite !String.eqb_refl.
  destruct (os_fault env (S (now w))) eqn:F1; simpl.
  { destruct (os_fault env (S (S (now w)))); reflexivity. }
  destruct (os_fault env (S (S (now w)))) eqn:F2; simpl.
  { destruct (os_fault env (S (S (S (now w))))); reflexivity. }
  destruct (Z.eqb (exit_status env (S (S (S (now w))))
                     (copy_command (tmp_name env (now w)))) 0) eqn:F3;
    simpl.
  - rewrite ?String.eqb_refl.
    destruct (os_fault env (S (S (S (S (now w)))))); reflexivity.
  - destruct (os_fault env (S (S (S (S (now w)))))); reflexivity.
Qed.

Lemma add_repo_new_state (fuel j : nat) (url : string) (opt_params : dict)
      (b : YumBackend) (p : CP.t) (w : World) :
  percent_free_dict opt_params = true ->
  has_percent url = false ->
  scan p url (CP.sections p) = Ok false ->
  rejected env p (now w) fuel = Some j ->
  let p1 := with_section p (candidate env (j + now w))
                         (new_section_options url opt_params) in
  snd (add_repo env fuel url opt_params (st_of b p w))
  = snd (with_NamedTemporaryFile env (write_and_copy env)
                                 (st_of b p1 (advance (S j) w))).
Proof.
  intros Ho Hu Hscan Hrej p1.
  pose proof (rejected_fresh env p (now w) fuel j Hrej) as Hfresh.
  assert (Hnot : ~ In (candidate env (j + now w)) (CP.sections p))
    by now apply has_section_not_In.
  unfold add_repo, bind at 1. rewrite parser_of_st.
  unfold bind at 1. rewrite scan_sections_spec, Hscan.
  unfold bind at 1. rewrite new_section_name_spec, Hrej.
  unfold try_except, bind at 1.
  rewrite parser_add_section_spec.
  rewrite add_section_fresh by (assumption || apply candidate_not_default).
  unfold bind at 1. rewrite parser_set_spec.
  rewrite set_with_section
    by (assumption || reflexivity || apply candidate_not_default).
  unfold bind at 1. rewrite parser_set_spec.
  rewrite set_with_section
    by (assumption || reflexivity || apply candidate_not_default).
  unfold bind at 1.
  rewrite set_options_spec;
    [| reflexivity | apply candidate_not_default | assumption
     | apply percent_free_dict_update; [reflexivity | assumption]].
  change (with_section p (candidate env (j + now w)) _) with p1.
  unfold bind at 1.
  destruct (with_NamedTemporaryFile env (write_and_copy env)
              (st_of b p1 (advance (S j) w))) as [[u|e|] s'];
    [reflexivity | | reflexivity].
  cbn [snd]. now destruct (is_OSError_or_CmdError e).
Qed.

(** X17: what a first [add_repo] of a URL leaves on disk, when nothing
    holds a percent sign.  The new section is in the parser in every case;
    the repository file holds the new configuration exactly when the copy
    command was reached and exited with status zero, and is otherwise what
    it was.  So a [False] after a failed write or copy leaves the section
    in memory only, and a [False] caused by closing the temporary file
    comes after the file has been replaced. *)
Theorem add_repo_file_outcome (fuel j : nat) (url : string)
        (opt_params : dict) (s : State) (p : CP.t) :
  config_of s = Some p ->
  percent_free p = true ->
  has_percent url = false ->
  percent_free_dict opt_params = true ->
  referencing p url = [] ->
  rejected env p (now (world s)) fuel = Some j ->
  let t := S j + now (world s) in
  let p1 := with_section p (candidate env (j + now (world s)))
                         (new_section_options url opt_params) in
  let r := add_repo env fuel url opt_params s in
  fst r = Ret (copied env t && negb (os_fault env (4 + t)))
  /\ config_of (snd r) = Some p1
  /\ repo_file (world (snd r))
     = (if copied env t then Ini p1 else repo_file (world s)).
Proof.
  intros Hcfg Hp Hu Ho Hnone Hrej t p1 r.
  assert (Hscan : scan p url (CP.sections p) = Ok false).
  { rewrite scan_plain by (assumption || apply incl_refl).
    f_equal. now apply referencing_nil. }
  unfold r. rewrite (add_repo_load env fuel url opt_params s p Hcfg).
  destruct (add_repo_new env fuel j url opt_params (self s) p (world s)
              Ho Hu Hscan Hrej) as (w' & E & _).
  pose proof (add_repo_new_state fuel j url opt_params (self s) p (world s)
                Ho Hu Hscan Hrej) as Hs.
  cbv zeta in Hs. fold p1 in Hs, E. rewrite Hs. rewrite E. cbn [fst].
  split; [reflexivity |]. split.
  - rewrite E in Hs. cbn [snd] in Hs. now rewrite <- Hs.
  - apply (with_tmpfile_repo_file (write_and_copy env) tt
             (st_of (self s) p1 (advance (S j) (world s))) (self s) p1).
    intros tmp w1 _.
    change (mkState (self (st_of (self s) p1 (advance (S j) (world s)))) w1)
      with (st_of (self s) p1 w1).
    destruct (write_and_copy env tmp (st_of (self s) p1 w1)) as [[[]|e|] s'];
      reflexivity.
Qed.

End AddRepoFurther.

(** ** Removing a repository, further *)

Section RemoveRepoFurther.

Variable env : Env.

(** X18: when nothing holds a percent sign and the temporary file can be
    created, [remove_repo] removes exactly the sections whose [baseurl]
    is the URL: the defaults and every other section stay, with their
    options and in their order, and after a successful copy the
    repository file holds just that. *)
Theorem remove_repo_removes_exactly (url : string) (s : State) (p : CP.t) :
  config_of s = Some p ->
  percent_free p = true ->
  distinct (CP.sections p) = true ->
  os_fault env (now (world s)) = false ->
  exists s' p',
    remove_repo env url s = (Ret (write_succeeds env (now (world s))), s')
    /\ config_of s' = Some p'
    /\ CP.defaults p' = CP.defaults p
    /\ CP.sects p'
       = filter (fun sd => negb (references p url (fst sd))) (CP.sects p)
    /\ (write_succeeds env (now (world s)) = true ->
        repo_file (world s') = Ini p').
Proof.
  intros Hcfg Hp Hd Hos.
  set (g := fun x => existsb (String.eqb x) (CP.sections p)
                     && references p url x).
  destruct (remove_repo_with env url s p (prune g p) Hcfg)
    as (s' & E & Hc & Hw).
  { intros b w. rewrite <- (prune_none p) at 2.
    apply remove_sections_spec; try assumption.
    - apply incl_refl.
    - reflexivity.
    - intros x. reflexivity. }
  rewrite Hos in Hc. exists s', (prune g p).
  split; [exact E |]. split; [exact Hc |]. split; [reflexivity |]. split.
  - unfold prune. cbn [CP.sects]. apply filter_ext_in. intros [n d] Hin.
    cbn [fst]. unfold g.
    assert (Hn : existsb (String.eqb n) (CP.sections p) = true).
    { apply existsb_exists. exists n. split; [| apply String.eqb_refl].
      unfold CP.sections. apply in_map_iff. exists (n, d). auto. }
    now rewrite Hn.
  - intros H. now rewrite (Hw H).
Qed.

Lemma unmatched_of_referencing (p : CP.t) (url : string) :
  percent_free p = true ->
  referencing p url = [] ->
  forall section, In section (CP.sections p) -> unmatched p url section.
Proof.
  intros Hp Hnone section Hin. unfold unmatched.
  rewrite (items_plain p section Hp).
  destruct (raw_items_section p section Hin) as [d Hd].
  exists d. split; [exact Hd |].
  apply referencing_nil in Hnone.
  destruct (matches_url url d) eqn:E; [| reflexivity].
  rewrite <- Hnone. symmetry. apply existsb_exists. exists section.
  split; [assumption |]. unfold references. now rewrite Hd.
Qed.

(** X19: removing twice is removing once.  After a [remove_repo] that could
    create its temporary file, a second [remove_repo] for the same URL
    leaves the configuration as the first one left it, and still writes
    and copies it: its result only tells whether that worked. *)
Theorem remove_repo_twice (url : string) (s : State) (p : CP.t) :
  config_of s = Some p ->
  percent_free p = true ->
  distinct (CP.sections p) = true ->
  os_fault env (now (world s)) = false ->
  let s1 := snd (remove_repo env url s) in
  exists p1 s2,
    config_of s1 = Some p1
    /\ referencing p1 url = []
    /\ remove_repo env url s1 = (Ret (write_succeeds env (now (world s1))), s2)
    /\ config_of s2 = Some p1.
Proof.
  intros Hcfg Hp Hd Hos s1.
  set (g := fun x => existsb (String.eqb x) (CP.sections p)
                     && references p url x).
  destruct (remove_repo_with env url s p (prune g p) Hcfg)
    as (s' & E & Hc & _).
  { intros b w. rewrite <- (prune_none p) at 2.
    apply remove_sections_spec; try assumption.
    - apply incl_refl.
    - reflexivity.
    - intros x. reflexivity. }
  rewrite Hos in Hc. unfold s1. rewrite E. cbn [snd].
  assert (Hnone : referencing (prune g p) url = []).
  { apply referencing_prune. intros x Hx. unfold g.
    assert (Hin : existsb (String.eqb x) (CP.sections p) = true)
      by (apply existsb_exists; exists x; split;
          [assumption | apply String.eqb_refl]).
    now rewrite Hin. }
  destruct (remove_repo_with env url s' (prune g p) (prune g p) Hc)
    as (s2 & E2 & Hc2 & _).
  { intros b w. apply remove_sections_unmatched.
    apply unmatched_of_referencing; [now apply percent_free_prune | exact Hnone]. }
  exists (prune g p), s2. split; [exact Hc |]. split; [exact Hnone |].
  split; [exact E2 |].
  rewrite Hc2. now destruct (os_fault env (now (world s'))).
Qed.

Lemma matches_url_update_other (url : string) (o d : dict) :
  forallb (fun ov => negb (String.eqb (fst ov) "baseurl")) o = true ->
  matches_url url (dict_update d o) = matches_url url d.
Proof.
  unfold dict_update. revert d.
  induction o as [|[k v] r IH]; simpl; intros d H; [reflexivity |].
  apply andb_prop in H. destruct H as [Hk Hr]. apply negb_true_iff in Hk.
  rewrite IH by assumption. now apply matches_url_set_other.
Qed.

(** X20: a [baseurl] in the [DEFAULT] section counts for every section
    that has none of its own, since the search goes through [items].  With
    the URL as default [baseurl], [add_repo] finds it in such a section,
    returns [True] and adds nothing, and [remove_repo], when it can create
    its temporary file, deletes that section. *)
Theorem inherited_baseurl_matches (fuel : nat) (url section : string)
        (opt_params own : dict) (s : State) (p : CP.t) :
  config_of s = Some p ->
  percent_free p = true ->
  distinct (CP.sections p) = true ->
  CP.find_section section (CP.sects p) = Some own ->
  forallb (fun ov => negb (String.eqb (fst ov) "baseurl")) own = true ->
  matches_url url (CP.defaults p) = true ->
  add_repo env fuel url opt_params s = (Ret true, st_of (self s) p (world s))
  /\ (os_fault env (now (world s)) = false ->
      exists p',
        config_of (snd (remove_repo env url s)) = Some p'
        /\ ~ In section (CP.sections p')).
Proof.
  intros Hcfg Hp Hd Hfind Hown Hdef.
  assert (Href : references p url section = true).
  { unfold references, CP.raw_items. rewrite Hfind.
    now rewrite matches_url_update_other. }
  assert (Hin : In section (CP.sections p)).
  { unfold CP.sections. clear - Hfind.
    induction (CP.sects p) as [|[n d] r IH]; simpl in *; [discriminate |].
    destruct (String.eqb_spec section n) as [-> | Hne]; [now left |].
    right. now apply IH. }
  split.
  - rewrite (add_repo_load env fuel url opt_params s p Hcfg).
    apply add_repo_found. rewrite scan_plain by (assumption || apply incl_refl).
    f_equal. apply existsb_exists. exists section. auto.
  - intros Hos.
    set (g := fun x => existsb (String.eqb x) (CP.sections p)
                       && references p url x).
    destruct (remove_repo_with env url s p (prune g p) Hcfg)
      as (s' & E & Hc & _).
    { intros b w. rewrite <- (prune_none p) at 2.
      apply remove_sections_spec; try assumption.
      - apply incl_refl.
      - reflexivity.
      - intros x. reflexivity. }
    rewrite Hos in Hc. rewrite E. cbn [snd]. exists (prune g p).
    split; [exact Hc |]. rewrite sections_prune. intros H.
    apply filter_In in H. destruct H as [_ H]. unfold g in H.
    assert (Hex : existsb (String.eqb section) (CP.sections p) = true)
      by (apply existsb_exists; exists section; split;
          [assumption | apply String.eqb_refl]).
    rewrite Hex, Href in H. discriminate H.
Qed.

End RemoveRepoFurther.

(** ** The options of a new section *)

Section MergedOptions.

Variable env : Env.

Lemma dict_get_set (key k v : string) (d : dict) :
  dict_get key (dict_set k v d)
  = if String.eqb key k then Some v else dict_get key d.
Proof.
  induction d as [|[k' v'] r IH]; simpl.
  - reflexivity.
  - destruct (String.eqb k k') eqn:E; simpl.
    + apply String.eqb_eq in E. subst k'.
      now destruct (String.eqb key k).
    + rewrite IH. destruct (String.eqb key k') eqn:E'; [| reflexivity].
      apply String.eqb_eq in E'. subst k'.
      rewrite String.eqb_sym in E. now rewrite E.
Qed.

Lemma dict_get_fold (key : string) (l d : dict) :
  dict_get key (fold_left (fun d ov => dict_set (lower (fst ov)) (snd ov) d) l d)
  = match last_lower key l with
    | Some v => Some v
    | None => dict_get key d
    end.
Proof.
  revert d. induction l as [|[k v] r IH]; intros d; [reflexivity |].
  cbn [fold_left last_lower fst snd]. rewrite IH.
  destruct (last_lower key r); [reflexivity |].
  rewrite dict_get_set, (String.eqb_sym key).
  now destruct (String.eqb (lower k) key).
Qed.

Lemma last_lower_app (key : string) (l r : dict) :
  last_lower key (l ++ r)
  = match last_lower key r with
    | Some v => Some v
    | None => last_lower key l
    end.
Proof.
  induction l as [|ov l IH]; simpl.
  - now destruct (last_lower key r).
  - rewrite IH. now destruct (last_lower key r).
Qed.

Lemma last_lower_none (key : string) (l : dict) :
  (forall ov, In ov l -> String.eqb (lower (fst ov)) key = false) ->
  last_lower key l = None.
Proof.
  induction l as [|ov l IH]; intros H; [reflexivity |].
  simpl. rewrite IH by (intros x Hx; apply H; now right).
  now rewrite (H ov (or_introl eq_refl)).
Qed.

(** Setting an option of another name, up to case, changes nothing for
    [key]. *)
Lemma last_lower_set_other (key k v : string) (d : dict) :
  String.eqb (lower k) key = false ->
  last_lower key (dict_set k v d) = last_lower key d.
Proof.
  intros Hk. induction d as [|[k' v'] r IH]; simpl.
  - now rewrite Hk.
  - destruct (String.eqb k k') eqn:E; simpl.
    + apply String.eqb_eq in E. subst k'. now rewrite Hk.
    + now rewrite IH.
Qed.

Lemma last_lower_update_other (key : string) (o d : dict) :
  (forall ov, In ov o -> String.eqb (lower (fst ov)) key = false) ->
  last_lower key (dict_update d o) = last_lower key d.
Proof.
  unfold dict_update. revert d.
  induction o as [|[k v] r IH]; intros d H; [reflexivity |].
  cbn [fold_left fst snd]. rewrite IH by (intros x Hx; apply H; now right).
  apply last_lower_set_other. exact (H (k, v) (or_introl eq_refl)).
Qed.

Lemma dict_set_keys (k v : string) (d : dict) (x : string) :
  In x (map fst (dict_set k v d)) -> x = k \/ In x (map fst d).
Proof.
  induction d as [|[k' v'] r IH]; simpl.
  - intros [H | []]. now left.
  - destruct (String.eqb k k'); simpl; intros [H | H]; auto.
    destruct (IH H); auto.
Qed.

Lemma dict_set_NoDup (k v : string) (d : dict) :
  NoDup (map fst d) -> NoDup (map fst (dict_set k v d)).
Proof.
  induction d as [|[k' v'] r IH]; simpl; intros H.
  - constructor; [intros [] | constructor].
  - inversion H as [|? ? Hn Hr]; subst.
    destruct (String.eqb k k') eqn:E; simpl.
    + now constructor.
    + constructor; [| now apply IH].
      intros Hin. destruct (dict_set_keys k v r k' Hin) as [-> | Hin'].
      * now rewrite String.eqb_refl in E.
      * contradiction.
Qed.

Lemma dict_set_In (k v : string) (d : dict) (ov : string * string) :
  In ov (dict_set k v d) -> fst ov = k \/ In ov d.
Proof.
  induction d as [|[k' v'] r IH]; simpl.
  - intros [<- | []]. now left.
  - destruct (String.eqb k k') eqn:E; simpl; intros [H | H]; auto.
    + apply String.eqb_eq in E. subst. now left.
    + destruct (IH H); auto.
Qed.

(** Setting [k]: the last word for [lower k] is [v], provided the options
    that go by this name up to case are spelled [k]. *)
Lemma last_lower_set_same (k v : string) (d : dict) :
  NoDup (map fst d) ->
  (forall ov, In ov d -> lower (fst ov) = lower k -> fst ov = k) ->
  last_lower (lower k) (dict_set k v d) = Some v.
Proof.
  induction d as [|[k' v'] r IH]; simpl; intros Hn Hp.
  - now rewrite String.eqb_refl.
  - inversion Hn as [|? ? Hnot Hr]; subst.
    destruct (String.eqb k k') eqn:E; simpl.
    + apply String.eqb_eq in E. subst k'.
      rewrite last_lower_none; [now rewrite String.eqb_refl |].
      intros ov Hin. destruct (String.eqb (lower (fst ov)) (lower k)) eqn:El;
        [| reflexivity].
      apply String.eqb_eq in El.
      elim Hnot. rewrite <- (Hp ov (or_intror Hin) El).
      now apply in_map.
    + rewrite IH; [reflexivity | assumption |].
      intros ov Hin. apply Hp. now right.
Qed.

Lemma last_lower_append_new (k v : string) (d : dict) :
  ~ In k (map fst d) ->
  last_lower (lower k) (dict_set k v d) = Some v.
Proof.
  induction d as [|[k' v'] r IH]; simpl; intros Hn.
  - now rewrite String.eqb_refl.
  - destruct (String.eqb k k') eqn:E.
    + apply String.eqb_eq in E. subst k'. elim Hn. now left.
    + simpl. rewrite IH; [reflexivity |]. intros H. apply Hn. now right.
Qed.

(** With caller keys that differ also in lower case, the caller's value
    is the last word for its key. *)
Lemma last_lower_update (k0 v0 : string) (o d : dict) :
  NoDup (map fst d) ->
  (forall ov, In ov d -> lower (fst ov) = lower k0 ->
              In k0 (map fst d) -> fst ov = k0) ->
  distinct (lower_keys o) = true ->
  In (k0, v0) o ->
  last_lower (lower k0) (dict_update d o) = Some v0.
Proof.
  unfold dict_update. revert d.
  induction o as [|[k v] r IH]; intros d Hn Hp Hd Hin; [contradiction |].
  cbn [fold_left fst snd]. cbn [lower_keys map distinct fst] in Hd.
  apply andb_prop in Hd. destruct Hd as [Hk Hd].
  apply negb_true_iff in Hk.
  assert (Hrest : forall ov, In ov r ->
                             String.eqb (lower (fst ov)) (lower k) = false).
  { intros ov Hov. destruct (String.eqb (lower (fst ov)) (lower k)) eqn:E;
      [| reflexivity].
    rewrite <- Hk. symmetry. apply existsb_exists. exists (lower (fst ov)).
    split; [now apply (in_map (fun ov => lower (fst ov))) |].
    now rewrite String.eqb_sym. }
  destruct Hin as [Hin | Hin].
  - injection Hin as -> ->.
    fold (dict_update (dict_set k0 v0 d) r).
    rewrite last_lower_update_other by exact Hrest.
    destruct (in_dec string_dec k0 (map fst d)) as [Hk0 | Hk0].
    + apply last_lower_set_same; [assumption |].
      intros ov Hov El. now apply Hp.
    + now apply last_lower_append_new.
  - assert (Hne : lower k0 <> lower k).
    { apply String.eqb_neq. exact (Hrest (k0, v0) Hin). }
    apply IH; try assumption.
    + now apply dict_set_NoDup.
    + intros ov Hov El Hk0.
      destruct (dict_set_In k v d ov Hov) as [Hf | Hf].
      * elim Hne. now rewrite <- El, Hf.
      * apply Hp; try assumption.
        destruct (dict_set_keys k v d k0 Hk0) as [-> | H]; [| exact H].
        now elim Hne.
Qed.

(** The caller's options are stored under their names in lower case and
    prevail over the built-in ones. *)
Lemma new_section_options_caller (url k v : string) (opts : dict) :
  distinct (lower_keys opts) = true ->
  In (k, v) opts ->
  dict_get (lower k) (new_section_options url opts) = Some v.
Proof.
  intros Hd Hin. unfold new_section_options.
  rewrite dict_get_fold, (last_lower_update k v); try assumption; try reflexivity.
  - repeat constructor; simpl; intuition discriminate.
  - intros ov [<- | [<- | []]] El [H | [H | []]]; try exact H;
      subst k; discriminate El.
Qed.

(** A built-in option that the caller does not name, in any case, keeps
    its built-in value. *)
Lemma new_section_options_builtin (url key v : string) (opts : dict) :
  In (key, v) [("name", "Avocado managed repository"); ("baseurl", url);
               ("enabled", "1"); ("gpgcheck", "0")] ->
  existsb (String.eqb key) (lower_keys opts) = false ->
  dict_get key (new_section_options url opts) = Some v.
Proof.
  intros Hin Hno. unfold new_section_options.
  assert (Ho : forall ov, In ov opts ->
                          String.eqb (lower (fst ov)) key = false).
  { intros ov Hov. destruct (String.eqb (lower (fst ov)) key) eqn:E;
      [| reflexivity].
    rewrite <- Hno. symmetry. apply existsb_exists. exists (lower (fst ov)).
    split; [now apply (in_map (fun ov => lower (fst ov))) |].
    now rewrite String.eqb_sym. }
  rewrite dict_get_fold, (last_lower_update_other key) by exact Ho.
  destruct Hin as [H | [H | [H | [H | []]]]]; injection H as <- <-;
    reflexivity.
Qed.

(** X21: the options of the section a first [add_repo] creates, when
    nothing holds a percent sign and the caller's option names differ also
    in lower case.  Every caller option is stored under its name in lower
    case with the caller's value, also when that name is [name], [baseurl],
    [enabled] or [gpgcheck]; each of these four that the caller does not
    name keeps its built-in value. *)
Theorem add_repo_options_merged (fuel j : nat) (url : string)
        (opt_params : dict) (s : State) (p : CP.t) :
  config_of s = Some p ->
  percent_free p = true ->
  has_percent url = false ->
  percent_free_dict opt_params = true ->
  referencing p url = [] ->
  rejected env p (now (world s)) fuel = Some j ->
  distinct (lower_keys opt_params) = true ->
  exists p1 d,
    config_of (snd (add_repo env fuel url opt_params s)) = Some p1
    /\ CP.find_section (candidate env (j + now (world s))) (CP.sects p1)
       = Some d
    /\ (forall k v, In (k, v) opt_params -> dict_get (lower k) d = Some v)
    /\ (forall key v,
          In (key, v) [("name", "Avocado managed repository");
                       ("baseurl", url); ("enabled", "1"); ("gpgcheck", "0")] ->
          existsb (String.eqb key) (lower_keys opt_params) = false ->
          dict_get key d = Some v).
Proof.
  intros Hcfg Hp Hu Ho Hnone Hrej Hd.
  assert (Hscan : scan p url (CP.sections p) = Ok false).
  { rewrite scan_plain by (assumption || apply incl_refl).
    f_equal. now apply referencing_nil. }
  rewrite (add_repo_load env fuel url opt_params s p Hcfg).
  destruct (add_repo_new env fuel j url opt_params (self s) p (world s)
              Ho Hu Hscan Hrej) as (w' & E & _).
  rewrite E. cbn [snd].
  exists (with_section p (candidate env (j + now (world s)))
                       (new_section_options url opt_params)),
         (new_section_options url opt_params).
  split; [reflexivity |]. split.
  - apply find_section_app_new.
    apply has_section_not_In. exact (rejected_fresh env p _ fuel j Hrej).
  - split.
    + intros k v Hin. now apply new_section_options_caller.
    + intros key v Hin Hno. now apply new_section_options_builtin.
Qed.

End MergedOptions.

(** ** Instances of the further properties *)

Ltac premises :=
  repeat match goal with |- _ /\ _ => split end;
  first [assumption | reflexivity | intros; reflexivity].

Lemma get_source_always_cleans_up_witness :
  let env := source_env 6 (Some "/root") in
  let s := sample_state Missing in
  (forall t, os_fault env t = false)
  /\ (let path := tmp_name env (now (world s)) in
      let r := get_source env "vim" (Some "/srv/build") None s in
      fst r <> OutOfFuel
      /\ is_dir path (world (snd r)) = false
      /\ tmpdirs (world (snd r))
         = filter (fun d => negb (String.eqb path d)) (tmpdirs (world s))).
Proof.
  intros env s. split; [intros t; reflexivity |].
  exact (get_source_always_cleans_up env "vim" (Some "/srv/build") None s
           (fun _ => eq_refl)).
Defined.

Lemma get_source_prepares_witness :
  let env := source_env 99 (Some "/root") in
  let s := sample_state Missing in
  let path := tmp_name env 0 in
  let spec_path := spec_path_of "/root" "vim" in
  ((forall t', os_fault env t' = false)
   /\ check_installed env 1 "rpm-build" = true
   /\ check_installed env 2 "yum-utils" = true
   /\ exit_status env 3 (downloader_command "vim" path) = 0%Z
   /\ filter (endswith ".src.rpm") (listdir env 4 path) = ["vim-9.0-1.src.rpm"]
   /\ rpm_install env 5 (path_join path "vim-9.0-1.src.rpm") = true
   /\ environ_HOME env = Some "/root"
   /\ exit_status env 6 (builddep_command spec_path) = 0%Z)
  /\ (let r := get_source env "vim" (Some "/srv/build") None s in
      fst r = Ret (prepare_source env 7 spec_path "/srv/build" None)
      /\ cmds (world (snd r))
         = cmds (world s)
           ++ [downloader_command "vim" path; builddep_command spec_path]).
Proof.
  intros env s path spec_path.
  assert (Hl : filter (endswith ".src.rpm") (listdir env 4 path)
               = ["vim-9.0-1.src.rpm"]) by (vm_compute; reflexivity).
  split.
  - premises.
  - exact (get_source_prepares env "vim" "/srv/build" "/root"
             "vim-9.0-1.src.rpm" None s (fun _ => eq_refl) eq_refl eq_refl
             eq_refl Hl eq_refl eq_refl eq_refl).
Defined.

Lemma get_source_gives_up_witness :
  let env := source_env 3 (Some "/root") in
  let s := sample_state Missing in
  let path := tmp_name env 0 in
  ((forall t', os_fault env t' = false)
   /\ check_installed env 1 "rpm-build" = true
   /\ check_installed env 2 "yum-utils" = true
   /\ exit_status env 3 (downloader_command "vim" path) <> 0%Z)
  /\ fst (get_source env "vim" (Some "/srv/build") None s) = Ret "".
Proof.
  intros env s path.
  assert (Hd : exit_status env 3 (downloader_command "vim" path) <> 0%Z)
    by (intros H; discriminate H).
  split.
  - premises.
  - exact (get_source_gives_up env "vim" "/srv/build" None s
             (fun _ => eq_refl) eq_refl eq_refl (or_introl Hd)).
Defined.

Lemma get_source_without_home_witness :
  let env := source_env 99 None in
  let s := sample_state Missing in
  let path := tmp_name env 0 in
  let src_rpms := filter (endswith ".src.rpm") (listdir env 4 path) in
  ((forall t', os_fault env t' = false)
   /\ check_installed env 1 "rpm-build" = true
   /\ check_installed env 2 "yum-utils" = true
   /\ exit_status env 3 (downloader_command "vim" path) = 0%Z
   /\ List.length src_rpms = 1
   /\ rpm_install env 5 (path_join path (last src_rpms "")) = true
   /\ environ_HOME env = None)
  /\ (let r := get_source env "vim" (Some "/srv/build") None s in
      fst r = Raise KeyError
      /\ is_dir path (world (snd r)) = false).
Proof.
  intros env s path src_rpms.
  assert (Hl : List.length src_rpms = 1) by (vm_compute; reflexivity).
  split.
  - premises.
  - exact (get_source_without_home env "vim" "/srv/build" None s
             (fun _ => eq_refl) eq_refl eq_refl eq_refl Hl eq_refl eq_refl).
Defined.

Lemma set_version_dotted_witness :
  (all_digits "4" = true /\ all_digits "18" = true /\ all_digits "0" = true
   /\ is_linebreak newline = true)
  /\ (let version := "4" +++ "." +++ "18" +++ "." +++ "0" in
      set_version version = inr version
      /\ set_version (version +++ String newline "Installed: dnf") = inr version).
Proof.
  split; [repeat split; vm_compute; reflexivity |].
  apply (set_version_dotted "4" "18" "0" "Installed: dnf" newline);
    vm_compute; reflexivity.
Defined.

Lemma set_version_short_output_witness :
  splitlines_first "4" = Some "4"
  /\ String.length (strip "4") < 2
  /\ set_version "4" = inr (strip "4").
Proof.
  assert (H1 : splitlines_first "4" = Some "4") by (vm_compute; reflexivity).
  assert (H2 : String.length (strip "4") < 2) by (vm_compute; lia).
  split; [exact H1 |]. split; [exact H2 |].
  exact (proj2 (set_version_short_output "4" "4") H1 H2).
Defined.

Lemma set_version_prefix_witness :
  let out := "yum 3.4.3" +++ String newline "Installed: rpm" in
  (splitlines_first out = Some "yum 3.4.3"
   /\ 2 <= String.length (strip "yum 3.4.3"))
  /\ exists ver rest,
      set_version out = inr ver
      /\ strip "yum 3.4.3" = ver +++ rest
      /\ 2 <= String.length ver.
Proof.
  intros out.
  assert (H1 : splitlines_first out = Some "yum 3.4.3")
    by (vm_compute; reflexivity).
  assert (H2 : 2 <= String.length (strip "yum 3.4.3")) by (vm_compute; lia).
  split; [split; [exact H1 | exact H2] |].
  exact (set_version_prefix out "yum 3.4.3" H1 H2).
Defined.

Lemma YumBackend_init_establishes_witness :
  let find_command := fun c => if String.eqb c "yum" then Some "/usr/bin/yum"
                               else if String.eqb c "rpm" then Some "/usr/bin/rpm"
                               else None in
  let super_init := fun w : World =>
                      match find_command "rpm" with
                      | Some _ => (inr tt, w)
                      | None => (inl CmdNotFoundError, w)
                      end in
  let stdout_text := fun (_ : nat) (_ : string) =>
                       "4.14.0" +++ String newline "Installed: dnf" in
  let w := sample_world Missing in
  let b := initial_backend "yum" "/usr/bin/yum" true in
  let r := YumBackend_init super_init find_command stdout_text true "yum" w in
  let w0 := snd (super_init w) in
  fst r = inr (b, "4.14.0")
  /\ (exists u, fst (super_init w) = inr u)
  /\ exists tool,
      find_command "yum" = Some tool
      /\ initialised tool true b
      /\ _cfgparser b = None
      /\ _yum_base b = None
      /\ cmds (snd r) = cmds w0 ++ [tool +++ " -y " +++ "--version"]
      /\ repo_file (snd r) = repo_file w0
      /\ set_version (stdout_text (now w0) (tool +++ " -y " +++ "--version"))
         = inr "4.14.0"
      /\ forall name,
          install_command b name = command_template tool "install" name true.
Proof.
  intros find_command super_init stdout_text w b r w0.
  assert (H : fst r = inr (b, "4.14.0")) by (vm_compute; reflexivity).
  split; [exact H |].
  exact (proj2 (proj2 (YumBackend_init_establishes super_init find_command
                         stdout_text true "yum" w)) b "4.14.0" H).
Defined.

Lemma repo_config_parser_cached_witness :
  let s := sample_state (Ini one_repo) in
  let s1 := st_of (self s) one_repo (world s) in
  repo_config_parser s = (Ret one_repo, s1)
  /\ forall w', repo_config_parser (mkState (self s1) w')
                = (Ret one_repo, mkState (self s1) w').
Proof.
  intros s s1.
  assert (H : repo_config_parser s = (Ret one_repo, s1))
    by (vm_compute; reflexivity).
  split; [exact H |].
  exact (repo_config_parser_cached s s1 one_repo H).
Defined.

Lemma repo_config_parser_error_once_witness :
  let s := sample_state (Malformed one_repo) in
  (_cfgparser (self s) = None /\ repo_file (world s) = Malformed one_repo)
  /\ (let first := repo_config_parser s in
      fst first = Raise ParsingError
      /\ repo_config_parser (snd first) = (Ret one_repo, snd first)
      /\ config_of s = None
      /\ config_of (snd first) = Some one_repo).
Proof.
  intros s. split; [split; reflexivity |].
  exact (repo_config_parser_error_once s one_repo eq_refl eq_refl).
Defined.

Lemma upgrade_without_name_witness :
  let b := initial_backend "yum" "/usr/bin/yum" true in
  initialised "/usr/bin/yum" true b
  /\ upgrade_command b None = upgrade_command b (Some "")
  /\ upgrade_command b None
     = String.concat " " ["/usr/bin/yum"; "-y"; "update"] +++ " --transient ".
Proof.
  intros b.
  assert (H : initialised "/usr/bin/yum" true b) by (split; reflexivity).
  split; [exact H |].
  exact (upgrade_without_name "/usr/bin/yum" true b H).
Defined.

Lemma add_repo_keeps_existing_witness :
  let env := faulty_env 2 in
  let s := sample_state (Ini one_repo) in
  config_of s = Some one_repo
  /\ exists p',
      config_of (snd (add_repo env 3 "http://mirror/extras"
                               [("priority", "1")] s)) = Some p'
      /\ CP.defaults p' = CP.defaults one_repo
      /\ (CP.sects p' = CP.sects one_repo
          \/ exists name d,
               ~ In name (CP.sections one_repo)
               /\ CP.sects p' = CP.sects one_repo ++ [(name, d)]).
Proof.
  intros env s. split; [reflexivity |].
  exact (add_repo_keeps_existing env 3 "http://mirror/extras"
           [("priority", "1")] s one_repo eq_refl).
Defined.

Lemma add_repo_refused_url_witness :
  let env := sample_env 0 false in
  let s := sample_state (Ini one_repo) in
  let url := "http://mirror/my%20repo" in
  (config_of s = Some one_repo
   /\ scan one_repo url (CP.sections one_repo) = Ok false
   /\ rejected env one_repo (now (world s)) 3 = Some 0
   /\ CP.before_set url = Err ValueError)
  /\ (let r := add_repo env 3 url [] s in
      fst r = Raise ValueError
      /\ config_of (snd r)
         = Some (with_section one_repo (candidate env (0 + now (world s)))
                              [("name", "Avocado managed repository")])
      /\ cmds (world (snd r)) = cmds (world s)
      /\ repo_file (world (snd r)) = repo_file (world s)).
Proof.
  intros env s url.
  assert (H1 : scan one_repo url (CP.sections one_repo) = Ok false)
    by (vm_compute; reflexivity).
  assert (H2 : rejected env one_repo (now (world s)) 3 = Some 0)
    by (vm_compute; reflexivity).
  assert (H3 : CP.before_set url = Err ValueError)
    by (vm_compute; reflexivity).
  split; [premises |].
  exact (add_repo_refused_url env 3 0 url [] s one_repo eq_refl H1 H2 H3).
Defined.

Lemma new_section_name_first_free_witness :
  let env := sample_env 0 false in
  let p := CP.mk [] [("software_manager_k3Fq", [])] in
  let s := st_of (initial_backend "yum" "/usr/bin/yum" false) p
                 (sample_world (Ini p)) in
  (_cfgparser (self s) = Some p
   /\ 1 < 3
   /\ CP.has_section p (candidate env (1 + now (world s))) = false
   /\ (forall i, i < 1 ->
                 CP.has_section p (candidate env (i + now (world s))) = true))
  /\ new_section_name env 3 s
     = (Ret "software_manager_Zx09", st_of (self s) p (advance 2 (world s))).
Proof.
  intros env p s.
  assert (H1 : 1 < 3) by lia.
  assert (H2 : CP.has_section p (candidate env (1 + now (world s))) = false)
    by (vm_compute; reflexivity).
  assert (H3 : forall i, i < 1 ->
               CP.has_section p (candidate env (i + now (world s))) = true).
  { intros i Hi. replace i with 0 by lia. vm_compute. reflexivity. }
  split; [split; [reflexivity | repeat split; assumption] |].
  exact (proj1 (new_section_name_first_free env 3 1 s p eq_refl H1 H2 H3)).
Defined.

Lemma add_repo_file_outcome_witness :
  let env := faulty_env 5 in
  let s := sample_state (Ini one_repo) in
  let url := "http://mirror/extras" in
  (config_of s = Some one_repo
   /\ percent_free one_repo = true
   /\ has_percent url = false
   /\ percent_free_dict [] = true
   /\ referencing one_repo url = []
   /\ rejected env one_repo (now (world s)) 3 = Some 0)
  /\ (let t := 1 + now (world s) in
      let p1 := with_section one_repo (candidate env (0 + now (world s)))
                             (new_section_options url []) in
      let r := add_repo env 3 url [] s in
      fst r = Ret (copied env t && negb (os_fault env (4 + t)))
      /\ config_of (snd r) = Some p1
      /\ repo_file (world (snd r))
         = (if copied env t then Ini p1 else repo_file (world s))).
Proof.
  intros env s url.
  assert (H1 : percent_free one_repo = true) by (vm_compute; reflexivity).
  assert (H2 : has_percent url = false) by (vm_compute; reflexivity).
  assert (H3 : referencing one_repo url = []) by (vm_compute; reflexivity).
  assert (H4 : rejected env one_repo (now (world s)) 3 = Some 0)
    by (vm_compute; reflexivity).
  split.
  - premises.
  - exact (add_repo_file_outcome env 3 0 url [] s one_repo eq_refl H1 H2
             eq_refl H3 H4).
Defined.

Lemma remove_repo_removes_exactly_witness :
  let env := sample_env 0 false in
  let s := sample_state (Ini one_repo) in
  let url := "http://mirror/os" in
  (config_of s = Some one_repo
   /\ percent_free one_repo = true
   /\ distinct (CP.sections one_repo) = true
   /\ os_fault env (now (world s)) = false)
  /\ exists s' p',
      remove_repo env url s = (Ret (write_succeeds env (now (world s))), s')
      /\ config_of s' = Some p'
      /\ CP.defaults p' = CP.defaults one_repo
      /\ CP.sects p'
         = filter (fun sd => negb (references one_repo url (fst sd)))
                  (CP.sects one_repo)
      /\ (write_succeeds env (now (world s)) = true ->
          repo_file (world s') = Ini p').
Proof.
  intros env s url.
  assert (H1 : percent_free one_repo = true) by (vm_compute; reflexivity).
  assert (H2 : distinct (CP.sections one_repo) = true)
    by (vm_compute; reflexivity).
  split; [premises |].
  exact (remove_repo_removes_exactly env url s one_repo eq_refl H1 H2 eq_refl).
Defined.

Lemma remove_repo_twice_witness :
  let env := sample_env 0 false in
  let s := sample_state (Ini one_repo) in
  let url := "http://mirror/os" in
  (config_of s = Some one_repo
   /\ percent_free one_repo = true
   /\ distinct (CP.sections one_repo) = true
   /\ os_fault env (now (world s)) = false)
  /\ (let s1 := snd (remove_repo env url s) in
      exists p1 s2,
        config_of s1 = Some p1
        /\ referencing p1 url = []
        /\ remove_repo env url s1
           = (Ret (write_succeeds env (now (world s1))), s2)
        /\ config_of s2 = Some p1).
Proof.
  intros env s url.
  assert (H1 : percent_free one_repo = true) by (vm_compute; reflexivity).
  assert (H2 : distinct (CP.sections one_repo) = true)
    by (vm_compute; reflexivity).
  split; [premises |].
  exact (remove_repo_twice env url s one_repo eq_refl H1 H2 eq_refl).
Defined.

Lemma inherited_baseurl_matches_witness :
  let env := sample_env 0 false in
  let url := "http://mirror/os" in
  let own := [("name", "Plain")] in
  let p := CP.mk [("baseurl", url)] [("plain", own)] in
  let s := sample_state (Ini p) in
  (config_of s = Some p
   /\ percent_free p = true
   /\ distinct (CP.sections p) = true
   /\ CP.find_section "plain" (CP.sects p) = Some own
   /\ forallb (fun ov => negb (String.eqb (fst ov) "baseurl")) own = true
   /\ matches_url url (CP.defaults p) = true)
  /\ add_repo env 3 url [] s = (Ret true, st_of (self s) p (world s))
  /\ (os_fault env (now (world s)) = false ->
      exists p',
        config_of (snd (remove_repo env url s)) = Some p'
        /\ ~ In "plain" (CP.sections p')).
Proof.
  intros env url own p s.
  assert (H1 : percent_free p = true) by (vm_compute; reflexivity).
  assert (H2 : distinct (CP.sections p) = true) by (vm_compute; reflexivity).
  assert (H3 : CP.find_section "plain" (CP.sects p) = Some own)
    by (vm_compute; reflexivity).
  assert (H4 : forallb (fun ov => negb (String.eqb (fst ov) "baseurl")) own
               = true) by (vm_compute; reflexivity).
  assert (H5 : matches_url url (CP.defaults p) = true)
    by (vm_compute; reflexivity).
  split.
  - premises.
  - exact (inherited_baseurl_matches env 3 url "plain" [] own s p eq_refl
             H1 H2 H3 H4 H5).
Defined.

Lemma add_repo_options_merged_witness :
  let env := sample_env 0 false in
  let s := sample_state (Ini one_repo) in
  let url := "http://mirror/extras" in
  let opts := [("Enabled", "0"); ("priority", "1")] in
  (config_of s = Some one_repo
   /\ percent_free one_repo = true
   /\ has_percent url = false
   /\ percent_free_dict opts = true
   /\ referencing one_repo url = []
   /\ rejected env one_repo (now (world s)) 3 = Some 0
   /\ distinct (lower_keys opts) = true)
  /\ exists p1 d,
      config_of (snd (add_repo env 3 url opts s)) = Some p1
      /\ CP.find_section (candidate env (0 + now (world s))) (CP.sects p1)
         = Some d
      /\ (forall k v, In (k, v) opts -> dict_get (lower k) d = Some v)
      /\ (forall key v,
            In (key, v) [("name", "Avocado managed repository");
                         ("baseurl", url); ("enabled", "1"); ("gpgcheck", "0")] ->
            existsb (String.eqb key) (lower_keys opts) = false ->
            dict_get key d = Some v).
Proof.
  intros env s url opts.
  assert (H1 : percent_free one_repo = true) by (vm_compute; reflexivity).
  assert (H2 : has_percent url = false) by (vm_compute; reflexivity).
  assert (H3 : percent_free_dict opts = true) by (vm_compute; reflexivity).
  assert (H4 : referencing one_repo url = []) by (vm_compute; reflexivity).
  assert (H5 : rejected env one_repo (now (world s)) 3 = Some 0)
    by (vm_compute; reflexivity).
  assert (H6 : distinct (lower_keys opts) = true) by (vm_compute; reflexivity).
  split.
  - premises.
  - exact (add_repo_options_merged env 3 0 url opts s one_repo eq_refl H1 H2
             H3 H4 H5 H6).
Defined.
